(** * showerOS: the safety interlock and the water control loop

    A shallow embedding of [core/water_control.py], [core/safety_monitor.py],
    the session coordinator of [main.py] and the dotted-key access of
    [utils/config_manager.py].

    Conventions of the embedding.
    - Python floats (temperatures, flow rates, [time.time()] stamps) are
      rationals [Q]; rounding is not modelled, so the statements about
      computed values are comparisons and bounds with room for it, and
      equalities only between values the code copies or leaves alone.
    - The three objects [WaterController], [SafetyMonitor] and
      [SmartShowerOS] live in one [World], together with the asyncio task
      table, the wall clock and the trace of callback invocations and of
      calls to the external collaborators (audio, mobile notification).
    - An [async def] method is a state transformer [M = World -> World].
      The two controllers never raise.  The coordinator awaits the audio
      manager in the middle of [start_shower] and [stop_shower]: there it
      is suspended, and [start_playback] may raise.  Both methods are
      therefore also given in two halves, cut at that call.
    - Log lines are not modelled. *)

From Stdlib Require Import ZArith QArith Qabs Lqa Lia List Bool String.
Import ListNotations.
Local Open Scope Q_scope.

(** ** Enumerations *)

Module ValveState.
Inductive t := CLOSED | OPEN | PARTIAL.
Definition eqb (a b : t) : bool :=
  match a, b with
  | CLOSED, CLOSED | OPEN, OPEN | PARTIAL, PARTIAL => true
  | _, _ => false
  end.
End ValveState.

Module FlowState.
Inductive t := STOPPED | FLOWING | ADJUSTING.
Definition eqb (a b : t) : bool :=
  match a, b with
  | STOPPED, STOPPED | FLOWING, FLOWING | ADJUSTING, ADJUSTING => true
  | _, _ => false
  end.
End FlowState.

Module SafetyState.
Inductive t := SAFE | WARNING | DANGER | EMERGENCY.
End SafetyState.

Module SensorState.
Inductive t := OPEN | CLOSED | UNKNOWN.
Definition eqb (a b : t) : bool :=
  match a, b with
  | OPEN, OPEN | CLOSED, CLOSED | UNKNOWN, UNKNOWN => true
  | _, _ => false
  end.
End SensorState.

(** The callables that [SmartShowerOS._setup_event_handlers] stores in the
    [on_*] slots of the two controllers: bound methods of the coordinator.
    The water controller's slots only ever receive the first three, the
    safety monitor's slots the other four. *)
Inductive WaterHandler :=
| _on_water_flow_start | _on_water_flow_stop | _on_temperature_change.

Inductive SafetyHandler :=
| _on_door_open | _on_door_close | _on_leak_detected | _on_emergency_stop.

(** What an observer of the system sees: every invocation of a callback slot
    and every call into an external collaborator.  The trace is kept most
    recent first. *)
Inductive Event :=
| Ev_on_flow_start (temperature : Q)
| Ev_on_flow_stop
| Ev_on_temperature_change (temperature : Q)
| Ev_on_door_open
| Ev_on_door_close
| Ev_on_leak_detected
| Ev_on_emergency_stop
| Ev_on_safety_warning (message : string)
| Ev_audio_start_playback (source : string)
| Ev_audio_stop_playback
| Ev_send_emergency_notification (message : string).

(** ** asyncio tasks running [_door_timeout_handler] *)

Module Task.
Inductive status := Pending | Cancelled | Finished.
(** [deadline] is the clock value at which [asyncio.sleep(door_timeout)]
    returns: creation time plus the timeout. *)
Record t := mk { deadline : Q; state : status }.
Definition done (k : t) : bool :=
  match state k with Pending => false | _ => true end.
(** [Task.cancel()]: a task that is already done is left alone. *)
Definition cancel (k : t) : t :=
  match state k with Pending => mk (deadline k) Cancelled | _ => k end.
End Task.

(** ** Object states *)

Module WaterController.
Record t := mk {
  current_temperature : Q;
  target_temperature : Q;
  flow_rate : Q;
  pressure : Q;
  valve_state : ValveState.t;
  flow_state : FlowState.t;
  hot_valve_open : bool;
  cold_valve_open : bool;
  mixer_valve_position : Q;
  on_flow_start : option WaterHandler;
  on_flow_stop : option WaterHandler;
  on_temperature_change : option WaterHandler;
  max_temperature : Q;
  min_temperature : Q
}.

(** Attribute assignment [self.f = v]. *)
Definition set_current_temperature (v : Q) (c : t) : t :=
  match c with mk x0 x1 x2 x3 x4 x5 x6 x7 x8 x9 x10 x11 x12 x13 =>
    mk v x1 x2 x3 x4 x5 x6 x7 x8 x9 x10 x11 x12 x13
  end.
Definition set_target_temperature (v : Q) (c : t) : t :=
  match c with mk x0 x1 x2 x3 x4 x5 x6 x7 x8 x9 x10 x11 x12 x13 =>
    mk x0 v x2 x3 x4 x5 x6 x7 x8 x9 x10 x11 x12 x13
  end.
Definition set_flow_rate (v : Q) (c : t) : t :=
  match c with mk x0 x1 x2 x3 x4 x5 x6 x7 x8 x9 x10 x11 x12 x13 =>
    mk x0 x1 v x3 x4 x5 x6 x7 x8 x9 x10 x11 x12 x13
  end.
Definition set_pressure (v : Q) (c : t) : t :=
  match c with mk x0 x1 x2 x3 x4 x5 x6 x7 x8 x9 x10 x11 x12 x13 =>
    mk x0 x1 x2 v x4 x5 x6 x7 x8 x9 x10 x11 x12 x13
  end.
Definition set_valve_state (v : ValveState.t) (c : t) : t :=
  match c with mk x0 x1 x2 x3 x4 x5 x6 x7 x8 x9 x10 x11 x12 x13 =>
    mk x0 x1 x2 x3 v x5 x6 x7 x8 x9 x10 x11 x12 x13
  end.
Definition set_flow_state (v : FlowState.t) (c : t) : t :=
  match c with mk x0 x1 x2 x3 x4 x5 x6 x7 x8 x9 x10 x11 x12 x13 =>
    mk x0 x1 x2 x3 x4 v x6 x7 x8 x9 x10 x11 x12 x13
  end.
Definition set_hot_valve_open (v : bool) (c : t) : t :=
  match c with mk x0 x1 x2 x3 x4 x5 x6 x7 x8 x9 x10 x11 x12 x13 =>
    mk x0 x1 x2 x3 x4 x5 v x7 x8 x9 x10 x11 x12 x13
  end.
Definition set_cold_valve_open (v : bool) (c : t) : t :=
  match c with mk x0 x1 x2 x3 x4 x5 x6 x7 x8 x9 x10 x11 x12 x13 =>
    mk x0 x1 x2 x3 x4 x5 x6 v x8 x9 x10 x11 x12 x13
  end.
Definition set_mixer_valve_position (v : Q) (c : t) : t :=
  match c with mk x0 x1 x2 x3 x4 x5 x6 x7 x8 x9 x10 x11 x12 x13 =>
    mk x0 x1 x2 x3 x4 x5 x6 x7 v x9 x10 x11 x12 x13
  end.
Definition set_on_flow_start (v : option WaterHandler) (c : t) : t :=
  match c with mk x0 x1 x2 x3 x4 x5 x6 x7 x8 x9 x10 x11 x12 x13 =>
    mk x0 x1 x2 x3 x4 x5 x6 x7 x8 v x10 x11 x12 x13
  end.
Definition set_on_flow_stop (v : option WaterHandler) (c : t) : t :=
  match c with mk x0 x1 x2 x3 x4 x5 x6 x7 x8 x9 x10 x11 x12 x13 =>
    mk x0 x1 x2 x3 x4 x5 x6 x7 x8 x9 v x11 x12 x13
  end.
Definition set_on_temperature_change (v : option WaterHandler) (c : t) : t :=
  match c with mk x0 x1 x2 x3 x4 x5 x6 x7 x8 x9 x10 x11 x12 x13 =>
    mk x0 x1 x2 x3 x4 x5 x6 x7 x8 x9 x10 v x12 x13
  end.
Definition set_max_temperature (v : Q) (c : t) : t :=
  match c with mk x0 x1 x2 x3 x4 x5 x6 x7 x8 x9 x10 x11 x12 x13 =>
    mk x0 x1 x2 x3 x4 x5 x6 x7 x8 x9 x10 x11 v x13
  end.
Definition set_min_temperature (v : Q) (c : t) : t :=
  match c with mk x0 x1 x2 x3 x4 x5 x6 x7 x8 x9 x10 x11 x12 x13 =>
    mk x0 x1 x2 x3 x4 x5 x6 x7 x8 x9 x10 x11 x12 v
  end.
End WaterController.

Module SafetyMonitor.
Record t := mk {
  safety_state : SafetyState.t;
  door_state : SensorState.t;
  leak_detected : bool;
  emergency_stop_active : bool;
  door_timer : option nat;          (* handle into the task table *)
  shower_start_time : option Q;
  last_door_open_time : option Q;
  door_sensor_active : bool;
  leak_sensor_active : bool;
  emergency_button_pressed : bool;
  on_door_open : option SafetyHandler;
  on_door_close : option SafetyHandler;
  on_leak_detected : option SafetyHandler;
  on_emergency_stop : option SafetyHandler;
  on_safety_warning : option SafetyHandler;
  max_shower_duration : Q;
  door_timeout : Q
}.

(** Attribute assignment [self.f = v]. *)
Definition set_safety_state (v : SafetyState.t) (c : t) : t :=
  match c with mk x0 x1 x2 x3 x4 x5 x6 x7 x8 x9 x10 x11 x12 x13 x14 x15 x16 =>
    mk v x1 x2 x3 x4 x5 x6 x7 x8 x9 x10 x11 x12 x13 x14 x15 x16
  end.
Definition set_door_state (v : SensorState.t) (c : t) : t :=
  match c with mk x0 x1 x2 x3 x4 x5 x6 x7 x8 x9 x10 x11 x12 x13 x14 x15 x16 =>
    mk x0 v x2 x3 x4 x5 x6 x7 x8 x9 x10 x11 x12 x13 x14 x15 x16
  end.
Definition set_leak_detected (v : bool) (c : t) : t :=
  match c with mk x0 x1 x2 x3 x4 x5 x6 x7 x8 x9 x10 x11 x12 x13 x14 x15 x16 =>
    mk x0 x1 v x3 x4 x5 x6 x7 x8 x9 x10 x11 x12 x13 x14 x15 x16
  end.
Definition set_emergency_stop_active (v : bool) (c : t) : t :=
  match c with mk x0 x1 x2 x3 x4 x5 x6 x7 x8 x9 x10 x11 x12 x13 x14 x15 x16 =>
    mk x0 x1 x2 v x4 x5 x6 x7 x8 x9 x10 x11 x12 x13 x14 x15 x16
  end.
Definition set_door_timer (v : option nat) (c : t) : t :=
  match c with mk x0 x1 x2 x3 x4 x5 x6 x7 x8 x9 x10 x11 x12 x13 x14 x15 x16 =>
    mk x0 x1 x2 x3 v x5 x6 x7 x8 x9 x10 x11 x12 x13 x14 x15 x16
  end.
Definition set_shower_start_time (v : option Q) (c : t) : t :=
  match c with mk x0 x1 x2 x3 x4 x5 x6 x7 x8 x9 x10 x11 x12 x13 x14 x15 x16 =>
    mk x0 x1 x2 x3 x4 v x6 x7 x8 x9 x10 x11 x12 x13 x14 x15 x16
  end.
Definition set_last_door_open_time (v : option Q) (c : t) : t :=
  match c with mk x0 x1 x2 x3 x4 x5 x6 x7 x8 x9 x10 x11 x12 x13 x14 x15 x16 =>
    mk x0 x1 x2 x3 x4 x5 v x7 x8 x9 x10 x11 x12 x13 x14 x15 x16
  end.
Definition set_door_sensor_active (v : bool) (c : t) : t :=
  match c with mk x0 x1 x2 x3 x4 x5 x6 x7 x8 x9 x10 x11 x12 x13 x14 x15 x16 =>
    mk x0 x1 x2 x3 x4 x5 x6 v x8 x9 x10 x11 x12 x13 x14 x15 x16
  end.
Definition set_leak_sensor_active (v : bool) (c : t) : t :=
  match c with mk x0 x1 x2 x3 x4 x5 x6 x7 x8 x9 x10 x11 x12 x13 x14 x15 x16 =>
    mk x0 x1 x2 x3 x4 x5 x6 x7 v x9 x10 x11 x12 x13 x14 x15 x16
  end.
Definition set_emergency_button_pressed (v : bool) (c : t) : t :=
  match c with mk x0 x1 x2 x3 x4 x5 x6 x7 x8 x9 x10 x11 x12 x13 x14 x15 x16 =>
    mk x0 x1 x2 x3 x4 x5 x6 x7 x8 v x10 x11 x12 x13 x14 x15 x16
  end.
Definition set_on_door_open (v : option SafetyHandler) (c : t) : t :=
  match c with mk x0 x1 x2 x3 x4 x5 x6 x7 x8 x9 x10 x11 x12 x13 x14 x15 x16 =>
    mk x0 x1 x2 x3 x4 x5 x6 x7 x8 x9 v x11 x12 x13 x14 x15 x16
  end.
Definition set_on_door_close (v : option SafetyHandler) (c : t) : t :=
  match c with mk x0 x1 x2 x3 x4 x5 x6 x7 x8 x9 x10 x11 x12 x13 x14 x15 x16 =>
    mk x0 x1 x2 x3 x4 x5 x6 x7 x8 x9 x10 v x12 x13 x14 x15 x16
  end.
Definition set_on_leak_detected (v : option SafetyHandler) (c : t) : t :=
  match c with mk x0 x1 x2 x3 x4 x5 x6 x7 x8 x9 x10 x11 x12 x13 x14 x15 x16 =>
    mk x0 x1 x2 x3 x4 x5 x6 x7 x8 x9 x10 x11 v x13 x14 x15 x16
  end.
Definition set_on_emergency_stop (v : option SafetyHandler) (c : t) : t :=
  match c with mk x0 x1 x2 x3 x4 x5 x6 x7 x8 x9 x10 x11 x12 x13 x14 x15 x16 =>
    mk x0 x1 x2 x3 x4 x5 x6 x7 x8 x9 x10 x11 x12 v x14 x15 x16
  end.
Definition set_on_safety_warning (v : option SafetyHandler) (c : t) : t :=
  match c with mk x0 x1 x2 x3 x4 x5 x6 x7 x8 x9 x10 x11 x12 x13 x14 x15 x16 =>
    mk x0 x1 x2 x3 x4 x5 x6 x7 x8 x9 x10 x11 x12 x13 v x15 x16
  end.
Definition set_max_shower_duration (v : Q) (c : t) : t :=
  match c with mk x0 x1 x2 x3 x4 x5 x6 x7 x8 x9 x10 x11 x12 x13 x14 x15 x16 =>
    mk x0 x1 x2 x3 x4 x5 x6 x7 x8 x9 x10 x11 x12 x13 x14 v x16
  end.
Definition set_door_timeout (v : Q) (c : t) : t :=
  match c with mk x0 x1 x2 x3 x4 x5 x6 x7 x8 x9 x10 x11 x12 x13 x14 x15 x16 =>
    mk x0 x1 x2 x3 x4 x5 x6 x7 x8 x9 x10 x11 x12 x13 x14 x15 v
  end.
End SafetyMonitor.

Module SmartShowerOS.
Record t := mk {
  shower_active : bool;
  emergency_stop : bool
}.

(** Attribute assignment [self.f = v]. *)
Definition set_shower_active (v : bool) (c : t) : t :=
  match c with mk x0 x1 =>
    mk v x1
  end.
Definition set_emergency_stop (v : bool) (c : t) : t :=
  match c with mk x0 x1 =>
    mk x0 v
  end.
End SmartShowerOS.

Record World := mkWorld {
  water : WaterController.t;
  safety : SafetyMonitor.t;
  os : SmartShowerOS.t;
  tasks : list Task.t;
  clock : Q;                        (* time.time() *)
  trace : list Event
}.

(** ** State transformers *)

Definition M := World -> World.

Definition seq (a b : M) : M := fun w => b (a w).
Notation "a ;; b" := (seq a b) (at level 61, right associativity).

Definition skip : M := fun w => w.
Definition when (c : World -> bool) (a : M) : M :=
  fun w => if c w then a w else w.
Definition ifte (c : World -> bool) (a b : M) : M :=
  fun w => if c w then a w else b w.

Definition emit (e : Event) : M :=
  fun w => match w with
           | mkWorld wa sa o ts ck tr => mkWorld wa sa o ts ck (e :: tr)
           end.

(** [if self.on_x: await self.on_x(...)] : the slot is read, and when it holds
    a callable the invocation is observed and the callable runs. *)
Definition fire {H : Type} (invoke : H -> M) (slot : World -> option H)
    (e : World -> Event) : M :=
  fun w => match slot w with
           | Some h => invoke h (emit (e w) w)
           | None => w
           end.

Definition upd_water (f : WaterController.t -> WaterController.t) : M :=
  fun w => match w with
           | mkWorld wa sa o ts ck tr => mkWorld (f wa) sa o ts ck tr
           end.
Definition upd_safety (f : SafetyMonitor.t -> SafetyMonitor.t) : M :=
  fun w => match w with
           | mkWorld wa sa o ts ck tr => mkWorld wa (f sa) o ts ck tr
           end.
Definition upd_os (f : SmartShowerOS.t -> SmartShowerOS.t) : M :=
  fun w => match w with
           | mkWorld wa sa o ts ck tr => mkWorld wa sa (f o) ts ck tr
           end.
Definition upd_tasks (f : list Task.t -> list Task.t) : M :=
  fun w => match w with
           | mkWorld wa sa o ts ck tr => mkWorld wa sa o (f ts) ck tr
           end.

(** Python's two-argument [max] and [min]: the first argument is kept unless
    the second is strictly greater (smaller). *)
Definition py_max (a b : Q) : Q := if Qle_bool b a then a else b.
Definition py_min (a b : Q) : Q := if Qle_bool a b then a else b.
Definition Qgt_bool (a b : Q) : bool := negb (Qle_bool a b).
Definition Qlt_bool (a b : Q) : bool := negb (Qle_bool b a).

(** Truth value of an [Optional[float]]: [None] and [0.0] are false. *)
Definition truthy (o : option Q) : bool :=
  match o with Some t => negb (Qeq_bool t 0) | None => false end.

(** In-place update of one cell of the task table; out of range is a no-op
    (a handle is always the index of a task that was created). *)
Fixpoint update_nth {A : Type} (i : nat) (f : A -> A) (l : list A) : list A :=
  match l, i with
  | [], _ => []
  | x :: r, O => f x :: r
  | x :: r, S j => x :: update_nth j f r
  end.

Definition count (p : Event -> bool) (l : list Event) : nat :=
  List.length (List.filter p l).

Definition is_flow_stop (e : Event) : bool :=
  match e with Ev_on_flow_stop => true | _ => false end.
Definition is_flow_start (e : Event) : bool :=
  match e with Ev_on_flow_start _ => true | _ => false end.
Definition is_emergency_stop (e : Event) : bool :=
  match e with Ev_on_emergency_stop => true | _ => false end.
Definition is_leak_detected (e : Event) : bool :=
  match e with Ev_on_leak_detected => true | _ => false end.
Definition is_door_open (e : Event) : bool :=
  match e with Ev_on_door_open => true | _ => false end.
Definition is_door_close (e : Event) : bool :=
  match e with Ev_on_door_close => true | _ => false end.

(** ** core/water_control.py : class WaterController *)

Module water_control.
Import WaterController.

Section Methods.
(** How a stored callable is run; supplied by whoever filled the slots. *)
Variable invoke : WaterHandler -> M.

Definition _open_valves : M :=
  upd_water (set_hot_valve_open true) ;;
  upd_water (set_cold_valve_open true) ;;
  upd_water (set_mixer_valve_position (1#2)) ;;
  upd_water (set_valve_state ValveState.OPEN).

Definition _close_valves : M :=
  upd_water (set_hot_valve_open false) ;;
  upd_water (set_cold_valve_open false) ;;
  upd_water (set_mixer_valve_position 0) ;;
  upd_water (set_valve_state ValveState.CLOSED).

(** Only logs. *)
Definition _adjust_mixer_valve : M := skip.
Definition _adjust_flow_valves : M := skip.

Definition clamp_temperature (c : t) (temperature : Q) : Q :=
  py_max (min_temperature c) (py_min (max_temperature c) temperature).

Definition start_flow (temperature : option Q) : M :=
  (fun w => match temperature with
            | Some x =>
                upd_water (set_target_temperature
                             (clamp_temperature (water w) x)) w
            | None => w
            end) ;;
  _open_valves ;;
  upd_water (set_flow_state FlowState.ADJUSTING) ;;
  upd_water (WaterController.set_flow_rate 8) ;;
  fire invoke (fun w => on_flow_start (water w))
       (fun w => Ev_on_flow_start (target_temperature (water w))).

Definition stop_flow : M :=
  _close_valves ;;
  upd_water (set_flow_state FlowState.STOPPED) ;;
  upd_water (WaterController.set_flow_rate 0) ;;
  fire invoke (fun w => on_flow_stop (water w)) (fun _ => Ev_on_flow_stop).

Definition set_temperature (temperature : Q) : M :=
  fun w =>
    let temperature := clamp_temperature (water w) temperature in
    if Qgt_bool (Qabs (temperature - target_temperature (water w))) (1#2)
    then (upd_water (set_target_temperature temperature) ;;
          _adjust_mixer_valve) w
    else w.

Definition set_flow_rate (flow_rate : Q) : M :=
  let flow_rate := py_max 0 (py_min 15 flow_rate) in
  upd_water (WaterController.set_flow_rate flow_rate) ;;
  _adjust_flow_valves.

Definition _read_sensors : M :=
  when (fun w => negb (FlowState.eqb (flow_state (water w)) FlowState.STOPPED))
    (fun w =>
       let temp_diff :=
         target_temperature (water w) - current_temperature (water w) in
       if Qgt_bool (Qabs temp_diff) (1#10)
       then (upd_water (set_current_temperature
                          (current_temperature (water w) + temp_diff * (1#10))) ;;
             fire invoke (fun w => on_temperature_change (water w))
                  (fun w => Ev_on_temperature_change
                              (current_temperature (water w)))) w
       else w).

Definition _adjust_temperature : M :=
  fun w =>
    let temp_diff :=
      target_temperature (water w) - current_temperature (water w) in
    if Qgt_bool (Qabs temp_diff) (1#2)
    then ((if Qgt_bool temp_diff 0
           then upd_water (set_mixer_valve_position
                  (py_min 1 (mixer_valve_position (water w) + (1#100))))
           else upd_water (set_mixer_valve_position
                  (py_max 0 (mixer_valve_position (water w) - (1#100))))) ;;
          _adjust_mixer_valve) w
    else w.

(** The third check only logs a warning; its guard is kept as a predicate so
    that its reachability can be stated. *)
Definition low_flow_check_fires (w : World) : bool :=
  FlowState.eqb (flow_state (water w)) FlowState.FLOWING
  && Qlt_bool (flow_rate (water w)) (1#2).

Definition _check_safety : M :=
  when (fun w => Qgt_bool (current_temperature (water w))
                          (max_temperature (water w)))
       stop_flow ;;
  when (fun w => Qgt_bool (pressure (water w)) 5) stop_flow ;;
  when low_flow_check_fires skip.

Definition emergency_stop : M :=
  upd_water (set_hot_valve_open false) ;;
  upd_water (set_cold_valve_open false) ;;
  upd_water (set_mixer_valve_position 0) ;;
  upd_water (set_valve_state ValveState.CLOSED) ;;
  upd_water (set_flow_state FlowState.STOPPED) ;;
  upd_water (WaterController.set_flow_rate 0) ;;
  fire invoke (fun w => on_flow_stop (water w)) (fun _ => Ev_on_flow_stop).

(** One iteration of the body of [_control_loop] (the part inside [try]). *)
Definition _control_loop : M :=
  _read_sensors ;;
  when (fun w => FlowState.eqb (flow_state (water w)) FlowState.FLOWING)
       _adjust_temperature ;;
  _check_safety.

End Methods.
End water_control.

(** ** core/safety_monitor.py : class SafetyMonitor *)

Module safety_monitor.
Import SafetyMonitor.

(** [self.door_timer.cancel()] guarded by [if self.door_timer:]. *)
Definition cancel_door_timer : M :=
  fun w => match door_timer (safety w) with
           | Some i => upd_tasks (update_nth i Task.cancel) w
           | None => w
           end.

(** [asyncio.create_task(self._door_timeout_handler())]: a new pending task
    that sleeps [door_timeout] seconds from now. *)
Definition create_door_timeout_task : M :=
  fun w =>
    let i := List.length (tasks w) in
    let k := Task.mk (clock w + door_timeout (safety w)) Task.Pending in
    (upd_tasks (fun l => l ++ [k]) ;; upd_safety (set_door_timer (Some i))) w.

Definition start_door_timer : M :=
  cancel_door_timer ;; create_door_timeout_task.

Definition reset_door_timer : M :=
  cancel_door_timer ;; start_door_timer.

Definition start_shower_session : M :=
  (fun w => upd_safety (set_shower_start_time (Some (clock w))) w) ;;
  upd_safety (set_safety_state SafetyState.SAFE) ;;
  start_door_timer.

Definition stop_shower_session : M :=
  (fun w => match door_timer (safety w) with
            | Some _ => (cancel_door_timer ;;
                         upd_safety (set_door_timer None)) w
            | None => w
            end) ;;
  upd_safety (set_shower_start_time None) ;;
  upd_safety (set_safety_state SafetyState.SAFE).

Definition _initialize_safety_state : M :=
  upd_safety (set_safety_state SafetyState.SAFE) ;;
  upd_safety (set_door_state SensorState.UNKNOWN) ;;
  upd_safety (set_leak_detected false) ;;
  upd_safety (set_emergency_stop_active false).

Definition session_active (w : World) : bool :=
  truthy (shower_start_time (safety w)).

Definition door_timer_done (w : World) : bool :=
  match door_timer (safety w) with
  | Some i => match nth_error (tasks w) i with
              | Some k => Task.done k
              | None => false
              end
  | None => false
  end.

Section Methods.
Variable invoke : SafetyHandler -> M.

Definition emergency_stop (reason : string) : M :=
  upd_safety (set_emergency_stop_active true) ;;
  upd_safety (set_safety_state SafetyState.EMERGENCY) ;;
  fire invoke (fun w => on_emergency_stop (safety w))
       (fun _ => Ev_on_emergency_stop).

(** The continuation of task [i] once its [asyncio.sleep] has returned. *)
Definition _door_timeout_handler : M :=
  when (fun w => SensorState.eqb (door_state (safety w)) SensorState.CLOSED)
       (emergency_stop "Door timeout - Auto-shutoff").

(** The event loop resumes task [i]: possible only if the task is still
    pending and its deadline has passed.  The task is marked finished
    before its body runs, so a [cancel()] issued from inside the body
    leaves it alone. *)
Definition due (i : nat) (w : World) : bool :=
  match nth_error (tasks w) i with
  | Some k => negb (Task.done k) && Qle_bool (Task.deadline k) (clock w)
  | None => false
  end.

Definition run_door_timeout (i : nat) : M :=
  when (due i)
       (upd_tasks (update_nth i (fun k => Task.mk (Task.deadline k) Task.Finished)) ;;
        _door_timeout_handler).

(** The four blocks of [_read_sensors], in program order. *)

(** [# Simulate door sensor] *)
Definition read_door_sensor : M :=
  fun w => upd_safety (set_door_state
             (if door_sensor_active (safety w)
              then SensorState.OPEN else SensorState.CLOSED)) w.

(** [# Trigger door events] *)
Definition trigger_door_events (old_door_state : SensorState.t) : M :=
  fun w =>
    if negb (SensorState.eqb old_door_state (door_state (safety w)))
    then (if SensorState.eqb (door_state (safety w)) SensorState.OPEN
          then (upd_safety (set_last_door_open_time (Some (clock w))) ;;
                fire invoke (fun w => on_door_open (safety w))
                     (fun _ => Ev_on_door_open)) w
          else fire invoke (fun w => on_door_close (safety w))
                    (fun _ => Ev_on_door_close) w)
    else w.

(** [# Simulate leak sensor] *)
Definition read_leak_sensor : M :=
  when (fun w => leak_sensor_active (safety w)
                 && negb (leak_detected (safety w)))
       (upd_safety (set_leak_detected true) ;;
        fire invoke (fun w => on_leak_detected (safety w))
             (fun _ => Ev_on_leak_detected)).

(** [# Simulate emergency button] *)
Definition read_emergency_button : M :=
  when (fun w => emergency_button_pressed (safety w))
       (emergency_stop "Emergency button pressed").

Definition _read_sensors : M :=
  (fun w =>
     let old_door_state := door_state (safety w) in
     (read_door_sensor ;; trigger_door_events old_door_state) w) ;;
  read_leak_sensor ;;
  read_emergency_button.

Definition duration_exceeded (w : World) : bool :=
  match shower_start_time (safety w) with
  | Some t0 => negb (Qeq_bool t0 0)
               && Qgt_bool (clock w - t0) (max_shower_duration (safety w))
  | None => false
  end.

(** The three blocks of [_check_safety_conditions], in program order. *)

(** [# Check shower duration] *)
Definition check_shower_duration : M :=
  when duration_exceeded (emergency_stop "Maximum shower duration exceeded").

(** [# Check for leaks] *)
Definition check_for_leaks : M :=
  when (fun w => leak_detected (safety w))
       (upd_safety (set_safety_state SafetyState.DANGER) ;;
        fire invoke (fun w => on_safety_warning (safety w))
             (fun _ => Ev_on_safety_warning "Water leak detected")).

(** [# Check door state] *)
Definition check_door_state : M :=
  fun w =>
    if SensorState.eqb (door_state (safety w)) SensorState.CLOSED
       && session_active w
    then w
    else if SensorState.eqb (door_state (safety w)) SensorState.OPEN
            && session_active w
    then reset_door_timer w
    else w.

Definition _check_safety_conditions : M :=
  check_shower_duration ;; check_for_leaks ;; check_door_state.

Definition _update_safety_state : M :=
  fun w =>
    if emergency_stop_active (safety w)
    then upd_safety (set_safety_state SafetyState.EMERGENCY) w
    else if leak_detected (safety w)
    then upd_safety (set_safety_state SafetyState.DANGER) w
    else if SensorState.eqb (door_state (safety w)) SensorState.CLOSED
            && session_active w
    then (if door_timer_done w
          then upd_safety (set_safety_state SafetyState.WARNING) w
          else upd_safety (set_safety_state SafetyState.SAFE) w)
    else upd_safety (set_safety_state SafetyState.SAFE) w.

(** One iteration of the body of [_control_loop] (the part inside [try]). *)
Definition _control_loop : M :=
  _read_sensors ;; _check_safety_conditions ;; _update_safety_state.

End Methods.

(** The simulated sensor lines. *)
Definition simulate_door_open : M := upd_safety (set_door_sensor_active true).
Definition simulate_door_close : M := upd_safety (set_door_sensor_active false).
Definition simulate_leak : M := upd_safety (set_leak_sensor_active true).
(** [simulate_emergency_button] presses, sleeps 100 ms and releases; the two
    halves are separate steps of the event loop. *)
Definition press_emergency_button : M :=
  upd_safety (set_emergency_button_pressed true).
Definition release_emergency_button : M :=
  upd_safety (set_emergency_button_pressed false).
(** [test_sensors] also lowers the leak line again. *)
Definition clear_leak_sensor : M := upd_safety (set_leak_sensor_active false).

End safety_monitor.

(** ** main.py : class SmartShowerOS, the session coordinator *)

(** How a public coordinator method ends.  Its body sits in
    [try: ... except Exception: log; raise], so it either returns or
    re-raises what its body raised. *)
Inductive Result := Returned | Raised (exception : string).

(** The settings read by [_load_settings] and [_load_safety_settings]. *)
Record Config := mkConfig {
  cfg_default_temperature : Q;
  cfg_max_temperature : Q;
  cfg_min_temperature : Q;
  cfg_door_timeout : Q;
  cfg_max_shower_duration : Q
}.

Definition default_config : Config := mkConfig 38 45 20 600 1800.

Module main.
Import SmartShowerOS.

(** [_on_water_flow_start], [_on_water_flow_stop], [_on_temperature_change]:
    each only writes a log line. *)
Definition invoke_water (h : WaterHandler) : M :=
  match h with
  | _on_water_flow_start => skip
  | _on_water_flow_stop => skip
  | _on_temperature_change => skip
  end.

(** [audio_manager.start_playback], [audio_manager.stop_playback] and
    [mobile_api.send_emergency_notification] are external: the call is
    observed where it is made.  What the coordinator sees of them is how
    they end and that it is suspended while it awaits them:
    [start_playback] returns or raises (a missing file, a service that is
    not signed in), which is an input of [start_shower] below;
    [stop_playback] waits for the player to exit, so other tasks run before
    [stop_shower] goes on. *)
Definition audio_start_playback (source : string) : M :=
  emit (Ev_audio_start_playback source).
Definition audio_stop_playback : M := emit Ev_audio_stop_playback.
Definition send_emergency_notification (message : string) : M :=
  emit (Ev_send_emergency_notification message).

(** Truth value of an [Optional[str]]. *)
Definition truthy_str (o : option string) : bool :=
  match o with
  | Some s => negb (String.eqb s EmptyString)
  | None => false
  end.

Definition start_shower_body (temperature : Q) (audio_source : option string) : M :=
  water_control.start_flow invoke_water (Some temperature) ;;
  (match audio_source with
   | Some s => if truthy_str audio_source then audio_start_playback s else skip
   | None => skip
   end) ;;
  safety_monitor.start_shower_session ;;
  upd_os (set_shower_active true).

(** [start_shower] as far as its call of [start_playback], where it is
    suspended and from where it does not go on if the call raises; and the
    statements that follow the call. *)
Definition start_shower_until_playback (temperature : Q) (source : string) : M :=
  water_control.start_flow invoke_water (Some temperature) ;;
  audio_start_playback source.

Definition start_shower_after_playback : M :=
  safety_monitor.start_shower_session ;;
  upd_os (set_shower_active true).

(** [playback] is how [audio_manager.start_playback] ends if it is called:
    what it raises, [start_shower] logs and raises again. *)
Definition start_shower (temperature : Q) (audio_source : option string)
    (playback : Result) (w : World) : Result * World :=
  match playback with
  | Returned => (Returned, start_shower_body temperature audio_source w)
  | Raised e =>
      match audio_source with
      | Some s =>
          if truthy_str audio_source
          then (Raised e, start_shower_until_playback temperature s w)
          else (Returned, start_shower_body temperature audio_source w)
      | None => (Returned, start_shower_body temperature audio_source w)
      end
  end.

Definition stop_shower_body : M :=
  water_control.stop_flow invoke_water ;;
  audio_stop_playback ;;
  safety_monitor.stop_shower_session ;;
  upd_os (set_shower_active false).

(** [stop_shower] as far as its call of [stop_playback], where it is
    suspended, and the statements that follow the call.  [stop_shower_body]
    is the two run one after the other with nothing in between. *)
Definition stop_shower_until_playback : M :=
  water_control.stop_flow invoke_water ;;
  audio_stop_playback.

Definition stop_shower_after_playback : M :=
  safety_monitor.stop_shower_session ;;
  upd_os (set_shower_active false).

Definition stop_shower (w : World) : Result * World :=
  (Returned, stop_shower_body w).

Definition invoke_safety (h : SafetyHandler) : M :=
  match h with
  | _on_door_open => safety_monitor.reset_door_timer
  | _on_door_close => safety_monitor.start_door_timer
  | _on_leak_detected =>
      stop_shower_body ;; send_emergency_notification "Water leak detected!"
  | _on_emergency_stop =>
      upd_os (set_emergency_stop true) ;;
      stop_shower_body ;;
      send_emergency_notification "Emergency stop activated!"
  end.

Definition _setup_event_handlers : M :=
  upd_water (WaterController.set_on_flow_start (Some _on_water_flow_start)) ;;
  upd_water (WaterController.set_on_flow_stop (Some _on_water_flow_stop)) ;;
  upd_water (WaterController.set_on_temperature_change
               (Some _on_temperature_change)) ;;
  upd_safety (SafetyMonitor.set_on_door_open (Some _on_door_open)) ;;
  upd_safety (SafetyMonitor.set_on_door_close (Some _on_door_close)) ;;
  upd_safety (SafetyMonitor.set_on_leak_detected (Some _on_leak_detected)) ;;
  upd_safety (SafetyMonitor.set_on_emergency_stop (Some _on_emergency_stop)).

(** The objects as their constructors leave them, followed by
    [_load_settings] and [_load_safety_settings]. *)
Definition new_WaterController (cfg : Config) : WaterController.t :=
  WaterController.mk 20 (cfg_default_temperature cfg) 0 0
    ValveState.CLOSED FlowState.STOPPED false false (1#2)
    None None None (cfg_max_temperature cfg) (cfg_min_temperature cfg).

Definition new_SafetyMonitor (cfg : Config) : SafetyMonitor.t :=
  SafetyMonitor.mk SafetyState.SAFE SensorState.UNKNOWN false false
    None None None false false false
    None None None None None
    (cfg_max_shower_duration cfg) (cfg_door_timeout cfg).

(** The world after [SmartShowerOS.initialize()] at clock value [now]. *)
Definition initialize (cfg : Config) (now : Q) : World :=
  _setup_event_handlers
    (mkWorld (new_WaterController cfg) (new_SafetyMonitor cfg)
             (SmartShowerOS.mk false false) [] now []).

(** The controllers' methods with the coordinator's handlers plugged in. *)
Definition water_tick : M := water_control._control_loop invoke_water.
Definition safety_tick : M := safety_monitor._control_loop invoke_safety.
Definition safety_emergency_stop (reason : string) : M :=
  safety_monitor.emergency_stop invoke_safety reason.
Definition door_timer_fires (i : nat) : M :=
  safety_monitor.run_door_timeout invoke_safety i.

(** [run]'s main loop clears the coordinator's own flag after its pause. *)
Definition clear_coordinator_flag : M := upd_os (set_emergency_stop false).

End main.

(** ** The system as a transition system

    Everything that can happen between two suspension points of the event
    loop: a tick of either control loop, the door-timeout task waking up,
    a command from the web or mobile front end, a change on a simulated
    sensor line, or time passing.  [CmdStartShower] and [CmdStopShower] are
    calls during whose wait for the audio manager no other task changes the
    state.  The four steps at the end are the halves of such a call with
    other steps in between: a [start_shower] that has reached its call of
    [start_playback] (and is suspended there, or never goes on because the
    call raises), a [stop_shower] that has reached [stop_playback], and
    their resumptions. *)
Inductive Step :=
| WaterTick
| SafetyTick
| DoorTimerFires (i : nat)
| CmdStartShower (temperature : Q) (audio_source : option string)
| CmdStopShower
| CmdSetTemperature (temperature : Q)
| CmdSetFlowRate (flow_rate : Q)
| CmdEmergencyStop (reason : string)
| CoordinatorClearsFlag
| SimulateDoorOpen
| SimulateDoorClose
| SimulateLeak
| ClearLeakSensor
| PressEmergencyButton
| ReleaseEmergencyButton
| Elapse (dt : Q)
| StartShowerAwaitsPlayback (temperature : Q) (audio_source : string)
| StartShowerResumes
| StopShowerAwaitsPlayback
| StopShowerResumes.

Definition advance_clock (dt : Q) : M :=
  fun w => match w with
           | mkWorld wa sa o ts ck tr => mkWorld wa sa o ts (ck + Qabs dt) tr
           end.

Definition step (s : Step) : M :=
  match s with
  | WaterTick => main.water_tick
  | SafetyTick => main.safety_tick
  | DoorTimerFires i => main.door_timer_fires i
  | CmdStartShower t a => fun w => snd (main.start_shower t a Returned w)
  | CmdStopShower => fun w => snd (main.stop_shower w)
  | CmdSetTemperature t => water_control.set_temperature t
  | CmdSetFlowRate r => water_control.set_flow_rate r
  | CmdEmergencyStop r => main.safety_emergency_stop r
  | CoordinatorClearsFlag => main.clear_coordinator_flag
  | SimulateDoorOpen => safety_monitor.simulate_door_open
  | SimulateDoorClose => safety_monitor.simulate_door_close
  | SimulateLeak => safety_monitor.simulate_leak
  | ClearLeakSensor => safety_monitor.clear_leak_sensor
  | PressEmergencyButton => safety_monitor.press_emergency_button
  | ReleaseEmergencyButton => safety_monitor.release_emergency_button
  | Elapse dt => advance_clock dt
  | StartShowerAwaitsPlayback t a => main.start_shower_until_playback t a
  | StartShowerResumes => main.start_shower_after_playback
  | StopShowerAwaitsPlayback => main.stop_shower_until_playback
  | StopShowerResumes => main.stop_shower_after_playback
  end.

Definition run (l : list Step) (w : World) : World :=
  fold_left (fun w s => step s w) l w.

Inductive reachable (cfg : Config) (now : Q) : World -> Prop :=
| reach_init : reachable cfg now (main.initialize cfg now)
| reach_step : forall w s, reachable cfg now w -> reachable cfg now (step s w).

(** ** Vocabulary of the statements *)

(** The two ways of stopping the flow, and a run of consecutive calls. *)
Inductive StopCall := call_stop_flow | call_emergency_stop.

Definition do_stop (c : StopCall) : M :=
  match c with
  | call_stop_flow => water_control.stop_flow main.invoke_water
  | call_emergency_stop => water_control.emergency_stop main.invoke_water
  end.

Definition stops (l : list StopCall) (w : World) : World :=
  fold_left (fun w c => do_stop c w) l w.

(** The assignments both stop operations perform. *)
Definition shut_water (c : WaterController.t) : WaterController.t :=
  WaterController.set_flow_rate 0
    (WaterController.set_flow_state FlowState.STOPPED
       (WaterController.set_valve_state ValveState.CLOSED
          (WaterController.set_mixer_valve_position 0
             (WaterController.set_cold_valve_open false
                (WaterController.set_hot_valve_open false c))))).

(** What both stop operations leave in the controller. *)
Definition shut (c : WaterController.t) : Prop :=
  WaterController.valve_state c = ValveState.CLOSED
  /\ WaterController.flow_state c = FlowState.STOPPED
  /\ WaterController.hot_valve_open c = false
  /\ WaterController.cold_valve_open c = false
  /\ WaterController.mixer_valve_position c = 0
  /\ WaterController.flow_rate c = 0.

(** The world at the point where [_control_loop] calls [_check_safety]. *)
Definition before_check_safety : M :=
  water_control._read_sensors main.invoke_water ;;
  when (fun w => FlowState.eqb (WaterController.flow_state (water w))
                               FlowState.FLOWING)
       water_control._adjust_temperature.

(** [n] consecutive sensor reads of the water controller. *)
Fixpoint reads (n : nat) (w : World) : World :=
  match n with
  | O => w
  | S k => reads k (water_control._read_sensors main.invoke_water w)
  end.

(** [n] consecutive iterations of the water control loop. *)
Fixpoint ticks (n : nat) (w : World) : World :=
  match n with
  | O => w
  | S k => ticks k (main.water_tick w)
  end.

(** The remaining error, target minus measured temperature. *)
Definition temp_error (w : World) : Q :=
  WaterController.target_temperature (water w)
  - WaterController.current_temperature (water w).

(** A method keeps a property of the water controller. *)
Definition keeps (P : WaterController.t -> Prop) (m : M) : Prop :=
  forall w, P (water w) -> P (water (m w)).

(** A method keeps a property of the safety monitor. *)
Definition keeps_safety (P : SafetyMonitor.t -> Prop) (m : M) : Prop :=
  forall w, P (safety w) -> P (safety (m w)).

(** A method does not touch the water controller. *)
Definition water_same (m : M) : Prop := forall w, water (m w) = water w.

Definition never_flowing (c : WaterController.t) : Prop :=
  WaterController.flow_state c <> FlowState.FLOWING.

(** A method does not touch the safety monitor. *)
Definition safety_same (m : M) : Prop := forall w, safety (m w) = safety w.

Definition latched (c : SafetyMonitor.t) : Prop :=
  SafetyMonitor.emergency_stop_active c = true.

(** A method leaves an observation [V] of the world unchanged. *)
Definition same {A : Type} (V : World -> A) (m : M) : Prop :=
  forall w, V (m w) = V w.

(** How often [on_emergency_stop] has been fired so far. *)
Definition emergency_count (w : World) : nat :=
  count is_emergency_stop (trace w).

(** A method keeps an invariant of the world. *)
Definition preserves (I : World -> Prop) (m : M) : Prop :=
  forall w, I w -> I (m w).

(** The door timer as the event loop sees it: the handle and the tasks. *)
Definition timers (w : World) : option nat * list Task.t :=
  (SafetyMonitor.door_timer (safety w), tasks w).

(** The task table after [cancel()] on the task behind a handle. *)
Definition cancelled (h : option nat) (ts : list Task.t) : list Task.t :=
  match h with
  | Some i => update_nth i Task.cancel ts
  | None => ts
  end.

Definition pending_at (w : World) (i : nat) : Prop :=
  exists k, nth_error (tasks w) i = Some k /\ Task.state k = Task.Pending.

(** At most one door-timeout task is pending, and it is the one the
    monitor holds the handle of. *)
Definition timer_inv (w : World) : Prop :=
  forall i, pending_at w i -> SafetyMonitor.door_timer (safety w) = Some i.

Definition no_pending (w : World) : Prop := forall i, ~ pending_at w i.

(** The slots as [_setup_event_handlers] fills them. *)
Definition wired (c : SafetyMonitor.t) : Prop :=
  SafetyMonitor.on_door_open c = Some _on_door_open
  /\ SafetyMonitor.on_door_close c = Some _on_door_close
  /\ SafetyMonitor.on_leak_detected c = Some _on_leak_detected
  /\ SafetyMonitor.on_emergency_stop c = Some _on_emergency_stop
  /\ SafetyMonitor.on_safety_warning c = None.

(** The assignments [start_flow] performs after recording the target. *)
Definition started_water (c : WaterController.t) : WaterController.t :=
  WaterController.set_flow_rate 8
    (WaterController.set_flow_state FlowState.ADJUSTING
       (WaterController.set_valve_state ValveState.OPEN
          (WaterController.set_mixer_valve_position (1#2)
             (WaterController.set_cold_valve_open true
                (WaterController.set_hot_valve_open true c))))).

(** Supply valves, valve state and flow state agree: all shut and stopped,
    or all open and adjusting. *)
Definition valves_agree (c : WaterController.t) : Prop :=
  (WaterController.valve_state c = ValveState.CLOSED
   /\ WaterController.flow_state c = FlowState.STOPPED
   /\ WaterController.hot_valve_open c = false
   /\ WaterController.cold_valve_open c = false)
  \/ (WaterController.valve_state c = ValveState.OPEN
      /\ WaterController.flow_state c = FlowState.ADJUSTING
      /\ WaterController.hot_valve_open c = true
      /\ WaterController.cold_valve_open c = true).

(** Target and measured temperature lie within the configured bounds. *)
Definition within_bounds (lo hi : Q) (c : WaterController.t) : Prop :=
  WaterController.min_temperature c = lo
  /\ WaterController.max_temperature c = hi
  /\ lo <= WaterController.target_temperature c
  /\ WaterController.target_temperature c <= hi
  /\ lo <= WaterController.current_temperature c
  /\ WaterController.current_temperature c <= hi.

(** Flow rate within the setter's range, mixer within its travel, and the
    pressure reading still at its constructor value. *)
Definition rates_in_range (c : WaterController.t) : Prop :=
  0 <= WaterController.flow_rate c
  /\ WaterController.flow_rate c <= 15
  /\ 0 <= WaterController.mixer_valve_position c
  /\ WaterController.mixer_valve_position c <= 1
  /\ WaterController.pressure c = 0.

(** A configuration whose default target and whose initial water temperature
    (20 degrees, set by the constructor) lie within its bounds. *)
Definition consistent (cfg : Config) : Prop :=
  cfg_min_temperature cfg <= cfg_default_temperature cfg
  /\ cfg_default_temperature cfg <= cfg_max_temperature cfg
  /\ cfg_min_temperature cfg <= 20
  /\ 20 <= cfg_max_temperature cfg.

(** Everything but the water controller and the trace. *)
Definition core (w : World)
  : SafetyMonitor.t * SmartShowerOS.t * list Task.t * Q :=
  (safety w, os w, tasks w, clock w).

(** The door block of a tick: the sensor read followed by the door events. *)
Definition door_block : M :=
  fun w => safety_monitor.trigger_door_events main.invoke_safety
             (SafetyMonitor.door_state (safety w))
             (safety_monitor.read_door_sensor w).

(** The first two assignments of the monitor's [emergency_stop]. *)
Definition latch_emergency : M :=
  upd_safety (SafetyMonitor.set_emergency_stop_active true) ;;
  upd_safety (SafetyMonitor.set_safety_state SafetyState.EMERGENCY).

Definition finish_task (i : nat) : M :=
  upd_tasks (update_nth i (fun k => Task.mk (Task.deadline k) Task.Finished)).

(** The timer the monitor holds is not done whenever the door is closed and
    no emergency is latched; the handlers are installed; and the safety
    state is not WARNING. *)
Definition sound (w : World) : Prop :=
  wired (safety w)
  /\ SafetyMonitor.safety_state (safety w) <> SafetyState.WARNING
  /\ (SafetyMonitor.emergency_stop_active (safety w) = true
      \/ SafetyMonitor.door_state (safety w) <> SensorState.CLOSED
      \/ safety_monitor.door_timer_done w = false).

(** The coordinator's session flag and the monitor's session start agree. *)
Definition session_agrees (w : World) : Prop :=
  SmartShowerOS.shower_active (os w) = true
  <-> SafetyMonitor.shower_start_time (safety w) <> None.

(** What the session is made of: the valve, the coordinator's flag and the
    monitor's session start. *)
Definition session_view (w : World) : ValveState.t * bool * option Q :=
  (WaterController.valve_state (water w),
   SmartShowerOS.shower_active (os w),
   SafetyMonitor.shower_start_time (safety w)).

(** ** utils/config_manager.py : class ConfigManager

    The settings as [yaml.safe_load] returns them: scalars, lists and
    dictionaries, a dictionary keeping its keys in insertion order.  [get]
    and [set] address a setting by a dotted key, whose segments are strings:
    only string keys are ever looked up or assigned, so those are the keys
    kept here.  The settings form a tree (a YAML file without aliases). *)

Module config_manager.

#[warnings="-register-all"]
Inductive Value :=
| VNone
| VBool (b : bool)
| VInt (z : Z)
| VFloat (q : Q)
| VStr (s : string)
| VList (l : list Value)
| VDict (d : list (string * Value)).

Definition is_dict (v : Value) : bool :=
  match v with VDict _ => true | _ => false end.

(** [key.split('.')]: never empty; an empty key gives one empty segment.
    The separator is character 46. *)
Fixpoint split_dot (key : string) : list string :=
  match key with
  | EmptyString => [EmptyString]
  | String c r =>
      if Ascii.eqb c (Ascii.ascii_of_nat 46)
      then EmptyString :: split_dot r
      else match split_dot r with
           | h :: t => String c h :: t
           | [] => [String c EmptyString]
           end
  end.

(** [k in d] and [d[k]] on a dictionary. *)
Fixpoint dict_get (k : string) (d : list (string * Value)) : option Value :=
  match d with
  | [] => None
  | (k0, v0) :: r => if String.eqb k0 k then Some v0 else dict_get k r
  end.

(** [d[k] = v]: an existing key keeps its place, a new key goes last. *)
Fixpoint dict_set (k : string) (v : Value) (d : list (string * Value))
    : list (string * Value) :=
  match d with
  | [] => [(k, v)]
  | (k0, v0) :: r =>
      if String.eqb k0 k then (k0, v) :: r else (k0, v0) :: dict_set k v r
  end.

(** The loop of [get]: [None] where the code returns [default]. *)
Fixpoint walk (keys : list string) (value : Value) : option Value :=
  match keys with
  | [] => Some value
  | k :: r =>
      match value with
      | VDict d =>
          match dict_get k d with
          | Some v => walk r v
          | None => None
          end
      | _ => None
      end
  end.

Definition get (key : string) (default : Value) (settings : Value) : Value :=
  match walk (split_dot key) settings with
  | Some v => v
  | None => default
  end.

(** The loop of [set] over [keys[:-1]] followed by the assignment to
    [keys[-1]], on the object [config] is bound to.  [None] stands for the
    [TypeError] that [k not in config], [config[k]] or the item assignment
    raises when [config] is not a dictionary.  A dictionary the loop has
    created is empty, and everything below it is created as well, so the
    error can only arise before the first assignment: when it does, the
    settings are as they were. *)
Fixpoint set_in (keys : list string) (last : string) (value config : Value)
    : option Value :=
  match config with
  | VDict d =>
      match keys with
      | [] => Some (VDict (dict_set last value d))
      | k :: r =>
          let child := match dict_get k d with
                       | Some c => c
                       | None => VDict []
                       end in
          match set_in r last value child with
          | Some c => Some (VDict (dict_set k c d))
          | None => None
          end
      end
  | _ => None
  end.

(** [set], up to the write of the settings file that follows it. *)
Definition set (key : string) (value : Value) (settings : Value)
    : option Value :=
  let keys := split_dot key in
  set_in (removelast keys) (List.last keys EmptyString) value settings.

End config_manager.

(** Two dotted paths part ways at some segment, neither being a prefix of
    the other. *)
Fixpoint diverge (p q : list string) : bool :=
  match p, q with
  | a :: x, b :: y => if String.eqb a b then diverge x y else true
  | _, _ => false
  end.

(** Some proper prefix of the key leads to a setting that is not a
    dictionary. *)
Definition below_leaf (key : string) (settings : config_manager.Value) : Prop :=
  exists n x,
    (n < List.length (config_manager.split_dot key))%nat
    /\ config_manager.walk (firstn n (config_manager.split_dot key)) settings
       = Some x
    /\ config_manager.is_dict x = false.

(** * Properties *)

(** ** Arithmetic on the comparisons used by the code *)

Lemma Qle_bool_true (x y : Q) : Qle_bool x y = true -> x <= y.
Proof. apply Qle_bool_iff. Qed.

Lemma Qle_bool_false (x y : Q) : Qle_bool x y = false -> y < x.
Proof.
  intros H. apply Qnot_le_lt. intros L.
  apply Qle_bool_iff in L. congruence.
Qed.

Lemma Qgt_bool_true (x y : Q) : Qgt_bool x y = true -> y < x.
Proof.
  unfold Qgt_bool. intros H. apply negb_true_iff in H.
  now apply Qle_bool_false.
Qed.

Lemma Qgt_bool_false (x y : Q) : Qgt_bool x y = false -> x <= y.
Proof.
  unfold Qgt_bool. intros H. apply negb_false_iff in H.
  now apply Qle_bool_true.
Qed.

Lemma Qgt_bool_intro (x y : Q) : y < x -> Qgt_bool x y = true.
Proof.
  intros H. destruct (Qgt_bool x y) eqn:E; [reflexivity|].
  apply Qgt_bool_false in E. lra.
Qed.

Lemma Qgt_bool_elim (x y : Q) : x <= y -> Qgt_bool x y = false.
Proof.
  intros H. destruct (Qgt_bool x y) eqn:E; [|reflexivity].
  apply Qgt_bool_true in E. lra.
Qed.

(** Expose the attributes of the three objects of a world. *)
Ltac open_world w :=
  let wa := fresh "wa" in
  let sa := fresh "sa" in
  let o := fresh "o" in
  destruct w as [wa sa o ? ? ?]; destruct wa; destruct sa; destruct o.

(** Case analysis on every comparison of the goal, turning each outcome
    into an inequality of the context. *)
Ltac cmp_cases :=
  repeat match goal with
  | |- context [Qgt_bool ?a ?b] =>
      let E := fresh "E" in
      destruct (Qgt_bool a b) eqn:E;
      [apply Qgt_bool_true in E | apply Qgt_bool_false in E]
  | |- context [Qle_bool ?a ?b] =>
      let E := fresh "E" in
      destruct (Qle_bool a b) eqn:E;
      [apply Qle_bool_true in E | apply Qle_bool_false in E]
  end.

Lemma Qabs_gt_cases (x e : Q) : e < Qabs x -> e < x \/ x < - e.
Proof.
  intros H. destruct (Qlt_le_dec x 0) as [N|P].
  - right. rewrite (Qabs_neg x) in H by lra. lra.
  - left. rewrite (Qabs_pos x) in H by lra. lra.
Qed.

Lemma Qabs_le_bounds (x e : Q) : Qabs x <= e -> - e <= x /\ x <= e.
Proof. intros H. now apply Qabs_Qle_condition. Qed.

Lemma py_clamp_bounds (lo hi x : Q) :
  lo <= hi -> lo <= py_max lo (py_min hi x) /\ py_max lo (py_min hi x) <= hi.
Proof.
  intros H. unfold py_min. cmp_cases; unfold py_max; cmp_cases; split; lra.
Qed.

Lemma py_clamp_inside (lo hi x : Q) :
  lo <= x -> x <= hi -> py_max lo (py_min hi x) == x.
Proof.
  intros L U. unfold py_min. cmp_cases; unfold py_max; cmp_cases; lra.
Qed.

(** ** The temperature target *)

Section Target.
Import WaterController.

Lemma clamp_temperature_bounds (c : WaterController.t) (x : Q) :
  min_temperature c <= max_temperature c ->
  min_temperature c <= water_control.clamp_temperature c x
  /\ water_control.clamp_temperature c x <= max_temperature c.
Proof. apply py_clamp_bounds. Qed.

(** C9, as stated, fails: with the target at 38.0 a request for 38.3 lies
    inside the bounds, so it clamps to itself, yet the recorded target is
    still 38.0 after the call. *)
Lemma set_temperature_ignores_small_change :
  let w := main.initialize default_config 1000 in
  let t := 383 # 10 in
  water_control.clamp_temperature (water w) t == t
  /\ target_temperature (water (water_control.set_temperature t w)) == 38
  /\ ~ target_temperature (water (water_control.set_temperature t w))
       == water_control.clamp_temperature (water w) t.
Proof.
  cbv zeta. split; [|split].
  - vm_compute. reflexivity.
  - vm_compute. reflexivity.
  - vm_compute. discriminate.
Qed.

(** C9, amended: [set_temperature] clamps the request into
    [[min_temperature, max_temperature]]; the clamped value becomes the
    target only when it differs from the current target by more than 0.5,
    otherwise the target is left as it was.  When the bounds are ordered and
    the previous target lay within them, so does the target after the call,
    whatever the request. *)
Theorem set_temperature_target (t : Q) (w : World) :
  min_temperature (water w) <= max_temperature (water w) ->
  min_temperature (water w) <= target_temperature (water w) ->
  target_temperature (water w) <= max_temperature (water w) ->
  let c := water_control.clamp_temperature (water w) t in
  let w' := water_control.set_temperature t w in
  (min_temperature (water w) <= c /\ c <= max_temperature (water w))
  /\ target_temperature (water w')
     = (if Qgt_bool (Qabs (c - target_temperature (water w))) (1#2)
        then c else target_temperature (water w))
  /\ min_temperature (water w') = min_temperature (water w)
  /\ max_temperature (water w') = max_temperature (water w)
  /\ min_temperature (water w') <= target_temperature (water w')
  /\ target_temperature (water w') <= max_temperature (water w').
Proof.
  intros Hb Hlo Hhi c w'.
  pose proof (clamp_temperature_bounds (water w) t Hb) as [Hc1 Hc2].
  fold c in Hc1, Hc2.
  subst w'. unfold water_control.set_temperature. fold c.
  destruct (Qgt_bool (Qabs (c - target_temperature (water w))) (1#2));
    [|repeat split; assumption].
  subst c. open_world w. cbn in *. repeat split; assumption.
Qed.

Lemma set_temperature_target_witness :
  let w := main.initialize default_config 1000 in
  target_temperature (water (water_control.set_temperature (-500) w)) = 20
  /\ target_temperature (water (water_control.set_temperature 1000 w)) = 45.
Proof.
  cbv zeta. split.
  - refine (proj1 (proj2
      (set_temperature_target (-500) (main.initialize default_config 1000)
         _ _ _))); vm_compute; discriminate.
  - refine (proj1 (proj2
      (set_temperature_target 1000 (main.initialize default_config 1000)
         _ _ _))); vm_compute; discriminate.
Defined.

End Target.

(** ** Stopping the flow *)

Section Stop.
Import WaterController.

Lemma stop_flow_is_emergency_stop (w : World) :
  water_control.stop_flow main.invoke_water w
  = water_control.emergency_stop main.invoke_water w.
Proof. reflexivity. Qed.

Lemma fire_invoke_water slot e (w : World) :
  fire main.invoke_water slot e w
  = match slot w with Some _ => emit (e w) w | None => w end.
Proof. unfold fire. destruct (slot w) as [[]|]; reflexivity. Qed.

Lemma do_stop_unfold (c : StopCall) (w : World) :
  do_stop c w
  = match on_flow_stop (water w) with
    | Some _ => emit Ev_on_flow_stop (upd_water shut_water w)
    | None => upd_water shut_water w
    end.
Proof.
  transitivity (fire main.invoke_water (fun w => on_flow_stop (water w))
                  (fun _ => Ev_on_flow_stop) (upd_water shut_water w)).
  - destruct w; destruct c; reflexivity.
  - rewrite fire_invoke_water. destruct w as [wa ? ? ? ? ?]; destruct wa.
    reflexivity.
Qed.

Lemma do_stop_water (c : StopCall) (w : World) :
  water (do_stop c w) = shut_water (water w).
Proof.
  rewrite do_stop_unfold.
  destruct (on_flow_stop (water w)); destruct w; reflexivity.
Qed.

Lemma shut_water_shut (c : WaterController.t) : shut (shut_water c).
Proof. destruct c. repeat split. Qed.

Lemma do_stop_shut (c : StopCall) (w : World) : shut (water (do_stop c w)).
Proof. rewrite do_stop_water. apply shut_water_shut. Qed.

Lemma do_stop_trace (c : StopCall) (w : World) :
  trace (do_stop c w)
  = match on_flow_stop (water w) with
    | Some _ => Ev_on_flow_stop :: trace w
    | None => trace w
    end.
Proof.
  rewrite do_stop_unfold.
  destruct (on_flow_stop (water w)); destruct w; reflexivity.
Qed.

Lemma do_stop_slot (c : StopCall) (w : World) :
  on_flow_stop (water (do_stop c w)) = on_flow_stop (water w).
Proof. rewrite do_stop_water. destruct (water w). reflexivity. Qed.

(** A second stop changes nothing in the controller. *)
Lemma do_stop_twice (c d : StopCall) (w : World) :
  water (do_stop d (do_stop c w)) = water (do_stop c w).
Proof. rewrite !do_stop_water. destruct (water w). reflexivity. Qed.

Lemma stops_after_first (l : list StopCall) (c : StopCall) (w : World) (h : WaterHandler) :
  on_flow_stop (water w) = Some h ->
  water (stops l (do_stop c w)) = water (do_stop c w)
  /\ count is_flow_stop (trace (stops l (do_stop c w)))
     = (count is_flow_stop (trace w) + 1 + List.length l)%nat.
Proof.
  revert c w. induction l as [|d l IH]; intros c w Hs.
  - cbn [stops fold_left List.length]. split; [reflexivity|].
    rewrite do_stop_trace, Hs. unfold count. cbn. lia.
  - change (stops (d :: l) (do_stop c w))
      with (stops l (do_stop d (do_stop c w))).
    assert (Hs' : on_flow_stop (water (do_stop c w)) = Some h)
      by (now rewrite do_stop_slot).
    destruct (IH d (do_stop c w) Hs') as [Hw Hc]. split.
    + rewrite Hw. apply do_stop_twice.
    + rewrite Hc. rewrite do_stop_trace, Hs. unfold count. cbn. lia.
Qed.

(** C3, as stated, fails: after a flow was started, two consecutive calls of
    [stop_flow] fire [on_flow_stop] twice, and so do two consecutive calls
    of [emergency_stop]. *)
Lemma stop_twice_fires_twice :
  let w := run [CmdStartShower 38 None] (main.initialize default_config 1000) in
  valve_state (water w) = ValveState.OPEN
  /\ count is_flow_stop (trace w) = 0%nat
  /\ count is_flow_stop
       (trace (stops [call_stop_flow; call_stop_flow] w)) = 2%nat
  /\ count is_flow_stop
       (trace (stops [call_emergency_stop; call_emergency_stop] w)) = 2%nat.
Proof. cbv zeta. repeat split. Qed.

(** C3, amended: neither [stop_flow] nor [emergency_stop] looks at the valve
    state, so with the [on_flow_stop] slot filled every call fires the event:
    any run of N >= 1 consecutive calls, in any mix of the two, fires it N
    times.  The controller itself is idempotent under them: after the first
    call the valve is CLOSED, the flow STOPPED, both supply valves shut,
    mixer and flow rate 0, and the later calls leave the controller exactly
    as the first one left it. *)
Theorem stop_calls_fire_each_time (c : StopCall) (l : list StopCall)
    (w : World) (h : WaterHandler) :
  on_flow_stop (water w) = Some h ->
  let w' := stops (c :: l) w in
  count is_flow_stop (trace w')
  = (count is_flow_stop (trace w) + List.length (c :: l))%nat
  /\ shut (water (do_stop c w))
  /\ shut (water w')
  /\ water w' = water (do_stop c w).
Proof.
  intros Hs w'. subst w'.
  change (stops (c :: l) w) with (stops l (do_stop c w)).
  destruct (stops_after_first l c w h Hs) as [Hw Hc].
  split; [|split; [|split]].
  - rewrite Hc. cbn [List.length]. lia.
  - apply do_stop_shut.
  - rewrite Hw. apply do_stop_shut.
  - exact Hw.
Qed.

Lemma stop_calls_fire_each_time_witness :
  let w := run [CmdStartShower 38 None] (main.initialize default_config 1000) in
  count is_flow_stop
    (trace (stops [call_emergency_stop; call_stop_flow; call_emergency_stop] w))
  = 3%nat.
Proof.
  cbv zeta.
  refine (proj1 (stop_calls_fire_each_time call_emergency_stop
            [call_stop_flow; call_emergency_stop]
            (run [CmdStartShower 38 None] (main.initialize default_config 1000))
            _on_water_flow_stop _)).
  reflexivity.
Defined.

End Stop.

(** ** Over-temperature *)

Section OverTemperature.
Import WaterController.

Lemma when_skip (c : World -> bool) (w : World) : when c skip w = w.
Proof. unfold when, skip. now destruct (c w). Qed.

Lemma do_stop_pressure (c : StopCall) (w : World) :
  pressure (water (do_stop c w)) = pressure (water w).
Proof. rewrite do_stop_water. destruct (water w). reflexivity. Qed.

Lemma check_safety_over_temperature (w : World) :
  max_temperature (water w) < current_temperature (water w) ->
  water_control._check_safety main.invoke_water w
  = if Qgt_bool (pressure (water w)) 5
    then do_stop call_emergency_stop (do_stop call_emergency_stop w)
    else do_stop call_emergency_stop w.
Proof.
  intros H. unfold water_control._check_safety, seq.
  rewrite when_skip. unfold when at 2.
  rewrite (Qgt_bool_intro _ _ H).
  change (water_control.stop_flow main.invoke_water w)
    with (do_stop call_emergency_stop w).
  unfold when. rewrite do_stop_pressure.
  destruct (Qgt_bool (pressure (water w)) 5); reflexivity.
Qed.

(** C2: in an iteration of the control loop, when the temperature held after
    the sensor read exceeds [max_temperature], the safety check that follows
    in the same iteration shuts the flow down, without any retry or delay:
    what it does to the controller and to the observers is exactly what
    [emergency_stop] does (the check reaches it through [stop_flow], which
    performs the same assignments and fires the same event), once more if
    the pressure limit is exceeded too.  Afterwards the valve is CLOSED, the
    flow STOPPED, both supply valves shut, mixer and flow rate 0, and
    [on_flow_stop] has been fired. *)
Theorem over_temperature_triggers_emergency_stop (w : World) :
  let w2 := before_check_safety w in
  max_temperature (water w2) < current_temperature (water w2) ->
  let w' := water_control._control_loop main.invoke_water w in
  w' = (if Qgt_bool (pressure (water w2)) 5
        then water_control.emergency_stop main.invoke_water
               (water_control.emergency_stop main.invoke_water w2)
        else water_control.emergency_stop main.invoke_water w2)
  /\ shut (water w')
  /\ (forall h, on_flow_stop (water w2) = Some h ->
      (count is_flow_stop (trace w2) < count is_flow_stop (trace w'))%nat).
Proof.
  intros w2 H w'.
  assert (E : w' = water_control._check_safety main.invoke_water w2)
    by reflexivity.
  rewrite (check_safety_over_temperature w2 H) in E.
  split; [exact E|]. split.
  - rewrite E. destruct (Qgt_bool (pressure (water w2)) 5); apply do_stop_shut.
  - intros h Hs. rewrite E.
    destruct (Qgt_bool (pressure (water w2)) 5).
    + rewrite do_stop_trace, do_stop_slot, Hs, do_stop_trace, Hs.
      unfold count. cbn. lia.
    + rewrite do_stop_trace, Hs. unfold count. cbn. lia.
Qed.

(** A controller whose configured default target (50) lies above the
    maximum (45): the simulated temperature climbs past 45 and the loop
    iteration that reads 45.2 stops the flow. *)
Lemma over_temperature_triggers_emergency_stop_witness :
  let w := run (CmdStartShower 38 None :: nil)
               (main.initialize (mkConfig 50 45 20 600 1800) 1000) in
  let hot := upd_water (set_target_temperature 50)
               (upd_water (set_current_temperature 45) w) in
  shut (water (water_control._control_loop main.invoke_water hot)).
Proof.
  cbv zeta.
  refine (proj1 (proj2 (over_temperature_triggers_emergency_stop _ _))).
  vm_compute. reflexivity.
Defined.

End OverTemperature.

(** ** Convergence of the simulated temperature *)

Section Convergence.
Import WaterController.

Lemma read_sensors_water (w : World) :
  water (water_control._read_sensors main.invoke_water w)
  = if negb (FlowState.eqb (flow_state (water w)) FlowState.STOPPED)
       && Qgt_bool (Qabs (temp_error w)) (1#10)
    then set_current_temperature
           (current_temperature (water w) + temp_error w * (1#10)) (water w)
    else water w.
Proof.
  unfold water_control._read_sensors, when, temp_error.
  destruct (FlowState.eqb (flow_state (water w)) FlowState.STOPPED);
    cbn [negb andb]; [reflexivity|].
  destruct (Qgt_bool _ _); [|reflexivity].
  unfold seq. rewrite fire_invoke_water.
  destruct w as [wa ? ? ? ? ?]; destruct wa; cbn.
  match goal with
  | |- context [match ?o with Some _ => _ | None => _ end] => destruct o
  end; reflexivity.
Qed.

Lemma not_stopped (c : WaterController.t) :
  flow_state c <> FlowState.STOPPED ->
  FlowState.eqb (flow_state c) FlowState.STOPPED = false.
Proof. destruct (flow_state c); intros H; [congruence | reflexivity ..]. Qed.

(** Outside the dead band a read multiplies the error by 0.9. *)
Lemma read_outside_band (w : World) :
  flow_state (water w) <> FlowState.STOPPED ->
  1#10 < Qabs (temp_error w) ->
  let w' := water_control._read_sensors main.invoke_water w in
  flow_state (water w') = flow_state (water w)
  /\ target_temperature (water w') = target_temperature (water w)
  /\ current_temperature (water w')
     = current_temperature (water w) + temp_error w * (1#10)
  /\ temp_error w' == (9#10) * temp_error w.
Proof.
  intros Hf Hb w'. subst w'. unfold temp_error at 2.
  rewrite read_sensors_water, (not_stopped _ Hf), (Qgt_bool_intro _ _ Hb).
  cbn [negb andb]. unfold temp_error. destruct (water w).
  cbn [set_current_temperature current_temperature target_temperature
       flow_state].
  split; [reflexivity|]. split; [reflexivity|]. split; [reflexivity|].
  ring.
Qed.

(** Inside the dead band, and whenever the flow is stopped, a read leaves
    the controller untouched. *)
Lemma read_inside_band (w : World) :
  Qabs (temp_error w) <= 1#10 ->
  water (water_control._read_sensors main.invoke_water w) = water w.
Proof.
  intros Hb. rewrite read_sensors_water, (Qgt_bool_elim _ _ Hb).
  now rewrite andb_false_r.
Qed.

Lemma read_stopped (w : World) :
  flow_state (water w) = FlowState.STOPPED ->
  water (water_control._read_sensors main.invoke_water w) = water w.
Proof. intros Hs. rewrite read_sensors_water, Hs. reflexivity. Qed.

Lemma temp_error_water (w v : World) :
  water w = water v -> temp_error w = temp_error v.
Proof. unfold temp_error. now intros ->. Qed.

Lemma reads_inside_band (n : nat) (w : World) :
  Qabs (temp_error w) <= 1#10 -> water (reads n w) = water w.
Proof.
  revert w. induction n as [|n IH]; intros w Hb; [reflexivity|].
  cbn [reads]. pose proof (read_inside_band w Hb) as E.
  rewrite IH; [exact E|]. now rewrite (temp_error_water _ _ E).
Qed.

Lemma shrink_abs (x y : Q) :
  1#10 < Qabs x -> y == (9#10) * x -> Qabs y <= Qabs x - (1#100).
Proof.
  intros Hx Hy. destruct (Qabs_gt_cases _ _ Hx) as [P|N].
  - rewrite (Qabs_pos x), (Qabs_pos y) by lra. lra.
  - rewrite (Qabs_neg x), (Qabs_neg y) by lra. lra.
Qed.

Lemma reads_shrink (n : nat) (w : World) :
  flow_state (water w) <> FlowState.STOPPED ->
  Qabs (temp_error (reads n w)) <= 1#10
  \/ Qabs (temp_error (reads n w))
     <= Qabs (temp_error w) - inject_Z (Z.of_nat n) * (1#100).
Proof.
  revert w. induction n as [|n IH]; intros w Hf.
  - right. cbn [reads]. change (inject_Z (Z.of_nat 0)) with 0. lra.
  - cbn [reads].
    destruct (Qlt_le_dec (1#10) (Qabs (temp_error w))) as [Hb|Hb].
    + destruct (read_outside_band w Hf Hb) as (Ff & _ & _ & Fe).
      assert (Hf' : flow_state
                (water (water_control._read_sensors main.invoke_water w))
              <> FlowState.STOPPED) by (now rewrite Ff).
      destruct (IH _ Hf') as [I|I]; [now left|right].
      pose proof (shrink_abs _ _ Hb Fe) as S.
      rewrite Nat2Z.inj_succ. unfold Z.succ. rewrite inject_Z_plus.
      change (inject_Z 1) with 1. lra.
    + left. pose proof (read_inside_band w Hb) as E.
      rewrite (temp_error_water _ _ (reads_inside_band n _
                 ltac:(now rewrite (temp_error_water _ _ E)))).
      now rewrite (temp_error_water _ _ E).
Qed.

Lemma reads_reach_band (w : World) :
  flow_state (water w) <> FlowState.STOPPED ->
  exists n, Qabs (temp_error (reads n w)) <= 1#10.
Proof.
  intros Hf.
  destruct (Qarchimedean (Qabs (temp_error w) * 100)) as [p Hp].
  exists (Pos.to_nat p).
  destruct (reads_shrink (Pos.to_nat p) w Hf) as [I|I]; [exact I|].
  rewrite positive_nat_Z in I. change (inject_Z (Z.pos p)) with (Z.pos p # 1) in I.
  pose proof (Qabs_nonneg (temp_error (reads (Pos.to_nat p) w))). lra.
Qed.

End Convergence.

(** ** Properties of the water controller kept by every transition *)

Section Keeps.
Variable P : WaterController.t -> Prop.

Lemma keeps_skip : keeps P skip.
Proof. intros w H. exact H. Qed.

Lemma keeps_seq (a b : M) : keeps P a -> keeps P b -> keeps P (a ;; b).
Proof. intros Ha Hb w H. apply Hb, Ha, H. Qed.

Lemma keeps_when (c : World -> bool) (a : M) : keeps P a -> keeps P (when c a).
Proof. intros Ha w H. unfold when. destruct (c w); [now apply Ha | exact H]. Qed.

Lemma keeps_same (m : M) : water_same m -> keeps P m.
Proof. intros Hm w H. now rewrite Hm. Qed.

Lemma keeps_fire {H : Type} (invoke : H -> M) slot e :
  (forall h, keeps P (invoke h)) -> keeps P (fire invoke slot e).
Proof.
  intros Hi w Hw. unfold fire. destruct (slot w); [|exact Hw].
  apply Hi. destruct w. exact Hw.
Qed.

Lemma keeps_upd_water (f : WaterController.t -> WaterController.t) :
  (forall c, P c -> P (f c)) -> keeps P (upd_water f).
Proof. intros Hf w H. destruct w. apply Hf, H. Qed.

End Keeps.

Lemma same_skip : water_same skip.
Proof. intros w. reflexivity. Qed.

Lemma same_seq (a b : M) : water_same a -> water_same b -> water_same (a ;; b).
Proof. intros Ha Hb w. unfold seq. now rewrite Hb, Ha. Qed.

Lemma same_when (c : World -> bool) (a : M) : water_same a -> water_same (when c a).
Proof. intros Ha w. unfold when. destruct (c w); [apply Ha | reflexivity]. Qed.

Lemma same_emit (e : Event) : water_same (emit e).
Proof. intros []. reflexivity. Qed.

Lemma same_upd_safety f : water_same (upd_safety f).
Proof. intros []. reflexivity. Qed.

Lemma same_upd_os f : water_same (upd_os f).
Proof. intros []. reflexivity. Qed.

Lemma same_upd_tasks f : water_same (upd_tasks f).
Proof. intros []. reflexivity. Qed.

Lemma same_advance_clock dt : water_same (advance_clock dt).
Proof. intros []. reflexivity. Qed.

Lemma same_cancel_door_timer : water_same safety_monitor.cancel_door_timer.
Proof.
  intros w. unfold safety_monitor.cancel_door_timer.
  destruct (SafetyMonitor.door_timer (safety w)); [|reflexivity].
  apply same_upd_tasks.
Qed.

Lemma same_create_door_timeout_task :
  water_same safety_monitor.create_door_timeout_task.
Proof.
  intros w. unfold safety_monitor.create_door_timeout_task.
  apply (same_seq _ _ (same_upd_tasks _) (same_upd_safety _)).
Qed.

Lemma same_start_door_timer : water_same safety_monitor.start_door_timer.
Proof.
  apply same_seq;
    [apply same_cancel_door_timer | apply same_create_door_timeout_task].
Qed.

Lemma same_reset_door_timer : water_same safety_monitor.reset_door_timer.
Proof.
  apply same_seq; [apply same_cancel_door_timer | apply same_start_door_timer].
Qed.

Lemma same_start_shower_session : water_same safety_monitor.start_shower_session.
Proof.
  unfold safety_monitor.start_shower_session.
  apply same_seq; [intros w; apply same_upd_safety|].
  apply same_seq; [apply same_upd_safety | apply same_start_door_timer].
Qed.

Lemma same_stop_shower_session : water_same safety_monitor.stop_shower_session.
Proof.
  unfold safety_monitor.stop_shower_session.
  apply same_seq.
  - intros w. destruct (SafetyMonitor.door_timer (safety w)); [|reflexivity].
    apply (same_seq _ _ same_cancel_door_timer (same_upd_safety _)).
  - apply same_seq; apply same_upd_safety.
Qed.

Lemma same_update_safety_state : water_same safety_monitor._update_safety_state.
Proof.
  intros w. unfold safety_monitor._update_safety_state.
  repeat match goal with
         | |- context [if ?b then _ else _] => destruct b
         end; apply same_upd_safety.
Qed.

Create HintDb flow.

#[local] Hint Resolve keeps_skip keeps_seq keeps_when keeps_fire keeps_same
  same_skip same_seq same_when same_emit same_upd_safety same_upd_os
  same_upd_tasks same_advance_clock same_cancel_door_timer
  same_create_door_timeout_task same_start_door_timer same_reset_door_timer
  same_start_shower_session same_stop_shower_session
  same_update_safety_state : flow.

(** ** FLOWING is never entered *)

Section NeverFlowing.
Import WaterController.

(** An assignment to any attribute but [flow_state], or of a value other
    than FLOWING to [flow_state]. *)
Ltac harmless_assignment :=
  apply keeps_upd_water; intros c Hc; destruct c;
  first [exact Hc | unfold never_flowing; cbn; discriminate].

Ltac nf := repeat first
  [ apply keeps_seq | apply keeps_when | apply keeps_skip
  | apply keeps_fire; intros [] | harmless_assignment ].

Lemma nf_invoke_water (h : WaterHandler) : keeps never_flowing (main.invoke_water h).
Proof. destruct h; apply keeps_skip. Qed.

Lemma nf_start_flow (t : option Q) :
  keeps never_flowing (water_control.start_flow main.invoke_water t).
Proof.
  unfold water_control.start_flow, water_control._open_valves.
  apply keeps_seq; [|nf].
  intros w H. destruct t; [|exact H].
  revert H. apply (keeps_upd_water never_flowing).
  intros c Hc. destruct c. exact Hc.
Qed.

Lemma nf_stop_flow : keeps never_flowing (water_control.stop_flow main.invoke_water).
Proof. unfold water_control.stop_flow, water_control._close_valves. nf. Qed.

Lemma nf_emergency_stop :
  keeps never_flowing (water_control.emergency_stop main.invoke_water).
Proof. unfold water_control.emergency_stop. nf. Qed.

Lemma nf_set_temperature (t : Q) :
  keeps never_flowing (water_control.set_temperature t).
Proof.
  intros w H. unfold water_control.set_temperature.
  destruct (Qgt_bool _ _); [|exact H].
  revert H. apply (keeps_seq never_flowing); [|apply keeps_skip].
  harmless_assignment.
Qed.

Lemma nf_set_flow_rate (r : Q) : keeps never_flowing (water_control.set_flow_rate r).
Proof. unfold water_control.set_flow_rate, water_control._adjust_flow_valves. nf. Qed.

Lemma nf_read_sensors :
  keeps never_flowing (water_control._read_sensors main.invoke_water).
Proof.
  intros w H. rewrite read_sensors_water.
  destruct (_ && _); [|exact H].
  destruct (water w). exact H.
Qed.

Lemma nf_adjust_temperature : keeps never_flowing water_control._adjust_temperature.
Proof.
  intros w H. unfold water_control._adjust_temperature.
  destruct (Qgt_bool (Qabs _) _); [|exact H].
  revert H. apply (keeps_seq never_flowing); [|apply keeps_skip].
  destruct (Qgt_bool _ 0); harmless_assignment.
Qed.

Lemma nf_check_safety :
  keeps never_flowing (water_control._check_safety main.invoke_water).
Proof.
  unfold water_control._check_safety.
  repeat first [apply nf_stop_flow | apply keeps_skip | apply keeps_when
               | apply keeps_seq].
Qed.

Lemma nf_water_tick : keeps never_flowing main.water_tick.
Proof.
  unfold main.water_tick, water_control._control_loop.
  repeat first [apply nf_read_sensors | apply nf_adjust_temperature
               | apply nf_check_safety | apply keeps_when | apply keeps_seq].
Qed.

Lemma nf_stop_shower_body : keeps never_flowing main.stop_shower_body.
Proof.
  unfold main.stop_shower_body, main.audio_stop_playback.
  apply keeps_seq; [apply nf_stop_flow|].
  apply keeps_same. auto 10 with flow.
Qed.

Lemma nf_start_shower_body (t : Q) (a : option string) :
  keeps never_flowing (main.start_shower_body t a).
Proof.
  unfold main.start_shower_body.
  apply keeps_seq; [apply nf_start_flow|].
  apply keeps_same. apply same_seq; [|auto 10 with flow].
  unfold main.audio_start_playback.
  destruct a as [s|]; [destruct (main.truthy_str _)|]; auto with flow.
Qed.

Lemma nf_invoke_safety (h : SafetyHandler) :
  keeps never_flowing (main.invoke_safety h).
Proof.
  destruct h; cbn [main.invoke_safety]; unfold main.send_emergency_notification.
  - apply keeps_same. auto with flow.
  - apply keeps_same. auto with flow.
  - apply keeps_seq; [apply nf_stop_shower_body | apply keeps_same; auto with flow].
  - apply keeps_seq; [apply keeps_same; auto with flow|].
    apply keeps_seq; [apply nf_stop_shower_body | apply keeps_same; auto with flow].
Qed.

Lemma nf_safety_emergency_stop (r : string) :
  keeps never_flowing (main.safety_emergency_stop r).
Proof.
  unfold main.safety_emergency_stop, safety_monitor.emergency_stop.
  repeat first [apply keeps_seq | apply keeps_fire; apply nf_invoke_safety
               | apply keeps_same; apply same_upd_safety].
Qed.

Lemma nf_door_timer_fires (i : nat) : keeps never_flowing (main.door_timer_fires i).
Proof.
  unfold main.door_timer_fires, safety_monitor.run_door_timeout,
    safety_monitor._door_timeout_handler.
  apply keeps_when, keeps_seq; [apply keeps_same; auto with flow|].
  apply keeps_when, nf_safety_emergency_stop.
Qed.

Lemma nf_safety_read_sensors :
  keeps never_flowing (safety_monitor._read_sensors main.invoke_safety).
Proof.
  unfold safety_monitor._read_sensors.
  apply keeps_seq; [|apply keeps_seq].
  - intros w H. cbv zeta.
    apply (keeps_seq never_flowing); [| |exact H].
    + apply keeps_same. intros v. apply same_upd_safety.
    + intros v Hv. unfold safety_monitor.trigger_door_events.
      destruct (negb _); [|exact Hv].
      destruct (SensorState.eqb _ _).
      * revert Hv. apply keeps_seq; [apply keeps_same; auto with flow|].
        apply keeps_fire, nf_invoke_safety.
      * revert Hv. apply (keeps_fire never_flowing main.invoke_safety).
        apply nf_invoke_safety.
  - apply keeps_when, keeps_seq; [apply keeps_same; auto with flow|].
    apply keeps_fire, nf_invoke_safety.
  - apply keeps_when, nf_safety_emergency_stop.
Qed.

Lemma nf_check_safety_conditions :
  keeps never_flowing (safety_monitor._check_safety_conditions main.invoke_safety).
Proof.
  unfold safety_monitor._check_safety_conditions.
  apply keeps_seq; [apply keeps_when, nf_safety_emergency_stop|].
  apply keeps_seq.
  - apply keeps_when, keeps_seq; [apply keeps_same; auto with flow|].
    apply keeps_fire, nf_invoke_safety.
  - intros w H. unfold safety_monitor.check_door_state.
    destruct (_ && _); [exact H|].
    destruct (_ && _); [|exact H].
    now rewrite same_reset_door_timer.
Qed.

Lemma nf_safety_tick : keeps never_flowing main.safety_tick.
Proof.
  unfold main.safety_tick, safety_monitor._control_loop.
  apply keeps_seq; [apply nf_safety_read_sensors|].
  apply keeps_seq; [apply nf_check_safety_conditions|].
  apply keeps_same, same_update_safety_state.
Qed.

Lemma nf_step (s : Step) : keeps never_flowing (step s).
Proof.
  destruct s; cbn [step].
  - apply nf_water_tick.
  - apply nf_safety_tick.
  - apply nf_door_timer_fires.
  - apply nf_start_shower_body.
  - apply nf_stop_shower_body.
  - apply nf_set_temperature.
  - apply nf_set_flow_rate.
  - apply nf_safety_emergency_stop.
  - apply keeps_same, same_upd_os.
  - apply keeps_same, same_upd_safety.
  - apply keeps_same, same_upd_safety.
  - apply keeps_same, same_upd_safety.
  - apply keeps_same, same_upd_safety.
  - apply keeps_same, same_upd_safety.
  - apply keeps_same, same_upd_safety.
  - apply keeps_same, same_advance_clock.
  - apply keeps_seq; [apply nf_start_flow | apply keeps_same, same_emit].
  - apply keeps_same, same_seq;
      [apply same_start_shower_session | apply same_upd_os].
  - apply keeps_seq; [apply nf_stop_flow | apply keeps_same, same_emit].
  - apply keeps_same, same_seq;
      [apply same_stop_shower_session | apply same_upd_os].
Qed.

Lemma reachable_never_flowing (cfg : Config) (now : Q) (w : World) :
  reachable cfg now w -> never_flowing (water w).
Proof.
  induction 1 as [|w s _ IH].
  - unfold never_flowing. cbn. discriminate.
  - now apply nf_step.
Qed.

Lemma never_flowing_eqb (c : WaterController.t) :
  never_flowing c -> FlowState.eqb (flow_state c) FlowState.FLOWING = false.
Proof.
  unfold never_flowing. destruct (flow_state c); intros H;
    [reflexivity | congruence | reflexivity].
Qed.

(** C10: in every state the system can reach from initialisation through
    control-loop ticks, timer wake-ups, commands and sensor changes, the
    flow state is not FLOWING.  Hence, in any tick of the water control loop
    taken from such a state, the guard of the mixer-valve adjustment is
    false, the iteration is just the sensor read followed by the safety
    check, the mixer adjustment is not run, and the low-flow check does not
    fire, neither on entry to the safety check nor after its stops. *)
Theorem flowing_is_unreachable (cfg : Config) (now : Q) (w : World) :
  reachable cfg now w ->
  flow_state (water w) <> FlowState.FLOWING
  /\ before_check_safety w = water_control._read_sensors main.invoke_water w
  /\ main.water_tick w
     = water_control._check_safety main.invoke_water
         (water_control._read_sensors main.invoke_water w)
  /\ water_control.low_flow_check_fires (before_check_safety w) = false
  /\ water_control.low_flow_check_fires (main.water_tick w) = false.
Proof.
  intros R. pose proof (reachable_never_flowing _ _ _ R) as H.
  pose proof (nf_read_sensors w H) as H1.
  assert (E : before_check_safety w
              = water_control._read_sensors main.invoke_water w).
  { unfold before_check_safety, seq, when.
    now rewrite (never_flowing_eqb _ H1). }
  split; [exact H|]. split; [exact E|]. split; [|split].
  - change (main.water_tick w)
      with (water_control._check_safety main.invoke_water (before_check_safety w)).
    now rewrite E.
  - unfold water_control.low_flow_check_fires.
    rewrite E, (never_flowing_eqb _ H1). reflexivity.
  - unfold water_control.low_flow_check_fires.
    now rewrite (never_flowing_eqb _ (nf_water_tick w H)).
Qed.

Lemma flowing_is_unreachable_witness :
  flow_state (water (run [CmdStartShower 38 None; WaterTick; SafetyTick]
                        (main.initialize default_config 1000)))
  <> FlowState.FLOWING.
Proof.
  refine (proj1 (flowing_is_unreachable default_config 1000 _ _)).
  cbn [run fold_left]. repeat apply reach_step. apply reach_init.
Defined.

End NeverFlowing.

(** ** The task table *)

Lemma length_update_nth {A : Type} (i : nat) (f : A -> A) (l : list A) :
  List.length (update_nth i f l) = List.length l.
Proof.
  revert i. induction l as [|x l IH]; intros [|i]; cbn; auto.
Qed.

Lemma nth_error_update_nth {A : Type} (i j : nat) (f : A -> A) (l : list A) :
  nth_error (update_nth i f l) j
  = if Nat.eqb i j then option_map f (nth_error l j) else nth_error l j.
Proof.
  revert i j. induction l as [|x l IH]; intros [|i] [|j]; cbn; auto.
  now destruct (Nat.eqb i j).
Qed.

Lemma nth_error_snoc {A : Type} (l : list A) (x : A) :
  nth_error (l ++ [x]) (List.length l) = Some x.
Proof. induction l; cbn; auto. Qed.

(** ** Starting a shower twice *)

Section Coordinator.
Import WaterController SafetyMonitor SmartShowerOS.

#[local] Arguments Qplus : simpl never.
#[local] Arguments Qminus : simpl never.
#[local] Arguments Qmult : simpl never.
#[local] Arguments Qle_bool : simpl never.
#[local] Arguments Qeq_bool : simpl never.
#[local] Arguments Qabs : simpl never.
#[local] Arguments py_max : simpl never.
#[local] Arguments py_min : simpl never.

(** C5, as stated, fails: with a session active since t=1000, a second
    [start_shower] at t=1100 returns normally instead of raising, fires
    [on_flow_start] a second time, puts the mixer (which the first stop or
    any adjustment may have moved) back to 0.5, resets the session start to
    1100 and replaces the door timer (deadline 1600) by a new one (1700). *)
Lemma second_start_shower_succeeds :
  let w := run [CmdStartShower 38 None; Elapse 100]
               (main.initialize default_config 1000) in
  let r := main.start_shower 40 None Returned w in
  shower_active (os w) = true
  /\ fst r = Returned
  /\ fst r <> Raised "SessionAlreadyActive"
  /\ count is_flow_start (trace w) = 1%nat
  /\ count is_flow_start (trace (snd r)) = 2%nat
  /\ shower_start_time (safety w) = Some 1000
  /\ shower_start_time (safety (snd r)) = Some (1000 + 100)
  /\ tasks w = [Task.mk (1000 + 600) Task.Pending]
  /\ tasks (snd r) = [Task.mk (1000 + 600) Task.Cancelled;
                      Task.mk (1000 + 100 + 600) Task.Pending]
  /\ snd r <> w.
Proof.
  cbv zeta. repeat split; try discriminate.
Qed.

(** The water controller after [start_flow], whatever follows it. *)
Lemma start_flow_effects (t : Q) (w : World) :
  let w' := water_control.start_flow main.invoke_water (Some t) w in
  target_temperature (water w') = water_control.clamp_temperature (water w) t
  /\ valve_state (water w') = ValveState.OPEN
  /\ flow_state (water w') = FlowState.ADJUSTING
  /\ hot_valve_open (water w') = true
  /\ cold_valve_open (water w') = true
  /\ mixer_valve_position (water w') = 1#2
  /\ flow_rate (water w') = 8
  /\ count is_flow_start (trace w')
     = (count is_flow_start (trace w)
        + match on_flow_start (water w) with Some _ => 1 | None => 0 end)%nat
  /\ safety w' = safety w /\ os w' = os w /\ tasks w' = tasks w
  /\ clock w' = clock w.
Proof.
  open_world w.
  unfold water_control.start_flow, water_control._open_valves, fire, seq, count.
  cbn. destruct on_flow_start0 as [[]|]; cbn; repeat split; try lia.
Qed.

(** What the statements after the audio call leave in the monitor and the
    coordinator, and that they leave the water controller alone. *)
Lemma start_shower_after_playback_effects (w : World) :
  let w' := main.start_shower_after_playback w in
  water w' = water w
  /\ count is_flow_start (trace w') = count is_flow_start (trace w)
  /\ shower_start_time (safety w') = Some (clock w)
  /\ safety_state (safety w') = SafetyState.SAFE
  /\ door_timer (safety w') = Some (List.length (tasks w))
  /\ tasks w'
     = match door_timer (safety w) with
       | Some i => update_nth i Task.cancel (tasks w)
       | None => tasks w
       end ++ [Task.mk (clock w + door_timeout (safety w)) Task.Pending]
  /\ shower_active (os w') = true.
Proof.
  open_world w.
  unfold main.start_shower_after_playback, safety_monitor.start_shower_session,
    safety_monitor.start_door_timer, safety_monitor.cancel_door_timer,
    safety_monitor.create_door_timeout_task, seq, count.
  cbn. destruct door_timer0 as [i|]; cbn; rewrite ?length_update_nth;
    repeat split.
Qed.

Lemma start_shower_body_halves (t : Q) (a : option string) (w : World) :
  exists v,
    main.start_shower_body t a w = main.start_shower_after_playback v
    /\ water v = water (water_control.start_flow main.invoke_water (Some t) w)
    /\ count is_flow_start (trace v)
       = count is_flow_start
           (trace (water_control.start_flow main.invoke_water (Some t) w))
    /\ safety v = safety w /\ os v = os w /\ tasks v = tasks w
    /\ clock v = clock w.
Proof.
  destruct (start_flow_effects t w) as (_ & _ & _ & _ & _ & _ & _ & _ & Es & Eo & Et & Ec).
  unfold main.start_shower_body, seq.
  destruct a as [s|]; [destruct (main.truthy_str (Some s))|];
    eexists; (split; [reflexivity|]); unfold main.audio_start_playback, skip;
    try (destruct (water_control.start_flow _ _ w); cbn in *;
         now repeat split);
    now repeat split.
Qed.

(** C5, amended: [start_shower] has no guard on an active session, and no
    [SessionAlreadyActive] error exists.  Whether or not a session is
    active, the call first performs every effect of [start_flow]: the target
    becomes the request clamped to the bounds, both supply valves are
    opened, the mixer is set to 0.5, the valve is OPEN, the flow ADJUSTING
    at 8.0 l/min and [on_flow_start] is fired (once more, if its slot is
    filled); the monitor, the coordinator and the timers are as they were
    at that point.  The only exception the call can raise is the one
    [audio_manager.start_playback] raised.  With no audio source the call
    goes straight on and returns normally.  With an audio source it calls
    [start_playback]: if that raises, the call raises the same exception
    and does nothing more, so the valves are open and no session is
    started; if it returns, the call goes on from the state it resumes in
    and returns normally.  Going on means, from whatever state that is:
    the session start time becomes the current time, the safety state SAFE,
    the door timer held then is cancelled and a fresh one with the full
    timeout is started, the session is marked active, and the water
    controller is not touched again. *)
Theorem start_shower_has_no_guard (t : Q) (a : option string)
    (playback : Result) (w : World) :
  let r := main.start_shower t a playback w in
  let u := water_control.start_flow main.invoke_water (Some t) w in
  (target_temperature (water u) = water_control.clamp_temperature (water w) t
   /\ valve_state (water u) = ValveState.OPEN
   /\ flow_state (water u) = FlowState.ADJUSTING
   /\ hot_valve_open (water u) = true
   /\ cold_valve_open (water u) = true
   /\ mixer_valve_position (water u) = 1#2
   /\ flow_rate (water u) = 8
   /\ count is_flow_start (trace u)
      = (count is_flow_start (trace w)
         + match on_flow_start (water w) with Some _ => 1 | None => 0 end)%nat
   /\ safety u = safety w /\ os u = os w /\ tasks u = tasks w)
  /\ (fst r = Returned \/ fst r = playback)
  /\ (main.truthy_str a = false ->
      fst r = Returned /\ snd r = main.start_shower_after_playback u)
  /\ (forall s, a = Some s -> main.truthy_str a = true ->
      (forall e, playback = Raised e ->
         fst r = Raised e /\ snd r = main.audio_start_playback s u)
      /\ (playback = Returned ->
          fst r = Returned
          /\ snd r = main.start_shower_after_playback
                       (main.audio_start_playback s u)))
  /\ (forall x,
        let v := main.start_shower_after_playback x in
        water v = water x
        /\ shower_start_time (safety v) = Some (clock x)
        /\ safety_state (safety v) = SafetyState.SAFE
        /\ door_timer (safety v) = Some (List.length (tasks x))
        /\ tasks v
           = match door_timer (safety x) with
             | Some i => update_nth i Task.cancel (tasks x)
             | None => tasks x
             end ++ [Task.mk (clock x + door_timeout (safety x)) Task.Pending]
        /\ shower_active (os v) = true).
Proof.
  cbv zeta.
  pose proof (start_flow_effects t w) as F. cbv zeta in F.
  destruct F as (F1 & F2 & F3 & F4 & F5 & F6 & F7 & F8 & Es & Eo & Et & Ec).
  split; [now repeat split|].
  assert (B0 : main.truthy_str a = false ->
               main.start_shower_body t a w
               = main.start_shower_after_playback
                   (water_control.start_flow main.invoke_water (Some t) w)).
  { intros T. unfold main.start_shower_body, seq.
    destruct a as [s|]; [rewrite T|]; reflexivity. }
  assert (B1 : forall s, a = Some s -> main.truthy_str a = true ->
               main.start_shower_body t a w
               = main.start_shower_after_playback
                   (main.audio_start_playback s
                      (water_control.start_flow main.invoke_water (Some t) w))).
  { intros s -> T. unfold main.start_shower_body, seq. now rewrite T. }
  split; [|split; [|split]].
  - unfold main.start_shower. destruct playback as [|e]; [now left|].
    destruct a as [s|]; [|now left].
    destruct (main.truthy_str (Some s)); [now right | now left].
  - intros T. unfold main.start_shower.
    destruct playback as [|e]; cbn [fst snd];
      [split; [reflexivity | now apply B0]|].
    destruct a as [s|]; [rewrite T|]; cbn [fst snd];
      (split; [reflexivity | now apply B0]).
  - intros s Ha T. split.
    + intros e ->. subst a. unfold main.start_shower. rewrite T.
      cbn [fst snd]. split; reflexivity.
    + intros ->. unfold main.start_shower. cbn [fst snd].
      split; [reflexivity | now apply B1].
  - intros x. pose proof (start_shower_after_playback_effects x) as A.
    cbv zeta in A. destruct A as (A1 & _ & A3 & A4 & A5 & A6 & A7).
    now repeat split.
Qed.

End Coordinator.

(** ** Methods that leave the safety monitor alone *)

Lemma ss_skip : safety_same skip.
Proof. intros w. reflexivity. Qed.

Lemma ss_seq (a b : M) : safety_same a -> safety_same b -> safety_same (a ;; b).
Proof. intros Ha Hb w. unfold seq. now rewrite Hb, Ha. Qed.

Lemma ss_when (c : World -> bool) (a : M) : safety_same a -> safety_same (when c a).
Proof. intros Ha w. unfold when. destruct (c w); [apply Ha | reflexivity]. Qed.

Lemma ss_emit (e : Event) : safety_same (emit e).
Proof. intros []. reflexivity. Qed.

Lemma ss_upd_water f : safety_same (upd_water f).
Proof. intros []. reflexivity. Qed.

Lemma ss_upd_os f : safety_same (upd_os f).
Proof. intros []. reflexivity. Qed.

Lemma ss_upd_tasks f : safety_same (upd_tasks f).
Proof. intros []. reflexivity. Qed.

Lemma ss_advance_clock dt : safety_same (advance_clock dt).
Proof. intros []. reflexivity. Qed.

Lemma ss_fire_water slot e : safety_same (fire main.invoke_water slot e).
Proof.
  intros w. rewrite fire_invoke_water. destruct (slot w); [|reflexivity].
  apply ss_emit.
Qed.

Ltac ss := repeat first
  [ apply ss_skip | apply ss_emit | apply ss_upd_water | apply ss_upd_os
  | apply ss_upd_tasks | apply ss_fire_water | apply ss_when | apply ss_seq ].

Lemma ss_stop_flow : safety_same (water_control.stop_flow main.invoke_water).
Proof. unfold water_control.stop_flow, water_control._close_valves. ss. Qed.

Lemma ss_start_flow t : safety_same (water_control.start_flow main.invoke_water t).
Proof.
  unfold water_control.start_flow, water_control._open_valves.
  apply ss_seq; [|ss].
  intros w. destruct t; [apply ss_upd_water | reflexivity].
Qed.

Lemma ss_set_temperature t : safety_same (water_control.set_temperature t).
Proof.
  intros w. unfold water_control.set_temperature.
  destruct (Qgt_bool _ _); [|reflexivity].
  apply ss_seq; [apply ss_upd_water | apply ss_skip].
Qed.

Lemma ss_set_flow_rate r : safety_same (water_control.set_flow_rate r).
Proof. unfold water_control.set_flow_rate, water_control._adjust_flow_valves. ss. Qed.

Lemma ss_water_read_sensors :
  safety_same (water_control._read_sensors main.invoke_water).
Proof.
  unfold water_control._read_sensors. apply ss_when. intros w.
  destruct (Qgt_bool _ _); [|reflexivity].
  apply ss_seq; [apply ss_upd_water | apply ss_fire_water].
Qed.

Lemma ss_adjust_temperature : safety_same water_control._adjust_temperature.
Proof.
  intros w. unfold water_control._adjust_temperature.
  destruct (Qgt_bool (Qabs _) _); [|reflexivity].
  apply ss_seq; [|apply ss_skip].
  destruct (Qgt_bool _ 0); apply ss_upd_water.
Qed.

Lemma ss_water_tick : safety_same main.water_tick.
Proof.
  unfold main.water_tick, water_control._control_loop, water_control._check_safety.
  repeat first [ apply ss_water_read_sensors | apply ss_adjust_temperature
               | apply ss_stop_flow | apply ss_skip | apply ss_when
               | apply ss_seq ].
Qed.

Lemma ss_cancel_door_timer : safety_same safety_monitor.cancel_door_timer.
Proof.
  intros w. unfold safety_monitor.cancel_door_timer.
  destruct (SafetyMonitor.door_timer (safety w)); [|reflexivity].
  apply ss_upd_tasks.
Qed.

(** ** Properties of the safety monitor kept by its methods *)

Section SafetyFrame.
Import SafetyMonitor.
Variable P : SafetyMonitor.t -> Prop.

Lemma ks_skip : keeps_safety P skip.
Proof. intros w H. exact H. Qed.

Lemma ks_seq (a b : M) :
  keeps_safety P a -> keeps_safety P b -> keeps_safety P (a ;; b).
Proof. intros Ha Hb w H. apply Hb, Ha, H. Qed.

Lemma ks_when (c : World -> bool) (a : M) :
  keeps_safety P a -> keeps_safety P (when c a).
Proof. intros Ha w H. unfold when. destruct (c w); [now apply Ha | exact H]. Qed.

Lemma ks_same (m : M) : safety_same m -> keeps_safety P m.
Proof. intros Hm w H. now rewrite Hm. Qed.

Lemma ks_fire {H : Type} (invoke : H -> M) slot e :
  (forall h, keeps_safety P (invoke h)) -> keeps_safety P (fire invoke slot e).
Proof.
  intros Hi w Hw. unfold fire. destruct (slot w); [|exact Hw].
  apply Hi. now rewrite ss_emit.
Qed.

Lemma ks_upd_safety (f : SafetyMonitor.t -> SafetyMonitor.t) :
  (forall c, P c -> P (f c)) -> keeps_safety P (upd_safety f).
Proof. intros Hf w H. destruct w. apply Hf, H. Qed.

(** The attributes that session handling, the timers and the emergency stop
    assign must not matter to [P]. *)
Hypothesis P_door_timer : forall v c, P c -> P (set_door_timer v c).
Hypothesis P_shower_start_time : forall v c, P c -> P (set_shower_start_time v c).
Hypothesis P_safety_state : forall v c, P c -> P (set_safety_state v c).
Hypothesis P_leak_detected : forall c, P c -> P (set_leak_detected true c).
Hypothesis P_last_door_open_time :
  forall v c, P c -> P (set_last_door_open_time v c).
Hypothesis P_latch : forall c, P c -> P (set_emergency_stop_active true c).

Lemma ks_start_door_timer : keeps_safety P safety_monitor.start_door_timer.
Proof.
  apply ks_seq; [apply ks_same, ss_cancel_door_timer|].
  intros w H. unfold safety_monitor.create_door_timeout_task.
  revert H. apply ks_seq; [apply ks_same, ss_upd_tasks|].
  apply ks_upd_safety. intros c. apply P_door_timer.
Qed.

Lemma ks_reset_door_timer : keeps_safety P safety_monitor.reset_door_timer.
Proof.
  apply ks_seq; [apply ks_same, ss_cancel_door_timer | apply ks_start_door_timer].
Qed.

Lemma ks_start_shower_session : keeps_safety P safety_monitor.start_shower_session.
Proof.
  unfold safety_monitor.start_shower_session.
  apply ks_seq; [|apply ks_seq].
  - intros w. apply ks_upd_safety. intros c. apply P_shower_start_time.
  - apply ks_upd_safety. intros c. apply P_safety_state.
  - apply ks_start_door_timer.
Qed.

Lemma ks_stop_shower_session : keeps_safety P safety_monitor.stop_shower_session.
Proof.
  unfold safety_monitor.stop_shower_session.
  apply ks_seq; [|apply ks_seq].
  - intros w H. destruct (door_timer (safety w)); [|exact H].
    revert H. apply ks_seq; [apply ks_same, ss_cancel_door_timer|].
    apply ks_upd_safety. intros c. apply P_door_timer.
  - apply ks_upd_safety. intros c. apply P_shower_start_time.
  - apply ks_upd_safety. intros c. apply P_safety_state.
Qed.

Lemma ks_stop_shower_body : keeps_safety P main.stop_shower_body.
Proof.
  unfold main.stop_shower_body, main.audio_stop_playback.
  apply ks_seq; [apply ks_same, ss_stop_flow|].
  apply ks_seq; [apply ks_same, ss_emit|].
  apply ks_seq; [apply ks_stop_shower_session | apply ks_same, ss_upd_os].
Qed.

Lemma ks_start_shower_body t a : keeps_safety P (main.start_shower_body t a).
Proof.
  unfold main.start_shower_body, main.audio_start_playback.
  apply ks_seq; [apply ks_same, ss_start_flow|].
  apply ks_seq.
  - apply ks_same. destruct a as [s|]; [destruct (main.truthy_str _)|]; ss.
  - apply ks_seq; [apply ks_start_shower_session | apply ks_same, ss_upd_os].
Qed.

Lemma ks_invoke_safety (h : SafetyHandler) : keeps_safety P (main.invoke_safety h).
Proof.
  destruct h; cbn [main.invoke_safety]; unfold main.send_emergency_notification.
  - apply ks_reset_door_timer.
  - apply ks_start_door_timer.
  - apply ks_seq; [apply ks_stop_shower_body | apply ks_same, ss_emit].
  - apply ks_seq; [apply ks_same, ss_upd_os|].
    apply ks_seq; [apply ks_stop_shower_body | apply ks_same, ss_emit].
Qed.

Lemma ks_emergency_stop r : keeps_safety P (main.safety_emergency_stop r).
Proof.
  unfold main.safety_emergency_stop, safety_monitor.emergency_stop.
  apply ks_seq; [apply ks_upd_safety, P_latch|].
  apply ks_seq; [apply ks_upd_safety; intros c; apply P_safety_state|].
  apply ks_fire, ks_invoke_safety.
Qed.

Lemma ks_door_timer_fires i : keeps_safety P (main.door_timer_fires i).
Proof.
  unfold main.door_timer_fires, safety_monitor.run_door_timeout,
    safety_monitor._door_timeout_handler.
  apply ks_when, ks_seq; [apply ks_same, ss_upd_tasks|].
  apply ks_when, ks_emergency_stop.
Qed.

Lemma ks_trigger_door_events old :
  keeps_safety P (safety_monitor.trigger_door_events main.invoke_safety old).
Proof.
  intros w H. unfold safety_monitor.trigger_door_events.
  destruct (negb _); [|exact H].
  destruct (SensorState.eqb _ _); revert H.
  - apply ks_seq; [|apply ks_fire, ks_invoke_safety].
    apply ks_upd_safety. intros c. apply P_last_door_open_time.
  - apply (ks_fire main.invoke_safety), ks_invoke_safety.
Qed.

Lemma ks_read_leak_sensor :
  keeps_safety P (safety_monitor.read_leak_sensor main.invoke_safety).
Proof.
  apply ks_when, ks_seq; [|apply ks_fire, ks_invoke_safety].
  apply ks_upd_safety, P_leak_detected.
Qed.

Lemma ks_read_emergency_button :
  keeps_safety P (safety_monitor.read_emergency_button main.invoke_safety).
Proof. apply ks_when, ks_emergency_stop. Qed.

Lemma ks_check_for_leaks :
  keeps_safety P (safety_monitor.check_for_leaks main.invoke_safety).
Proof.
  apply ks_when, ks_seq; [|apply ks_fire, ks_invoke_safety].
  apply ks_upd_safety. intros c. apply P_safety_state.
Qed.

Lemma ks_check_door_state : keeps_safety P safety_monitor.check_door_state.
Proof.
  intros w H. unfold safety_monitor.check_door_state.
  destruct (_ && _); [exact H|].
  destruct (_ && _); [|exact H].
  now apply ks_reset_door_timer.
Qed.

Lemma ks_check_safety_conditions :
  keeps_safety P (safety_monitor._check_safety_conditions main.invoke_safety).
Proof.
  unfold safety_monitor._check_safety_conditions.
  apply ks_seq; [apply ks_when, ks_emergency_stop|].
  apply ks_seq; [apply ks_check_for_leaks | apply ks_check_door_state].
Qed.

Lemma ks_update_safety_state : keeps_safety P safety_monitor._update_safety_state.
Proof.
  intros w H. unfold safety_monitor._update_safety_state.
  repeat match goal with
         | |- context [if ?b then _ else _] => destruct b
         end;
    (revert H; apply ks_upd_safety; intros c; apply P_safety_state).
Qed.

(** Everything in a tick that follows the assignment of [door_state]. *)
Lemma ks_after_door_read old :
  keeps_safety P
    (safety_monitor.trigger_door_events main.invoke_safety old ;;
     safety_monitor.read_leak_sensor main.invoke_safety ;;
     safety_monitor.read_emergency_button main.invoke_safety ;;
     safety_monitor._check_safety_conditions main.invoke_safety ;;
     safety_monitor._update_safety_state).
Proof.
  repeat first
    [ apply ks_trigger_door_events | apply ks_read_leak_sensor
    | apply ks_read_emergency_button | apply ks_check_safety_conditions
    | apply ks_update_safety_state | apply ks_seq ].
Qed.

Lemma safety_tick_unfold (w : World) :
  main.safety_tick w
  = (safety_monitor.trigger_door_events main.invoke_safety
       (door_state (safety w)) ;;
     safety_monitor.read_leak_sensor main.invoke_safety ;;
     safety_monitor.read_emergency_button main.invoke_safety ;;
     safety_monitor._check_safety_conditions main.invoke_safety ;;
     safety_monitor._update_safety_state)
      (safety_monitor.read_door_sensor w).
Proof. reflexivity. Qed.

(** When the assignment of [door_state] does not matter to [P] either, the
    whole tick keeps it, and so does every transition that does not touch a
    sensor line. *)
Hypothesis P_door_state : forall v c, P c -> P (set_door_state v c).

Lemma ks_read_sensors :
  keeps_safety P (safety_monitor._read_sensors main.invoke_safety).
Proof.
  unfold safety_monitor._read_sensors.
  apply ks_seq; [|apply ks_seq;
                   [apply ks_read_leak_sensor | apply ks_read_emergency_button]].
  intros w H. cbv zeta. revert H.
  apply ks_seq; [|apply ks_trigger_door_events].
  intros v. apply ks_upd_safety. intros c. apply P_door_state.
Qed.

Lemma ks_tick_before_update :
  keeps_safety P (safety_monitor._read_sensors main.invoke_safety ;;
                  safety_monitor._check_safety_conditions main.invoke_safety).
Proof. apply ks_seq; [apply ks_read_sensors | apply ks_check_safety_conditions]. Qed.

Lemma ks_safety_tick : keeps_safety P main.safety_tick.
Proof.
  unfold main.safety_tick, safety_monitor._control_loop.
  apply ks_seq; [apply ks_read_sensors|].
  apply ks_seq; [apply ks_check_safety_conditions | apply ks_update_safety_state].
Qed.

(** With the sensor lines not mattering either, every transition of the
    system keeps [P]. *)
Hypothesis P_door_sensor_active : forall v c, P c -> P (set_door_sensor_active v c).
Hypothesis P_leak_sensor_active : forall v c, P c -> P (set_leak_sensor_active v c).
Hypothesis P_emergency_button_pressed :
  forall v c, P c -> P (set_emergency_button_pressed v c).

Lemma ks_step (s : Step) : keeps_safety P (step s).
Proof.
  destruct s; cbn [step snd main.start_shower main.stop_shower].
  - apply ks_same, ss_water_tick.
  - apply ks_safety_tick.
  - apply ks_door_timer_fires.
  - apply ks_start_shower_body.
  - apply ks_stop_shower_body.
  - apply ks_same, ss_set_temperature.
  - apply ks_same, ss_set_flow_rate.
  - apply ks_emergency_stop.
  - apply ks_same, ss_upd_os.
  - apply ks_upd_safety. intros c. apply P_door_sensor_active.
  - apply ks_upd_safety. intros c. apply P_door_sensor_active.
  - apply ks_upd_safety. intros c. apply P_leak_sensor_active.
  - apply ks_upd_safety. intros c. apply P_leak_sensor_active.
  - apply ks_upd_safety. intros c. apply P_emergency_button_pressed.
  - apply ks_upd_safety. intros c. apply P_emergency_button_pressed.
  - apply ks_same, ss_advance_clock.
  - apply ks_seq; [apply ks_same, ss_start_flow | apply ks_same, ss_emit].
  - apply ks_seq; [apply ks_start_shower_session | apply ks_same, ss_upd_os].
  - apply ks_seq; [apply ks_same, ss_stop_flow | apply ks_same, ss_emit].
  - apply ks_seq; [apply ks_stop_shower_session | apply ks_same, ss_upd_os].
Qed.

End SafetyFrame.

(** ** The door timer and an unknown door *)

Section UnknownDoor.
Import SafetyMonitor.

#[local] Arguments Qplus : simpl never.

(** C7, as stated, fails: right after initialisation the door state is
    UNKNOWN and no timer exists; starting a shower then leaves the door
    state UNKNOWN and yet arms the 600 s door timer. *)
Lemma start_arms_timer_on_unknown_door :
  let w0 := main.initialize default_config 1000 in
  let w := snd (main.start_shower 38 None Returned w0) in
  door_state (safety w0) = SensorState.UNKNOWN
  /\ door_timer (safety w0) = None
  /\ tasks w0 = []
  /\ door_state (safety w) = SensorState.UNKNOWN
  /\ door_timer (safety w) = Some 0%nat
  /\ tasks w = [Task.mk (1000 + 600) Task.Pending].
Proof. cbv zeta. repeat split. Qed.

Lemma start_shower_session_timer (w : World) :
  let w' := safety_monitor.start_shower_session w in
  door_state (safety w') = door_state (safety w)
  /\ door_timer (safety w') = Some (List.length (tasks w))
  /\ nth_error (tasks w') (List.length (tasks w))
     = Some (Task.mk (clock w + door_timeout (safety w)) Task.Pending).
Proof.
  open_world w.
  unfold safety_monitor.start_shower_session, safety_monitor.start_door_timer,
    safety_monitor.cancel_door_timer, safety_monitor.create_door_timeout_task,
    seq.
  cbn. destruct door_timer0 as [i|]; cbn; rewrite ?length_update_nth;
    (split; [reflexivity|]; split; [reflexivity|]).
  - rewrite <- (length_update_nth i Task.cancel tasks0).
    apply nth_error_snoc.
  - apply nth_error_snoc.
Qed.

Lemma read_door_sensor_state (w : World) :
  door_state (safety (safety_monitor.read_door_sensor w))
  = if door_sensor_active (safety w)
    then SensorState.OPEN else SensorState.CLOSED.
Proof.
  unfold safety_monitor.read_door_sensor.
  destruct w as [? sa ? ? ? ?]; destruct sa. reflexivity.
Qed.

Lemma safety_tick_door_state (w : World) :
  door_state (safety (main.safety_tick w))
  = if door_sensor_active (safety w)
    then SensorState.OPEN else SensorState.CLOSED.
Proof.
  rewrite safety_tick_unfold.
  apply (ks_after_door_read (fun c => door_state c = _));
    try (intros; destruct c; assumption).
  apply read_door_sensor_state.
Qed.

Lemma door_timeout_handler_not_closed (w : World) :
  door_state (safety w) <> SensorState.CLOSED ->
  safety_monitor._door_timeout_handler main.invoke_safety w = w.
Proof.
  intros H. unfold safety_monitor._door_timeout_handler, when.
  destruct (door_state (safety w)); [reflexivity | congruence | reflexivity].
Qed.

(** C7, amended: [start_shower_session] arms the door timer unconditionally:
    whatever the door state, UNKNOWN included, it leaves the door state as it
    was and starts a pending timer that expires [door_timeout] from now.
    UNKNOWN is only the initial value: every tick's sensor read replaces the
    door state by OPEN or CLOSED (an inactive sensor line reads as CLOSED).
    What protects an unknown door is the expiry check: a timer that expires
    while the door state is not CLOSED (UNKNOWN included) just finishes,
    without an emergency stop. *)
Theorem door_timer_armed_whatever_the_door (w : World) :
  (let w' := safety_monitor.start_shower_session w in
   door_state (safety w') = door_state (safety w)
   /\ door_timer (safety w') = Some (List.length (tasks w))
   /\ nth_error (tasks w') (List.length (tasks w))
      = Some (Task.mk (clock w + door_timeout (safety w)) Task.Pending))
  /\ door_state (safety (main.safety_tick w))
     = (if door_sensor_active (safety w)
        then SensorState.OPEN else SensorState.CLOSED)
  /\ (door_state (safety w) <> SensorState.CLOSED ->
      forall i,
        main.door_timer_fires i w
        = if safety_monitor.due i w
          then upd_tasks
                 (update_nth i (fun k => Task.mk (Task.deadline k) Task.Finished)) w
          else w).
Proof.
  split; [apply start_shower_session_timer|].
  split; [apply safety_tick_door_state|].
  intros H i. unfold main.door_timer_fires, safety_monitor.run_door_timeout, when.
  destruct (safety_monitor.due i w); [|reflexivity].
  unfold seq. apply door_timeout_handler_not_closed.
  now rewrite ss_upd_tasks.
Qed.

End UnknownDoor.

(** ** The emergency latch *)

Section Latch.
Import SafetyMonitor.

Lemma latched_frame (f : SafetyMonitor.t -> SafetyMonitor.t) :
  (forall c, emergency_stop_active (f c) = emergency_stop_active c) ->
  forall c, latched c -> latched (f c).
Proof. intros Hf c H. unfold latched. now rewrite Hf. Qed.

Ltac latch_frame :=
  first [ intros ? c0 ?; destruct c0; assumption
        | intros c0 ?; destruct c0; first [assumption | reflexivity] ].

Lemma latched_step (s : Step) : keeps_safety latched (step s).
Proof. apply ks_step; latch_frame. Qed.

Lemma latched_run (l : list Step) (w : World) :
  latched (safety w) -> latched (safety (run l w)).
Proof.
  revert w. induction l as [|s l IH]; intros w H; [exact H|].
  cbn [run fold_left]. apply IH. now apply latched_step.
Qed.

Lemma update_safety_state_latched (w : World) :
  latched (safety w) ->
  safety_state (safety (safety_monitor._update_safety_state w))
  = SafetyState.EMERGENCY.
Proof.
  unfold latched, safety_monitor._update_safety_state. intros ->.
  destruct w as [? sa ? ? ? ?]; destruct sa. reflexivity.
Qed.

Lemma safety_tick_latched (w : World) :
  latched (safety w) ->
  safety_state (safety (main.safety_tick w)) = SafetyState.EMERGENCY.
Proof.
  intros H.
  change (main.safety_tick w)
    with (safety_monitor._update_safety_state
            ((safety_monitor._read_sensors main.invoke_safety ;;
              safety_monitor._check_safety_conditions main.invoke_safety) w)).
  apply update_safety_state_latched.
  apply ks_tick_before_update; try latch_frame. exact H.
Qed.

Lemma emergency_stop_latches (r : string) (w : World) :
  latched (safety (main.safety_emergency_stop r w)).
Proof.
  unfold main.safety_emergency_stop, safety_monitor.emergency_stop.
  change (latched (safety
    ((upd_safety (set_safety_state SafetyState.EMERGENCY) ;;
      fire main.invoke_safety (fun w => on_emergency_stop (safety w))
        (fun _ => Ev_on_emergency_stop))
       (upd_safety (set_emergency_stop_active true) w)))).
  apply ks_seq.
  - apply ks_upd_safety. latch_frame.
  - apply ks_fire. intros h. apply ks_invoke_safety; latch_frame.
  - destruct w as [? sa ? ? ? ?]; destruct sa. reflexivity.
Qed.

Lemma stop_shower_session_safe (w : World) :
  safety_state (safety (safety_monitor.stop_shower_session w))
  = SafetyState.SAFE.
Proof.
  open_world w.
  unfold safety_monitor.stop_shower_session, safety_monitor.cancel_door_timer, seq.
  cbn. destruct door_timer0; reflexivity.
Qed.

(** C4, as stated, fails: once the emergency button has put the monitor into
    EMERGENCY, a plain [stop_shower] (through [stop_shower_session]) or a new
    [start_shower] sets the safety state back to SAFE; and the monitor has no
    clear-emergency operation at all. *)
Lemma stop_shower_resets_emergency_state :
  let w := run [CmdStartShower 38 None; PressEmergencyButton; SafetyTick;
                ReleaseEmergencyButton]
               (main.initialize default_config 1000) in
  safety_state (safety w) = SafetyState.EMERGENCY
  /\ safety_state (safety (safety_monitor.stop_shower_session w))
     = SafetyState.SAFE
  /\ safety_state (safety (step CmdStopShower w)) = SafetyState.SAFE
  /\ safety_state (safety (step (CmdStartShower 38 None) w))
     = SafetyState.SAFE.
Proof. cbv zeta. repeat split. Qed.

(** C4, amended: what is terminal is the latch [emergency_stop_active].
    Every [emergency_stop] sets it, and nothing the running system can do
    (ticks of either loop, timer wake-ups, starting or stopping a shower,
    temperature, flow and emergency commands, sensor changes, time passing)
    resets it; while it is set, every tick of the safety loop ends with the
    safety state EMERGENCY.  [stop_shower_session] does overwrite the safety
    state with SAFE, also during an emergency, but leaves the latch set, so
    the next tick restores EMERGENCY.  No clear-emergency operation exists. *)
Theorem emergency_latch_is_never_reset (l : list Step) (w : World) :
  latched (safety w) ->
  latched (safety (run l w))
  /\ safety_state (safety (main.safety_tick (run l w))) = SafetyState.EMERGENCY
  /\ safety_state (safety (safety_monitor.stop_shower_session (run l w)))
     = SafetyState.SAFE
  /\ latched (safety (safety_monitor.stop_shower_session (run l w)))
  /\ safety_state
       (safety (main.safety_tick
                  (safety_monitor.stop_shower_session (run l w))))
     = SafetyState.EMERGENCY
  /\ forall r v, latched (safety (main.safety_emergency_stop r v)).
Proof.
  intros H. pose proof (latched_run l w H) as Hl.
  assert (Hs : latched (safety (safety_monitor.stop_shower_session (run l w))))
    by (apply ks_stop_shower_session; try latch_frame; exact Hl).
  split; [exact Hl|].
  split; [now apply safety_tick_latched|].
  split; [apply stop_shower_session_safe|].
  split; [exact Hs|].
  split; [now apply safety_tick_latched|].
  intros r v. apply emergency_stop_latches.
Qed.

Lemma emergency_latch_is_never_reset_witness :
  let w := run [CmdStartShower 38 None; PressEmergencyButton; SafetyTick]
               (main.initialize default_config 1000) in
  latched (safety (run [ReleaseEmergencyButton; CmdStopShower;
                        CmdStartShower 38 None; Elapse 5; WaterTick] w)).
Proof.
  cbv zeta.
  refine (proj1 (emergency_latch_is_never_reset _ _ _)).
  reflexivity.
Defined.

End Latch.

(** ** Observations that a method leaves unchanged *)

Section View.
Context {A : Type} (V : World -> A).

Lemma vs_skip : same V skip.
Proof. intros w. reflexivity. Qed.

Lemma vs_seq (a b : M) : same V a -> same V b -> same V (a ;; b).
Proof. intros Ha Hb w. unfold seq. now rewrite Hb, Ha. Qed.

Lemma vs_when (c : World -> bool) (a : M) : same V a -> same V (when c a).
Proof. intros Ha w. unfold when. destruct (c w); [apply Ha | reflexivity]. Qed.

Lemma vs_fire {H : Type} (invoke : H -> M) slot e :
  (forall w, V (emit (e w) w) = V w) ->
  (forall h, same V (invoke h)) ->
  same V (fire invoke slot e).
Proof.
  intros He Hi w. unfold fire. destruct (slot w); [|reflexivity].
  now rewrite Hi, He.
Qed.

End View.

(** ** Counting the emergency-stop events *)

Section EmergencyCount.
Import SafetyMonitor.

Lemma ec_upd_water f : same emergency_count (upd_water f).
Proof. intros []. reflexivity. Qed.

Lemma ec_upd_safety f : same emergency_count (upd_safety f).
Proof. intros []. reflexivity. Qed.

Lemma ec_upd_os f : same emergency_count (upd_os f).
Proof. intros []. reflexivity. Qed.

Lemma ec_upd_tasks f : same emergency_count (upd_tasks f).
Proof. intros []. reflexivity. Qed.

Lemma ec_emit (e : Event) :
  is_emergency_stop e = false -> same emergency_count (emit e).
Proof.
  intros He []. unfold emergency_count, count. cbn. now rewrite He.
Qed.

Lemma ec_emit_emergency (w : World) :
  emergency_count (emit Ev_on_emergency_stop w) = S (emergency_count w).
Proof. destruct w. reflexivity. Qed.

Ltac ec := repeat first
  [ apply vs_skip | apply ec_upd_water | apply ec_upd_safety | apply ec_upd_os
  | apply ec_upd_tasks | apply ec_emit; reflexivity
  | apply vs_fire; [intros w; apply ec_emit; reflexivity | intros []; apply vs_skip]
  | apply vs_when | apply vs_seq ].

Lemma ec_stop_flow : same emergency_count (water_control.stop_flow main.invoke_water).
Proof. unfold water_control.stop_flow, water_control._close_valves. ec. Qed.

Lemma ec_cancel_door_timer : same emergency_count safety_monitor.cancel_door_timer.
Proof.
  intros w. unfold safety_monitor.cancel_door_timer.
  destruct (door_timer (safety w)); [apply ec_upd_tasks | reflexivity].
Qed.

Lemma ec_start_door_timer : same emergency_count safety_monitor.start_door_timer.
Proof.
  apply vs_seq; [apply ec_cancel_door_timer|].
  intros w. unfold safety_monitor.create_door_timeout_task.
  apply vs_seq; [apply ec_upd_tasks | apply ec_upd_safety].
Qed.

Lemma ec_reset_door_timer : same emergency_count safety_monitor.reset_door_timer.
Proof. apply vs_seq; [apply ec_cancel_door_timer | apply ec_start_door_timer]. Qed.

Lemma ec_stop_shower_session :
  same emergency_count safety_monitor.stop_shower_session.
Proof.
  unfold safety_monitor.stop_shower_session.
  apply vs_seq; [|ec].
  intros w. destruct (door_timer (safety w)); [|reflexivity].
  apply vs_seq; [apply ec_cancel_door_timer | apply ec_upd_safety].
Qed.

Lemma ec_stop_shower_body : same emergency_count main.stop_shower_body.
Proof.
  unfold main.stop_shower_body, main.audio_stop_playback.
  apply vs_seq; [apply ec_stop_flow|].
  apply vs_seq; [apply ec_emit; reflexivity|].
  apply vs_seq; [apply ec_stop_shower_session | apply ec_upd_os].
Qed.

Lemma ec_invoke_safety (h : SafetyHandler) :
  same emergency_count (main.invoke_safety h).
Proof.
  destruct h; cbn [main.invoke_safety]; unfold main.send_emergency_notification.
  - apply ec_reset_door_timer.
  - apply ec_start_door_timer.
  - apply vs_seq; [apply ec_stop_shower_body | apply ec_emit; reflexivity].
  - apply vs_seq; [apply ec_upd_os|].
    apply vs_seq; [apply ec_stop_shower_body | apply ec_emit; reflexivity].
Qed.

Lemma ec_fire_safety slot e :
  (forall w, is_emergency_stop (e w) = false) ->
  same emergency_count (fire main.invoke_safety slot e).
Proof.
  intros He. apply vs_fire; [|apply ec_invoke_safety].
  intros w. now apply ec_emit.
Qed.

Lemma ec_read_door_sensor : same emergency_count safety_monitor.read_door_sensor.
Proof. intros w. apply ec_upd_safety. Qed.

Lemma ec_trigger_door_events old :
  same emergency_count (safety_monitor.trigger_door_events main.invoke_safety old).
Proof.
  intros w. unfold safety_monitor.trigger_door_events.
  destruct (negb _); [|reflexivity].
  destruct (SensorState.eqb _ _).
  - apply vs_seq; [apply ec_upd_safety | now apply ec_fire_safety].
  - now apply ec_fire_safety.
Qed.

Lemma ec_read_leak_sensor :
  same emergency_count (safety_monitor.read_leak_sensor main.invoke_safety).
Proof.
  apply vs_when, vs_seq; [apply ec_upd_safety | now apply ec_fire_safety].
Qed.

Lemma ec_check_for_leaks :
  same emergency_count (safety_monitor.check_for_leaks main.invoke_safety).
Proof.
  apply vs_when, vs_seq; [apply ec_upd_safety | now apply ec_fire_safety].
Qed.

Lemma ec_check_door_state : same emergency_count safety_monitor.check_door_state.
Proof.
  intros w. unfold safety_monitor.check_door_state.
  destruct (_ && _); [reflexivity|].
  destruct (_ && _); [apply ec_reset_door_timer | reflexivity].
Qed.

Lemma ec_update_safety_state :
  same emergency_count safety_monitor._update_safety_state.
Proof.
  intros w. unfold safety_monitor._update_safety_state.
  repeat match goal with
         | |- context [if ?b then _ else _] => destruct b
         end; apply ec_upd_safety.
Qed.

End EmergencyCount.

(** ** Entering EMERGENCY *)

Section Emergency.
Import WaterController SafetyMonitor.

#[local] Arguments Qplus : simpl never.
#[local] Arguments Qminus : simpl never.
#[local] Arguments Qle_bool : simpl never.
#[local] Arguments Qeq_bool : simpl never.

Ltac frame_goal :=
  first [ intros ? c0 ?; destruct c0; assumption
        | intros c0 ?; destruct c0; assumption ].

(** One call of the monitor's [emergency_stop] with the coordinator's
    handler installed. *)
Lemma emergency_stop_call (r : string) (w : World) :
  on_emergency_stop (safety w) = Some _on_emergency_stop ->
  let w' := main.safety_emergency_stop r w in
  latched (safety w')
  /\ emergency_count w' = S (emergency_count w)
  /\ shower_start_time (safety w') = None
  /\ safety_state (safety w') = SafetyState.SAFE
  /\ SmartShowerOS.emergency_stop (os w') = true.
Proof.
  open_world w. cbn [safety on_emergency_stop]. intros ->.
  unfold main.safety_emergency_stop, safety_monitor.emergency_stop,
    main.invoke_safety, main.stop_shower_body, water_control.stop_flow,
    water_control._close_valves, safety_monitor.stop_shower_session,
    safety_monitor.cancel_door_timer, main.audio_stop_playback,
    main.send_emergency_notification, fire, seq, emergency_count, count,
    latched.
  cbn. destruct on_flow_stop0 as [[]|], door_timer0; cbn; repeat split.
Qed.

Lemma safety_tick_blocks (w : World) :
  main.safety_tick w
  = safety_monitor._update_safety_state
      (safety_monitor.check_door_state
         (safety_monitor.check_for_leaks main.invoke_safety
            (safety_monitor.check_shower_duration main.invoke_safety
               (safety_monitor.read_emergency_button main.invoke_safety
                  (safety_monitor.read_leak_sensor main.invoke_safety
                     (safety_monitor.trigger_door_events main.invoke_safety
                        (door_state (safety w))
                        (safety_monitor.read_door_sensor w))))))).
Proof. reflexivity. Qed.

Lemma check_shower_duration_no_session (w : World) :
  shower_start_time (safety w) = None ->
  safety_monitor.check_shower_duration main.invoke_safety w = w.
Proof.
  intros H. unfold safety_monitor.check_shower_duration, when,
    safety_monitor.duration_exceeded.
  now rewrite H.
Qed.

(** A tick with the button pressed: one more [on_emergency_stop], whatever
    the safety state was. *)
Lemma button_tick (w : World) :
  on_emergency_stop (safety w) = Some _on_emergency_stop ->
  emergency_button_pressed (safety w) = true ->
  let w' := main.safety_tick w in
  safety_state (safety w') = SafetyState.EMERGENCY
  /\ latched (safety w')
  /\ emergency_count w' = S (emergency_count w).
Proof.
  intros Hs Hb w'. subst w'. rewrite safety_tick_blocks.
  set (w3 := safety_monitor.read_leak_sensor main.invoke_safety
               (safety_monitor.trigger_door_events main.invoke_safety
                  (door_state (safety w)) (safety_monitor.read_door_sensor w))).
  assert (K3 : on_emergency_stop (safety w3) = Some _on_emergency_stop
               /\ emergency_button_pressed (safety w3) = true).
  { subst w3.
    apply (ks_read_leak_sensor
             (fun c => on_emergency_stop c = Some _on_emergency_stop
                       /\ emergency_button_pressed c = true));
      try frame_goal.
    apply (ks_trigger_door_events
             (fun c => on_emergency_stop c = Some _on_emergency_stop
                       /\ emergency_button_pressed c = true));
      try frame_goal.
    unfold safety_monitor.read_door_sensor.
    destruct w as [? sa ? ? ? ?]; destruct sa. now split. }
  assert (C3 : emergency_count w3 = emergency_count w).
  { subst w3.
    now rewrite ec_read_leak_sensor, ec_trigger_door_events, ec_read_door_sensor. }
  destruct K3 as [Hs3 Hb3].
  assert (E4 : safety_monitor.read_emergency_button main.invoke_safety w3
               = main.safety_emergency_stop "Emergency button pressed" w3).
  { unfold safety_monitor.read_emergency_button, when. now rewrite Hb3. }
  rewrite E4.
  destruct (emergency_stop_call "Emergency button pressed" w3 Hs3)
    as (L4 & C4 & S4 & _).
  set (w4 := main.safety_emergency_stop "Emergency button pressed" w3) in *.
  rewrite (check_shower_duration_no_session w4 S4).
  assert (L5 : latched (safety (safety_monitor.check_door_state
                 (safety_monitor.check_for_leaks main.invoke_safety w4)))).
  { apply ks_check_door_state; try frame_goal.
    apply ks_check_for_leaks; try frame_goal. exact L4. }
  split; [now apply update_safety_state_latched|].
  split.
  - apply ks_update_safety_state; try frame_goal. exact L5.
  - rewrite ec_update_safety_state, ec_check_door_state, ec_check_for_leaks.
    now rewrite C4, C3.
Qed.

(** The door timeout task waking up with the door closed. *)
Lemma door_timeout_call (i : nat) (w : World) :
  on_emergency_stop (safety w) = Some _on_emergency_stop ->
  safety_monitor.due i w = true ->
  door_state (safety w) = SensorState.CLOSED ->
  let w' := main.door_timer_fires i w in
  latched (safety w') /\ emergency_count w' = S (emergency_count w).
Proof.
  intros Hs Hd Hc w'. subst w'.
  unfold main.door_timer_fires, safety_monitor.run_door_timeout, when.
  rewrite Hd. unfold seq, safety_monitor._door_timeout_handler, when.
  set (w1 := upd_tasks _ w).
  assert (E : safety w1 = safety w) by apply ss_upd_tasks.
  rewrite E, Hc. cbn [SensorState.eqb].
  destruct (emergency_stop_call "Door timeout - Auto-shutoff" w1)
    as (L & C & _); [now rewrite E|].
  unfold main.safety_emergency_stop in L, C.
  split; [exact L|]. rewrite C. f_equal. apply ec_upd_tasks.
Qed.

(** The leak handler with the coordinator's handler installed. *)
Lemma leak_detected_call (w : World) :
  on_leak_detected (safety w) = Some _on_leak_detected ->
  leak_sensor_active (safety w) = true ->
  leak_detected (safety w) = false ->
  let w' := safety_monitor.read_leak_sensor main.invoke_safety w in
  leak_detected (safety w') = true
  /\ emergency_stop_active (safety w') = emergency_stop_active (safety w)
  /\ emergency_button_pressed (safety w')
     = emergency_button_pressed (safety w)
  /\ shower_start_time (safety w') = None
  /\ count is_leak_detected (trace w') = S (count is_leak_detected (trace w)).
Proof.
  open_world w. cbn [safety on_leak_detected leak_sensor_active leak_detected].
  intros -> -> ->.
  unfold safety_monitor.read_leak_sensor, when,
    main.invoke_safety, main.stop_shower_body, water_control.stop_flow,
    water_control._close_valves, safety_monitor.stop_shower_session,
    safety_monitor.cancel_door_timer, main.audio_stop_playback,
    main.send_emergency_notification, fire, seq, count.
  cbn. destruct on_flow_stop0 as [[]|], door_timer0; cbn; repeat split.
Qed.

Lemma update_safety_state_danger (w : World) :
  emergency_stop_active (safety w) = false ->
  leak_detected (safety w) = true ->
  safety_state (safety (safety_monitor._update_safety_state w))
  = SafetyState.DANGER.
Proof.
  unfold safety_monitor._update_safety_state. intros -> ->.
  destruct w as [? sa ? ? ? ?]; destruct sa. reflexivity.
Qed.

(** A tick on which a leak is newly seen, with no button pressed and no
    emergency latched: DANGER, and no emergency stop. *)
Lemma leak_tick (w : World) :
  on_leak_detected (safety w) = Some _on_leak_detected ->
  leak_sensor_active (safety w) = true ->
  leak_detected (safety w) = false ->
  emergency_button_pressed (safety w) = false ->
  emergency_stop_active (safety w) = false ->
  let w' := main.safety_tick w in
  safety_state (safety w') = SafetyState.DANGER
  /\ emergency_stop_active (safety w') = false
  /\ emergency_count w' = emergency_count w.
Proof.
  intros Hs Ha Hl Hb He w'. subst w'. rewrite safety_tick_blocks.
  set (w2 := safety_monitor.trigger_door_events main.invoke_safety
               (door_state (safety w)) (safety_monitor.read_door_sensor w)).
  assert (K2 : on_leak_detected (safety w2) = Some _on_leak_detected
               /\ leak_sensor_active (safety w2) = true
               /\ leak_detected (safety w2) = false
               /\ emergency_button_pressed (safety w2) = false
               /\ emergency_stop_active (safety w2) = false).
  { subst w2.
    apply (ks_trigger_door_events
             (fun c => on_leak_detected c = Some _on_leak_detected
                       /\ leak_sensor_active c = true
                       /\ leak_detected c = false
                       /\ emergency_button_pressed c = false
                       /\ emergency_stop_active c = false));
      try frame_goal.
    unfold safety_monitor.read_door_sensor.
    destruct w as [? sa ? ? ? ?]; destruct sa. now repeat split. }
  assert (C2 : emergency_count w2 = emergency_count w).
  { subst w2. now rewrite ec_trigger_door_events, ec_read_door_sensor. }
  destruct K2 as (Hs2 & Ha2 & Hl2 & Hb2 & He2).
  destruct (leak_detected_call w2 Hs2 Ha2 Hl2) as (L3 & E3 & B3 & S3 & _).
  pose proof (ec_read_leak_sensor w2) as C3.
  set (w3 := safety_monitor.read_leak_sensor main.invoke_safety w2) in *.
  rewrite He2 in E3. rewrite Hb2 in B3.
  assert (E4 : safety_monitor.read_emergency_button main.invoke_safety w3 = w3).
  { unfold safety_monitor.read_emergency_button, when. now rewrite B3. }
  rewrite E4, (check_shower_duration_no_session w3 S3).
  set (w5 := safety_monitor.check_door_state
               (safety_monitor.check_for_leaks main.invoke_safety w3)).
  assert (K5 : leak_detected (safety w5) = true
               /\ emergency_stop_active (safety w5) = false).
  { subst w5.
    apply (ks_check_door_state
             (fun c => leak_detected c = true
                       /\ emergency_stop_active c = false));
      try frame_goal.
    apply (ks_check_for_leaks
             (fun c => leak_detected c = true
                       /\ emergency_stop_active c = false));
      try frame_goal.
    now split. }
  destruct K5 as [L5 E5].
  split; [now apply update_safety_state_danger|]. split.
  - apply (ks_update_safety_state (fun c => emergency_stop_active c = false));
      try frame_goal.
    exact E5.
  - rewrite ec_update_safety_state. subst w5.
    rewrite ec_check_door_state, ec_check_for_leaks. now rewrite C3, C2.
Qed.

(** C1, as stated, fails, twice.  With the button held down, the second tick
    finds the monitor already in EMERGENCY and fires [on_emergency_stop]
    again.  And a leak detected during a session leaves the monitor in
    DANGER, not EMERGENCY, without any [on_emergency_stop]. *)
Lemma held_button_fires_again :
  let w := run [CmdStartShower 38 None; PressEmergencyButton; SafetyTick]
               (main.initialize default_config 1000) in
  let v := run [CmdStartShower 38 None; SimulateLeak; SafetyTick]
               (main.initialize default_config 1000) in
  safety_state (safety w) = SafetyState.EMERGENCY
  /\ emergency_button_pressed (safety w) = true
  /\ emergency_count w = 1%nat
  /\ safety_state (safety (step SafetyTick w)) = SafetyState.EMERGENCY
  /\ emergency_count (step SafetyTick w) = 2%nat
  /\ leak_detected (safety v) = true
  /\ safety_state (safety v) = SafetyState.DANGER
  /\ emergency_count v = 0%nat.
Proof. cbv zeta. repeat split. Qed.

(** C1, amended: with the coordinator's handlers installed, the emergency
    button (seen pressed at a tick), the session duration (seen exceeded at
    a tick) and the door timer (expiring while the door is closed) each call
    the monitor's [emergency_stop].  Every call sets the latch
    [emergency_stop_active] and fires [on_emergency_stop] once: the event is
    fired per call, level-triggered.  A tick with the button pressed ends in
    EMERGENCY and fires the event once more whatever the state was before,
    EMERGENCY included.  The coordinator's handler stops the session, which
    leaves the safety state SAFE until the end of the next tick restores
    EMERGENCY.  A newly detected leak, with no button pressed and no
    emergency latched, does not enter EMERGENCY: the tick ends in DANGER
    with no [on_emergency_stop] fired. *)
Theorem emergency_stop_fires_on_every_call (w : World) :
  on_emergency_stop (safety w) = Some _on_emergency_stop ->
  on_leak_detected (safety w) = Some _on_leak_detected ->
  (forall r,
      let w' := main.safety_emergency_stop r w in
      latched (safety w')
      /\ emergency_count w' = S (emergency_count w)
      /\ safety_state (safety w') = SafetyState.SAFE
      /\ safety_state (safety (main.safety_tick w')) = SafetyState.EMERGENCY)
  /\ (emergency_button_pressed (safety w) = true ->
      let w' := main.safety_tick w in
      safety_state (safety w') = SafetyState.EMERGENCY
      /\ latched (safety w')
      /\ emergency_count w' = S (emergency_count w))
  /\ (safety_monitor.duration_exceeded w = true ->
      safety_monitor.check_shower_duration main.invoke_safety w
      = main.safety_emergency_stop "Maximum shower duration exceeded" w)
  /\ (forall i,
      safety_monitor.due i w = true ->
      door_state (safety w) = SensorState.CLOSED ->
      let w' := main.door_timer_fires i w in
      latched (safety w')
      /\ emergency_count w' = S (emergency_count w)
      /\ safety_state (safety (main.safety_tick w')) = SafetyState.EMERGENCY)
  /\ (leak_sensor_active (safety w) = true ->
      leak_detected (safety w) = false ->
      emergency_button_pressed (safety w) = false ->
      emergency_stop_active (safety w) = false ->
      let w' := main.safety_tick w in
      safety_state (safety w') = SafetyState.DANGER
      /\ emergency_stop_active (safety w') = false
      /\ emergency_count w' = emergency_count w).
Proof.
  intros Hs Hk. split; [|split; [|split; [|split]]].
  - intros r w'. subst w'.
    destruct (emergency_stop_call r w Hs) as (L & C & _ & S & _).
    repeat split; try assumption. now apply safety_tick_latched.
  - intros Hb. now apply button_tick.
  - intros Hd. unfold safety_monitor.check_shower_duration, when.
    now rewrite Hd.
  - intros i Hd Hc w'. subst w'.
    destruct (door_timeout_call i w Hs Hd Hc) as [L C].
    repeat split; try assumption. now apply safety_tick_latched.
  - intros Ha Hl Hb He. now apply leak_tick.
Qed.

Lemma emergency_stop_fires_on_every_call_witness :
  let w := run [CmdStartShower 38 None; PressEmergencyButton; SafetyTick]
               (main.initialize default_config 1000) in
  safety_state (safety w) = SafetyState.EMERGENCY
  /\ emergency_count (main.safety_tick w) = S (emergency_count w).
Proof.
  cbv zeta. split; [reflexivity|].
  refine (proj2 (proj2 (proj1 (proj2
    (emergency_stop_fires_on_every_call
       (run [CmdStartShower 38 None; PressEmergencyButton; SafetyTick]
            (main.initialize default_config 1000)) _ _)) _)));
    reflexivity.
Defined.

End Emergency.

(** ** The door timer *)

Section DoorTimer.
Import SafetyMonitor.

Lemma tm_upd_water f : same timers (upd_water f).
Proof. intros []. reflexivity. Qed.

Lemma tm_upd_os f : same timers (upd_os f).
Proof. intros []. reflexivity. Qed.

Lemma tm_emit e : same timers (emit e).
Proof. intros []. reflexivity. Qed.

Lemma tm_advance_clock dt : same timers (advance_clock dt).
Proof. intros []. reflexivity. Qed.

Lemma tm_upd_safety f :
  (forall c, door_timer (f c) = door_timer c) -> same timers (upd_safety f).
Proof. intros Hf [? sa ? ? ? ?]. unfold timers. cbn. now rewrite Hf. Qed.

Lemma tm_fire_water slot e : same timers (fire main.invoke_water slot e).
Proof.
  intros w. rewrite fire_invoke_water. destruct (slot w); [|reflexivity].
  apply tm_emit.
Qed.

Ltac tm := repeat first
  [ apply vs_skip | apply tm_emit | apply tm_upd_water | apply tm_upd_os
  | apply tm_fire_water | apply vs_when | apply vs_seq ].

Ltac tm_field := apply tm_upd_safety; intros c; destruct c; reflexivity.

Lemma tm_stop_flow : same timers (water_control.stop_flow main.invoke_water).
Proof. unfold water_control.stop_flow, water_control._close_valves. tm. Qed.

Lemma tm_start_flow t : same timers (water_control.start_flow main.invoke_water t).
Proof.
  unfold water_control.start_flow, water_control._open_valves.
  apply vs_seq; [|tm].
  intros w. destruct t; [apply tm_upd_water | reflexivity].
Qed.

Lemma tm_set_temperature t : same timers (water_control.set_temperature t).
Proof.
  intros w. unfold water_control.set_temperature.
  destruct (Qgt_bool _ _); [|reflexivity].
  apply vs_seq; [apply tm_upd_water | apply vs_skip].
Qed.

Lemma tm_set_flow_rate r : same timers (water_control.set_flow_rate r).
Proof. unfold water_control.set_flow_rate, water_control._adjust_flow_valves. tm. Qed.

Lemma tm_water_tick : same timers main.water_tick.
Proof.
  unfold main.water_tick, water_control._control_loop, water_control._check_safety.
  apply vs_seq; [|apply vs_seq].
  - unfold water_control._read_sensors. apply vs_when. intros w.
    destruct (Qgt_bool _ _); [|reflexivity].
    apply vs_seq; [apply tm_upd_water | apply tm_fire_water].
  - apply vs_when. intros w. unfold water_control._adjust_temperature.
    destruct (Qgt_bool (Qabs _) _); [|reflexivity].
    apply vs_seq; [|apply vs_skip].
    destruct (Qgt_bool _ 0); apply tm_upd_water.
  - repeat first [apply tm_stop_flow | apply vs_skip | apply vs_when | apply vs_seq].
Qed.

(** Invariants and their combinators. *)

Lemma pr_skip I : preserves I skip.
Proof. intros w H. exact H. Qed.

Lemma pr_seq I (a b : M) : preserves I a -> preserves I b -> preserves I (a ;; b).
Proof. intros Ha Hb w H. apply Hb, Ha, H. Qed.

Lemma pr_when I (c : World -> bool) (a : M) : preserves I a -> preserves I (when c a).
Proof. intros Ha w H. unfold when. destruct (c w); [now apply Ha | exact H]. Qed.

Lemma inv_same (m : M) : same timers m -> preserves timer_inv m.
Proof.
  intros Hm w I i [k [Hk Hp]].
  pose proof (Hm w) as E. unfold timers in E. injection E as E1 E2.
  rewrite E1. apply I. exists k. now rewrite <- E2.
Qed.

Lemma pr_fire_safety slot e :
  (forall h, preserves timer_inv (main.invoke_safety h)) ->
  preserves timer_inv (fire main.invoke_safety slot e).
Proof.
  intros Hi w H. unfold fire. destruct (slot w); [|exact H].
  apply Hi. revert H. apply inv_same, tm_emit.
Qed.

Lemma cancel_not_pending (k : Task.t) : Task.state (Task.cancel k) <> Task.Pending.
Proof. destruct k as [d []]; cbn; discriminate. Qed.

Lemma tasks_upd_tasks f (w : World) : tasks (upd_tasks f w) = f (tasks w).
Proof. destruct w. reflexivity. Qed.

Lemma tasks_upd_safety f (w : World) : tasks (upd_safety f w) = tasks w.
Proof. destruct w. reflexivity. Qed.

Lemma cancel_door_timer_tasks (w : World) :
  tasks (safety_monitor.cancel_door_timer w)
  = cancelled (door_timer (safety w)) (tasks w).
Proof.
  unfold safety_monitor.cancel_door_timer, cancelled.
  destruct (door_timer (safety w)); [apply tasks_upd_tasks | reflexivity].
Qed.

Lemma cancel_no_pending (w : World) :
  timer_inv w -> no_pending (safety_monitor.cancel_door_timer w).
Proof.
  intros I j [k [Hk Hp]]. rewrite cancel_door_timer_tasks in Hk.
  unfold cancelled in Hk. destruct (door_timer (safety w)) as [i|] eqn:Hd.
  - rewrite nth_error_update_nth in Hk.
    destruct (Nat.eqb i j) eqn:Hij.
    + destruct (nth_error (tasks w) j) as [k0|]; [|discriminate].
      cbn in Hk. injection Hk as <-. now apply (cancel_not_pending k0).
    + assert (Hj : door_timer (safety w) = Some j) by (apply I; now exists k).
      rewrite Hd in Hj. injection Hj as ->.
      now rewrite Nat.eqb_refl in Hij.
  - assert (Hj : door_timer (safety w) = Some j) by (apply I; now exists k).
    congruence.
Qed.

Lemma no_pending_inv (w : World) : no_pending w -> timer_inv w.
Proof. intros N i Hp. now destruct (N i). Qed.

Lemma no_pending_tasks (w v : World) :
  tasks v = tasks w -> no_pending w -> no_pending v.
Proof. intros E N i [k [Hk Hp]]. apply (N i). exists k. now rewrite <- E. Qed.

Lemma create_door_timeout_task_spec (w : World) :
  let w' := safety_monitor.create_door_timeout_task w in
  tasks w' = tasks w
             ++ [Task.mk (clock w + door_timeout (safety w)) Task.Pending]
  /\ door_timer (safety w') = Some (List.length (tasks w)).
Proof.
  destruct w as [? sa ? ? ? ?]; destruct sa. split; reflexivity.
Qed.

Lemma create_inv (w : World) :
  no_pending w -> timer_inv (safety_monitor.create_door_timeout_task w).
Proof.
  intros N. destruct (create_door_timeout_task_spec w) as [Et Eh].
  intros j [k [Hk Hp]]. rewrite Eh. rewrite Et in Hk.
  destruct (Nat.lt_ge_cases j (List.length (tasks w))) as [Hlt|Hge].
  - rewrite nth_error_app1 in Hk by exact Hlt.
    destruct (N j). now exists k.
  - rewrite nth_error_app2 in Hk by exact Hge.
    destruct (j - List.length (tasks w))%nat as [|n] eqn:Hn.
    + f_equal. lia.
    + cbn in Hk. now destruct n.
Qed.

Lemma pr_start_door_timer : preserves timer_inv safety_monitor.start_door_timer.
Proof. intros w I. apply create_inv. now apply cancel_no_pending. Qed.

Lemma pr_cancel_door_timer : preserves timer_inv safety_monitor.cancel_door_timer.
Proof. intros w I. now apply no_pending_inv, cancel_no_pending. Qed.

Lemma pr_reset_door_timer : preserves timer_inv safety_monitor.reset_door_timer.
Proof. apply pr_seq; [apply pr_cancel_door_timer | apply pr_start_door_timer]. Qed.

Lemma pr_start_shower_session :
  preserves timer_inv safety_monitor.start_shower_session.
Proof.
  unfold safety_monitor.start_shower_session.
  apply pr_seq; [|apply pr_seq].
  - intros w. apply inv_same. tm_field.
  - apply inv_same. tm_field.
  - apply pr_start_door_timer.
Qed.

Lemma pr_stop_shower_session :
  preserves timer_inv safety_monitor.stop_shower_session.
Proof.
  unfold safety_monitor.stop_shower_session.
  apply pr_seq; [|apply pr_seq].
  - intros w I. destruct (door_timer (safety w)) eqn:Hd; [|exact I].
    apply no_pending_inv. unfold seq.
    eapply no_pending_tasks; [apply tasks_upd_safety|].
    now apply cancel_no_pending.
  - apply inv_same. tm_field.
  - apply inv_same. tm_field.
Qed.

Lemma pr_stop_shower_body : preserves timer_inv main.stop_shower_body.
Proof.
  unfold main.stop_shower_body, main.audio_stop_playback.
  apply pr_seq; [apply inv_same, tm_stop_flow|].
  apply pr_seq; [apply inv_same, tm_emit|].
  apply pr_seq; [apply pr_stop_shower_session | apply inv_same, tm_upd_os].
Qed.

Lemma pr_start_shower_body t a : preserves timer_inv (main.start_shower_body t a).
Proof.
  unfold main.start_shower_body, main.audio_start_playback.
  apply pr_seq; [apply inv_same, tm_start_flow|].
  apply pr_seq.
  - apply inv_same. destruct a as [s|]; [destruct (main.truthy_str _)|]; tm.
  - apply pr_seq; [apply pr_start_shower_session | apply inv_same, tm_upd_os].
Qed.

Lemma pr_invoke_safety (h : SafetyHandler) :
  preserves timer_inv (main.invoke_safety h).
Proof.
  destruct h; cbn [main.invoke_safety]; unfold main.send_emergency_notification.
  - apply pr_reset_door_timer.
  - apply pr_start_door_timer.
  - apply pr_seq; [apply pr_stop_shower_body | apply inv_same, tm_emit].
  - apply pr_seq; [apply inv_same, tm_upd_os|].
    apply pr_seq; [apply pr_stop_shower_body | apply inv_same, tm_emit].
Qed.

Lemma pr_emergency_stop r : preserves timer_inv (main.safety_emergency_stop r).
Proof.
  unfold main.safety_emergency_stop, safety_monitor.emergency_stop.
  apply pr_seq; [apply inv_same; tm_field|].
  apply pr_seq; [apply inv_same; tm_field|].
  apply pr_fire_safety, pr_invoke_safety.
Qed.

Lemma pr_finish (i : nat) :
  preserves timer_inv
    (upd_tasks (update_nth i (fun k => Task.mk (Task.deadline k) Task.Finished))).
Proof.
  intros w I j [k [Hk Hp]]. rewrite ss_upd_tasks.
  rewrite tasks_upd_tasks, nth_error_update_nth in Hk.
  destruct (Nat.eqb i j).
  - destruct (nth_error (tasks w) j); [|discriminate].
    cbn in Hk. injection Hk as <-. discriminate.
  - apply I. now exists k.
Qed.

Lemma pr_door_timer_fires i : preserves timer_inv (main.door_timer_fires i).
Proof.
  unfold main.door_timer_fires, safety_monitor.run_door_timeout,
    safety_monitor._door_timeout_handler.
  apply pr_when, pr_seq; [apply pr_finish|].
  apply pr_when, pr_emergency_stop.
Qed.

Lemma pr_safety_tick : preserves timer_inv main.safety_tick.
Proof.
  intros w I. rewrite safety_tick_blocks.
  apply inv_same;
    [intros v; unfold safety_monitor._update_safety_state;
     repeat match goal with
            | |- context [if ?b then _ else _] => destruct b
            end; tm_field|].
  assert (R : preserves timer_inv safety_monitor.check_door_state).
  { intros v Iv. unfold safety_monitor.check_door_state.
    destruct (_ && _); [exact Iv|].
    destruct (_ && _); [now apply pr_reset_door_timer | exact Iv]. }
  apply R.
  apply (pr_when timer_inv _
           (upd_safety (set_safety_state SafetyState.DANGER) ;;
            fire main.invoke_safety (fun w => on_safety_warning (safety w))
              (fun _ => Ev_on_safety_warning "Water leak detected"))).
  { apply pr_seq; [apply inv_same; tm_field|].
    apply pr_fire_safety, pr_invoke_safety. }
  apply (pr_when timer_inv _
           (main.safety_emergency_stop "Maximum shower duration exceeded")).
  { apply pr_emergency_stop. }
  apply (pr_when timer_inv _
           (main.safety_emergency_stop "Emergency button pressed")).
  { apply pr_emergency_stop. }
  apply (pr_when timer_inv _
           (upd_safety (set_leak_detected true) ;;
            fire main.invoke_safety (fun w => on_leak_detected (safety w))
              (fun _ => Ev_on_leak_detected))).
  { apply pr_seq; [apply inv_same; tm_field|].
    apply pr_fire_safety, pr_invoke_safety. }
  assert (T : forall old, preserves timer_inv
                (safety_monitor.trigger_door_events main.invoke_safety old)).
  { intros old v Iv. unfold safety_monitor.trigger_door_events.
    destruct (negb _); [|exact Iv].
    destruct (SensorState.eqb _ _); revert Iv.
    - apply pr_seq; [apply inv_same; tm_field|].
      apply pr_fire_safety, pr_invoke_safety.
    - apply (pr_fire_safety _ _ pr_invoke_safety). }
  apply T. revert I. apply inv_same.
  intros v. unfold safety_monitor.read_door_sensor. tm_field.
Qed.

Lemma pr_step (s : Step) : preserves timer_inv (step s).
Proof.
  destruct s; cbn [step snd main.start_shower main.stop_shower].
  - apply inv_same, tm_water_tick.
  - apply pr_safety_tick.
  - apply pr_door_timer_fires.
  - apply pr_start_shower_body.
  - apply pr_stop_shower_body.
  - apply inv_same, tm_set_temperature.
  - apply inv_same, tm_set_flow_rate.
  - apply pr_emergency_stop.
  - apply inv_same, tm_upd_os.
  - apply inv_same. tm_field.
  - apply inv_same. tm_field.
  - apply inv_same. tm_field.
  - apply inv_same. tm_field.
  - apply inv_same. tm_field.
  - apply inv_same. tm_field.
  - apply inv_same, tm_advance_clock.
  - apply pr_seq; [apply inv_same, tm_start_flow | apply inv_same, tm_emit].
  - apply pr_seq; [apply pr_start_shower_session | apply inv_same, tm_upd_os].
  - apply pr_seq; [apply inv_same, tm_stop_flow | apply inv_same, tm_emit].
  - apply pr_seq; [apply pr_stop_shower_session | apply inv_same, tm_upd_os].
Qed.

Lemma reachable_timer_inv (cfg : Config) (now : Q) (w : World) :
  reachable cfg now w -> timer_inv w.
Proof.
  induction 1 as [|w s _ IH].
  - intros i [k [Hk _]]. cbn in Hk. now destruct i.
  - now apply pr_step.
Qed.


End DoorTimer.

(** ** Door edges *)

Section DoorEdges.
Import WaterController SafetyMonitor.

#[local] Arguments Qplus : simpl never.









End DoorEdges.

(** ** Invariants of the water controller over every transition *)

Section WaterInvariant.
Import WaterController.

Lemma start_flow_water (t : option Q) (w : World) :
  water (water_control.start_flow main.invoke_water t w)
  = started_water
      match t with
      | Some x => set_target_temperature
                    (water_control.clamp_temperature (water w) x) (water w)
      | None => water w
      end.
Proof.
  unfold water_control.start_flow, water_control._open_valves, seq.
  rewrite fire_invoke_water.
  destruct w as [wa ? ? ? ? ?], t; cbn [water upd_water];
    match goal with
    | |- context [match ?o with Some _ => _ | None => _ end] => destruct o
    end; reflexivity.
Qed.

Lemma set_temperature_water (t : Q) (w : World) :
  water (water_control.set_temperature t w)
  = if Qgt_bool (Qabs (water_control.clamp_temperature (water w) t
                       - target_temperature (water w))) (1#2)
    then set_target_temperature
           (water_control.clamp_temperature (water w) t) (water w)
    else water w.
Proof.
  unfold water_control.set_temperature.
  destruct (Qgt_bool _ _); [|reflexivity]. now destruct w.
Qed.

Lemma set_flow_rate_water (r : Q) (w : World) :
  water (water_control.set_flow_rate r w)
  = WaterController.set_flow_rate (py_max 0 (py_min 15 r)) (water w).
Proof. now destruct w. Qed.

Lemma adjust_temperature_water (w : World) :
  water (water_control._adjust_temperature w)
  = if Qgt_bool (Qabs (temp_error w)) (1#2)
    then if Qgt_bool (temp_error w) 0
         then set_mixer_valve_position
                (py_min 1 (mixer_valve_position (water w) + (1#100))) (water w)
         else set_mixer_valve_position
                (py_max 0 (mixer_valve_position (water w) - (1#100))) (water w)
    else water w.
Proof.
  unfold water_control._adjust_temperature, temp_error.
  destruct (Qgt_bool (Qabs _) _); [|reflexivity].
  destruct (Qgt_bool _ 0); now destruct w.
Qed.

Variable P : WaterController.t -> Prop.

Hypothesis P_target :
  forall x c, P c -> P (set_target_temperature (water_control.clamp_temperature c x) c).
Hypothesis P_started : forall c, P c -> P (started_water c).
Hypothesis P_shut : forall c, P c -> P (shut_water c).
Hypothesis P_flow_rate :
  forall r c, P c -> P (WaterController.set_flow_rate (py_max 0 (py_min 15 r)) c).
Hypothesis P_read :
  forall c,
    flow_state c <> FlowState.STOPPED ->
    1#10 < Qabs (target_temperature c - current_temperature c) ->
    P c ->
    P (set_current_temperature
         (current_temperature c
          + (target_temperature c - current_temperature c) * (1#10)) c).
Hypothesis P_mixer_up :
  forall c, P c ->
    P (set_mixer_valve_position (py_min 1 (mixer_valve_position c + (1#100))) c).
Hypothesis P_mixer_down :
  forall c, P c ->
    P (set_mixer_valve_position (py_max 0 (mixer_valve_position c - (1#100))) c).

Lemma wi_start_flow t : keeps P (water_control.start_flow main.invoke_water t).
Proof.
  intros w H. rewrite start_flow_water. apply P_started.
  destruct t; [now apply P_target | exact H].
Qed.

Lemma wi_stop_flow : keeps P (water_control.stop_flow main.invoke_water).
Proof.
  intros w H.
  change (water_control.stop_flow main.invoke_water w)
    with (do_stop call_stop_flow w).
  rewrite do_stop_water. now apply P_shut.
Qed.

Lemma wi_set_temperature t : keeps P (water_control.set_temperature t).
Proof.
  intros w H. rewrite set_temperature_water.
  destruct (Qgt_bool _ _); [now apply P_target | exact H].
Qed.

Lemma wi_set_flow_rate r : keeps P (water_control.set_flow_rate r).
Proof. intros w H. rewrite set_flow_rate_water. now apply P_flow_rate. Qed.

Lemma wi_read_sensors : keeps P (water_control._read_sensors main.invoke_water).
Proof.
  intros w H. rewrite read_sensors_water.
  destruct (negb _ && _) eqn:E; [|exact H].
  apply andb_true_iff in E. destruct E as [E1 E2].
  apply Qgt_bool_true in E2. unfold temp_error in *.
  apply P_read; [|exact E2|exact H].
  intros Hs. rewrite Hs in E1. discriminate E1.
Qed.

Lemma wi_adjust_temperature : keeps P water_control._adjust_temperature.
Proof.
  intros w H. rewrite adjust_temperature_water.
  destruct (Qgt_bool (Qabs _) _); [|exact H].
  destruct (Qgt_bool _ 0); [now apply P_mixer_up | now apply P_mixer_down].
Qed.

Lemma wi_check_safety : keeps P (water_control._check_safety main.invoke_water).
Proof.
  unfold water_control._check_safety.
  repeat first [apply wi_stop_flow | apply keeps_skip | apply keeps_when
               | apply keeps_seq].
Qed.

Lemma wi_water_tick : keeps P main.water_tick.
Proof.
  unfold main.water_tick, water_control._control_loop.
  repeat first [apply wi_read_sensors | apply wi_adjust_temperature
               | apply wi_check_safety | apply keeps_when | apply keeps_seq].
Qed.

Lemma wi_stop_shower_body : keeps P main.stop_shower_body.
Proof.
  unfold main.stop_shower_body, main.audio_stop_playback.
  apply keeps_seq; [apply wi_stop_flow|].
  apply keeps_same.
  apply same_seq; [apply same_emit|].
  apply same_seq; [apply same_stop_shower_session | apply same_upd_os].
Qed.

Lemma wi_start_shower_body t a : keeps P (main.start_shower_body t a).
Proof.
  unfold main.start_shower_body, main.audio_start_playback.
  apply keeps_seq; [apply wi_start_flow|].
  apply keeps_same. apply same_seq.
  - destruct a as [s|]; [destruct (main.truthy_str _)|];
      first [apply same_emit | apply same_skip].
  - apply same_seq; [apply same_start_shower_session | apply same_upd_os].
Qed.

Lemma wi_invoke_safety (h : SafetyHandler) : keeps P (main.invoke_safety h).
Proof.
  destruct h; cbn [main.invoke_safety]; unfold main.send_emergency_notification.
  - apply keeps_same, same_reset_door_timer.
  - apply keeps_same, same_start_door_timer.
  - apply keeps_seq; [apply wi_stop_shower_body | apply keeps_same, same_emit].
  - apply keeps_seq; [apply keeps_same, same_upd_os|].
    apply keeps_seq; [apply wi_stop_shower_body | apply keeps_same, same_emit].
Qed.

Lemma wi_safety_emergency_stop r : keeps P (main.safety_emergency_stop r).
Proof.
  unfold main.safety_emergency_stop, safety_monitor.emergency_stop.
  apply keeps_seq; [apply keeps_same, same_upd_safety|].
  apply keeps_seq; [apply keeps_same, same_upd_safety|].
  apply keeps_fire, wi_invoke_safety.
Qed.

Lemma wi_door_timer_fires i : keeps P (main.door_timer_fires i).
Proof.
  unfold main.door_timer_fires, safety_monitor.run_door_timeout,
    safety_monitor._door_timeout_handler.
  apply keeps_when, keeps_seq; [apply keeps_same, same_upd_tasks|].
  apply keeps_when, wi_safety_emergency_stop.
Qed.

Lemma wi_safety_tick : keeps P main.safety_tick.
Proof.
  intros w H. rewrite safety_tick_blocks.
  rewrite same_update_safety_state.
  assert (F : forall slot e, keeps P (fire main.invoke_safety slot e))
    by (intros slot e; apply keeps_fire, wi_invoke_safety).
  assert (D : keeps P safety_monitor.check_door_state).
  { intros v Hv. unfold safety_monitor.check_door_state.
    destruct (_ && _); [exact Hv|].
    destruct (_ && _); [now rewrite same_reset_door_timer | exact Hv]. }
  apply D.
  apply (keeps_when P _
           (upd_safety (SafetyMonitor.set_safety_state SafetyState.DANGER) ;;
            fire main.invoke_safety
              (fun w => SafetyMonitor.on_safety_warning (safety w))
              (fun _ => Ev_on_safety_warning "Water leak detected"))).
  { apply keeps_seq; [apply keeps_same, same_upd_safety | apply F]. }
  apply (keeps_when P _
           (main.safety_emergency_stop "Maximum shower duration exceeded")).
  { apply wi_safety_emergency_stop. }
  apply (keeps_when P _ (main.safety_emergency_stop "Emergency button pressed")).
  { apply wi_safety_emergency_stop. }
  apply (keeps_when P _
           (upd_safety (SafetyMonitor.set_leak_detected true) ;;
            fire main.invoke_safety
              (fun w => SafetyMonitor.on_leak_detected (safety w))
              (fun _ => Ev_on_leak_detected))).
  { apply keeps_seq; [apply keeps_same, same_upd_safety | apply F]. }
  assert (T : forall old, keeps P
                (safety_monitor.trigger_door_events main.invoke_safety old)).
  { intros old v Hv. unfold safety_monitor.trigger_door_events.
    destruct (negb _); [|exact Hv].
    destruct (SensorState.eqb _ _); revert Hv.
    - apply keeps_seq; [apply keeps_same, same_upd_safety | apply F].
    - apply F. }
  apply T. unfold safety_monitor.read_door_sensor.
  now rewrite same_upd_safety.
Qed.

Lemma wi_step (s : Step) : keeps P (step s).
Proof.
  destruct s; cbn [step snd main.start_shower main.stop_shower].
  - apply wi_water_tick.
  - apply wi_safety_tick.
  - apply wi_door_timer_fires.
  - apply wi_start_shower_body.
  - apply wi_stop_shower_body.
  - apply wi_set_temperature.
  - apply wi_set_flow_rate.
  - apply wi_safety_emergency_stop.
  - apply keeps_same, same_upd_os.
  - apply keeps_same, same_upd_safety.
  - apply keeps_same, same_upd_safety.
  - apply keeps_same, same_upd_safety.
  - apply keeps_same, same_upd_safety.
  - apply keeps_same, same_upd_safety.
  - apply keeps_same, same_upd_safety.
  - apply keeps_same, same_advance_clock.
  - apply keeps_seq; [apply wi_start_flow | apply keeps_same, same_emit].
  - apply keeps_same, same_seq;
      [apply same_start_shower_session | apply same_upd_os].
  - apply keeps_seq; [apply wi_stop_flow | apply keeps_same, same_emit].
  - apply keeps_same, same_seq;
      [apply same_stop_shower_session | apply same_upd_os].
Qed.

Lemma wi_reachable (cfg : Config) (now : Q) (w : World) :
  P (water (main.initialize cfg now)) -> reachable cfg now w -> P (water w).
Proof.
  intros H0. induction 1 as [|w s _ IH]; [exact H0|]. now apply wi_step.
Qed.

End WaterInvariant.

(** ** What the water controller guarantees in every reachable state *)

Section WaterGuarantees.
Import WaterController.

#[local] Arguments Qplus : simpl never.
#[local] Arguments Qminus : simpl never.
#[local] Arguments Qmult : simpl never.
#[local] Arguments Qle : simpl never.
#[local] Arguments Qlt : simpl never.
#[local] Arguments Qabs : simpl never.
#[local] Arguments py_max : simpl never.
#[local] Arguments py_min : simpl never.

Ltac wframe :=
  first [ intros ? c0 ?; destruct c0; assumption
        | intros c0 ? ? ?; destruct c0; assumption
        | intros c0 ?; destruct c0; assumption ].

(** X1.  [set_flow_rate] clamps the request into 0..15 l/min and records it;
    it touches nothing else, in particular not the valves: on a stopped
    controller the recorded flow rate becomes positive while the valve stays
    CLOSED. *)
Theorem set_flow_rate_clamps (r : Q) (w : World) :
  let w' := water_control.set_flow_rate r w in
  0 <= flow_rate (water w') /\ flow_rate (water w') <= 15
  /\ (0 <= r -> r <= 15 -> flow_rate (water w') == r)
  /\ (r < 0 -> flow_rate (water w') == 0)
  /\ (15 < r -> flow_rate (water w') == 15)
  /\ valve_state (water w') = valve_state (water w)
  /\ flow_state (water w') = flow_state (water w)
  /\ hot_valve_open (water w') = hot_valve_open (water w)
  /\ cold_valve_open (water w') = cold_valve_open (water w)
  /\ safety w' = safety w /\ trace w' = trace w.
Proof.
  cbv zeta.
  assert (B : 0 <= py_max 0 (py_min 15 r) /\ py_max 0 (py_min 15 r) <= 15)
    by (apply py_clamp_bounds; lra).
  assert (E : flow_rate (water (water_control.set_flow_rate r w))
              = py_max 0 (py_min 15 r)).
  { rewrite set_flow_rate_water. now destruct (water w). }
  rewrite E. destruct B as [B1 B2].
  split; [exact B1|]. split; [exact B2|].
  split; [intros; now apply py_clamp_inside|].
  split; [intros; unfold py_min; cmp_cases; unfold py_max; cmp_cases; lra|].
  split; [intros; unfold py_min; cmp_cases; unfold py_max; cmp_cases; lra|].
  destruct w as [wa ? ? ? ? ?]; destruct wa. now repeat split.
Qed.

(** X2.  One mixer adjustment moves the mixer towards hot when the water is
    more than half a degree too cold (strictly, unless it is already fully
    open) and towards cold when it is more than half a degree too hot
    (strictly, unless it is already at 0), by one small step (the source
    adds or subtracts 0.01; the step is less than 0.02), leaves it alone
    within half a degree, and never leaves the range 0..1. *)
Theorem adjust_temperature_mixer (w : World) :
  0 <= mixer_valve_position (water w) ->
  mixer_valve_position (water w) <= 1 ->
  let m := mixer_valve_position (water w) in
  let m' := mixer_valve_position (water (water_control._adjust_temperature w)) in
  0 <= m' /\ m' <= 1
  /\ (1#2 < temp_error w ->
      m <= m' /\ (m < 1 -> m < m') /\ m' < m + (1#50))
  /\ (temp_error w < - (1#2) ->
      m' <= m /\ (0 < m -> m' < m) /\ m - (1#50) < m')
  /\ (Qabs (temp_error w) <= 1#2 -> m' = m).
Proof.
  intros L U m m'. subst m m'. rewrite adjust_temperature_water.
  destruct (Qgt_bool (Qabs (temp_error w)) (1#2)) eqn:E.
  - apply Qgt_bool_true in E. apply Qabs_gt_cases in E.
    destruct (Qgt_bool (temp_error w) 0) eqn:S;
      [apply Qgt_bool_true in S | apply Qgt_bool_false in S];
      destruct (water w); cbn in *; unfold py_min, py_max; cmp_cases;
      repeat split; intros; try lra;
      match goal with
      | H : Qabs _ <= _ |- _ => apply Qabs_le_bounds in H; lra
      end.
  - apply Qgt_bool_false in E. pose proof (Qabs_le_bounds _ _ E) as [E1 E2].
    repeat split; intros; lra.
Qed.

Lemma adjust_temperature_mixer_witness :
  let w := upd_water (set_flow_state FlowState.FLOWING)
             (run [CmdStartShower 38 None] (main.initialize default_config 1000)) in
  mixer_valve_position (water w)
  < mixer_valve_position (water (water_control._adjust_temperature w)).
Proof.
  cbv zeta.
  refine (proj1 (proj2 (proj1 (proj2 (proj2
    (adjust_temperature_mixer _ _ _))) _)) _); vm_compute;
    first [reflexivity | discriminate].
Defined.

(** X3.  In every reachable state the supply valves, the valve state and
    the flow state agree: either both supply valves are shut, the valve is
    CLOSED and the flow STOPPED, or both are open, the valve is OPEN and the
    flow ADJUSTING.  The valve state PARTIAL never occurs. *)
Theorem reachable_valves_agree (cfg : Config) (now : Q) (w : World) :
  reachable cfg now w ->
  valves_agree (water w) /\ valve_state (water w) <> ValveState.PARTIAL.
Proof.
  intros R.
  assert (H : valves_agree (water w)).
  { revert R. apply (wi_reachable valves_agree); try wframe.
    - intros c _. destruct c. right. now repeat split.
    - intros c _. destruct c. left. now repeat split.
    - left. now repeat split. }
  split; [exact H|].
  destruct H as [(H & _)|(H & _)]; rewrite H; discriminate.
Qed.

Lemma reachable_valves_agree_witness :
  valves_agree (water (run [CmdStartShower 38 None; WaterTick; CmdStopShower]
                          (main.initialize default_config 1000))).
Proof.
  refine (proj1 (reachable_valves_agree default_config 1000 _ _)).
  cbn [run fold_left]. repeat apply reach_step. apply reach_init.
Defined.

End WaterGuarantees.

Section WaterBounds.
Import WaterController.

#[local] Arguments Qplus : simpl never.
#[local] Arguments Qminus : simpl never.
#[local] Arguments Qmult : simpl never.
#[local] Arguments Qle : simpl never.
#[local] Arguments Qlt : simpl never.
#[local] Arguments Qabs : simpl never.
#[local] Arguments py_max : simpl never.
#[local] Arguments py_min : simpl never.

Ltac bframe :=
  first [ intros ? c0 ?; destruct c0; assumption
        | intros c0 ? ? ?; destruct c0; assumption
        | intros c0 ?; destruct c0; assumption ].

Lemma within_bounds_kept (lo hi : Q) (cfg : Config) (now : Q) (w : World) :
  lo <= hi ->
  within_bounds lo hi (water (main.initialize cfg now)) ->
  reachable cfg now w ->
  within_bounds lo hi (water w).
Proof.
  intros Hb. apply (wi_reachable (within_bounds lo hi)); try bframe.
  - intros x c (Hmin & Hmax & H). 
    pose proof (clamp_temperature_bounds c x) as B.
    rewrite Hmin, Hmax in B. specialize (B Hb).
    destruct c. unfold within_bounds in *. cbn in *.
    subst. now repeat split.
  - intros c Hs Hd (Hmin & Hmax & T1 & T2 & C1 & C2).
    destruct c. unfold within_bounds in *. cbn in *.
    repeat split; try assumption; lra.
Qed.

(** X4.  When the configured default target and the initial water
    temperature lie within the configured bounds, the target and the
    measured temperature lie within [[min_temperature, max_temperature]] in
    every reachable state, the bounds themselves never change, and so the
    over-temperature guard of the safety check is never true. *)
Theorem temperatures_stay_within_bounds (cfg : Config) (now : Q) (w : World) :
  consistent cfg ->
  reachable cfg now w ->
  within_bounds (cfg_min_temperature cfg) (cfg_max_temperature cfg) (water w)
  /\ Qgt_bool (current_temperature (water w)) (max_temperature (water w)) = false.
Proof.
  intros (C1 & C2 & C3 & C4) R.
  assert (H : within_bounds (cfg_min_temperature cfg) (cfg_max_temperature cfg)
                (water w)).
  { revert R. apply within_bounds_kept; [lra|].
    unfold within_bounds. cbn. now repeat split. }
  split; [exact H|].
  destruct H as (_ & Hmax & _ & _ & _ & Hc).
  apply Qgt_bool_elim. now rewrite Hmax.
Qed.

Lemma temperatures_stay_within_bounds_witness :
  within_bounds 20 45
    (water (run [CmdStartShower 100 None; WaterTick; CmdSetTemperature (-5);
                 WaterTick]
                (main.initialize default_config 1000))).
Proof.
  refine (proj1 (temperatures_stay_within_bounds default_config 1000 _ _ _)).
  - unfold consistent. cbn. repeat split; discriminate.
  - cbn [run fold_left]. repeat apply reach_step. apply reach_init.
Defined.

Lemma rates_in_range_kept (cfg : Config) (now : Q) (w : World) :
  reachable cfg now w -> rates_in_range (water w).
Proof.
  apply (wi_reachable rates_in_range); try bframe.
  - intros c (_ & _ & _ & _ & Pr). destruct c.
    unfold rates_in_range in *. cbn in *. repeat split; try lra; assumption.
  - intros c (_ & _ & _ & _ & Pr). destruct c.
    unfold rates_in_range in *. cbn in *. repeat split; try lra; assumption.
  - intros r c (_ & _ & M1 & M2 & Pr).
    pose proof (py_clamp_bounds 0 15 r ltac:(lra)) as [B1 B2].
    destruct c. unfold rates_in_range in *. cbn in *. now repeat split.
  - intros c (F1 & F2 & M1 & M2 & Pr).
    destruct c. unfold rates_in_range in *. cbn in *.
    repeat split; try assumption; unfold py_min; cmp_cases; lra.
  - intros c (F1 & F2 & M1 & M2 & Pr).
    destruct c. unfold rates_in_range in *. cbn in *.
    repeat split; try assumption; unfold py_max; cmp_cases; lra.
  - unfold rates_in_range. cbn. repeat split; lra.
Qed.

(** X5.  In every reachable state the flow rate lies within 0..15 l/min and
    the mixer position within 0..1.  The pressure attribute is never
    assigned after construction: it is 0 in every reachable state, so the
    over-pressure guard of the safety check is never true. *)
Theorem reachable_rates_in_range (cfg : Config) (now : Q) (w : World) :
  reachable cfg now w ->
  rates_in_range (water w) /\ Qgt_bool (pressure (water w)) 5 = false.
Proof.
  intros R. pose proof (rates_in_range_kept _ _ _ R) as H.
  split; [exact H|].
  destruct H as (_ & _ & _ & _ & Pr). rewrite Pr. reflexivity.
Qed.

Lemma reachable_rates_in_range_witness :
  rates_in_range
    (water (run [CmdStartShower 38 None; CmdSetFlowRate 99; WaterTick]
                (main.initialize default_config 1000))).
Proof.
  refine (proj1 (reachable_rates_in_range default_config 1000 _ _)).
  cbn [run fold_left]. repeat apply reach_step. apply reach_init.
Defined.

(** X6.  With a consistent configuration the water control loop never
    intervenes: in every reachable state an iteration of the loop is exactly
    the simulated sensor read, whose only effect on the controller is to move
    the measured temperature (the controller is the same up to its
    [current_temperature]); valves, flow state, flow rate, mixer and target
    are left as they were, and the safety monitor is not touched. *)
Theorem water_loop_only_reads (cfg : Config) (now : Q) (w : World) :
  consistent cfg ->
  reachable cfg now w ->
  main.water_tick w = water_control._read_sensors main.invoke_water w
  /\ set_current_temperature 0 (water (main.water_tick w))
     = set_current_temperature 0 (water w)
  /\ safety (main.water_tick w) = safety w.
Proof.
  intros C R.
  assert (R1 : reachable cfg now (main.water_tick w))
    by (apply (reach_step cfg now w WaterTick R)).
  assert (E : main.water_tick w
              = water_control._check_safety main.invoke_water
                  (water_control._read_sensors main.invoke_water w)).
  { pose proof (nf_read_sensors w (reachable_never_flowing _ _ _ R)) as N.
    unfold main.water_tick, water_control._control_loop, seq, when.
    now rewrite (never_flowing_eqb _ N). }
  set (w1 := water_control._read_sensors main.invoke_water w) in *.
  assert (B1 : within_bounds (cfg_min_temperature cfg)
                 (cfg_max_temperature cfg) (water w1)
               /\ rates_in_range (water w1)).
  { destruct C as (C1 & C2 & C3 & C4). split.
    - apply (wi_read_sensors (within_bounds _ _)).
      + intros c Hs Hd (Hmin & Hmax & T1 & T2 & K1 & K2).
        destruct c. unfold within_bounds in *. cbn in *.
        repeat split; try assumption; lra.
      + apply (within_bounds_kept _ _ cfg now w); [lra| |exact R].
        unfold within_bounds. cbn. now repeat split.
    - apply (wi_read_sensors rates_in_range); [bframe|].
      now apply (rates_in_range_kept cfg now). }
  destruct B1 as ((_ & Hmax & _ & _ & _ & Hc) & (_ & _ & _ & _ & Pr)).
  assert (E2 : water_control._check_safety main.invoke_water w1 = w1).
  { assert (G : Qgt_bool (current_temperature (water w1))
                          (max_temperature (water w1)) = false)
      by (apply Qgt_bool_elim; now rewrite Hmax).
    unfold water_control._check_safety, seq. rewrite when_skip.
    unfold when. rewrite G, Pr. reflexivity. }
  rewrite E2 in E. split; [exact E|]. rewrite E. subst w1.
  rewrite read_sensors_water, ss_water_read_sensors.
  destruct (negb _ && _); destruct (water w); now repeat split.
Qed.

Lemma water_loop_only_reads_witness :
  let w := run [CmdStartShower 38 None; WaterTick]
               (main.initialize default_config 1000) in
  main.water_tick w = water_control._read_sensors main.invoke_water w.
Proof.
  cbv zeta.
  refine (proj1 (water_loop_only_reads default_config 1000 _ _ _)).
  - unfold consistent. cbn. repeat split; discriminate.
  - cbn [run fold_left]. repeat apply reach_step. apply reach_init.
Defined.

End WaterBounds.

(** ** Convergence of the measured temperature over the control loop *)

Section TickConvergence.
Import WaterController.

#[local] Arguments Qplus : simpl never.
#[local] Arguments Qminus : simpl never.
#[local] Arguments Qmult : simpl never.
#[local] Arguments Qle : simpl never.
#[local] Arguments Qlt : simpl never.
#[local] Arguments Qabs : simpl never.
#[local] Arguments py_max : simpl never.
#[local] Arguments py_min : simpl never.

Ltac tframe :=
  first [ intros ? c0 ?; destruct c0; assumption
        | intros c0 ? ? ?; destruct c0; assumption
        | intros c0 ?; destruct c0; assumption ].

(** What follows the sensor read in an iteration of the loop. *)
Lemma water_tick_after_read (w : World) :
  main.water_tick w
  = water_control._check_safety main.invoke_water
      (when (fun w => FlowState.eqb (flow_state (water w)) FlowState.FLOWING)
            water_control._adjust_temperature
            (water_control._read_sensors main.invoke_water w)).
Proof. reflexivity. Qed.

(** Neither the mixer adjustment nor the safety check touches the measured
    temperature, the target or the bounds. *)
Lemma water_tick_temperatures (w : World) :
  let r := water_control._read_sensors main.invoke_water w in
  let w' := main.water_tick w in
  current_temperature (water w') = current_temperature (water r)
  /\ target_temperature (water w') = target_temperature (water w)
  /\ max_temperature (water w') = max_temperature (water w).
Proof.
  cbv zeta. rewrite water_tick_after_read.
  set (r := water_control._read_sensors main.invoke_water w).
  assert (T : target_temperature (water r) = target_temperature (water w)
              /\ max_temperature (water r) = max_temperature (water w)).
  { subst r. rewrite read_sensors_water.
    destruct (negb _ && _); destruct (water w); now split. }
  destruct T as [T1 T2]. rewrite <- T1, <- T2.
  pose (P := fun c : WaterController.t =>
               current_temperature c = current_temperature (water r)
               /\ target_temperature c = target_temperature (water r)
               /\ max_temperature c = max_temperature (water r)).
  change (P (water (water_control._check_safety main.invoke_water
                      (when (fun w => FlowState.eqb (flow_state (water w))
                                                    FlowState.FLOWING)
                            water_control._adjust_temperature r)))).
  apply (wi_check_safety P); try (subst P; tframe).
  apply (keeps_when P).
  - apply (wi_adjust_temperature P); subst P; tframe.
  - subst P. now repeat split.
Qed.

Lemma temp_error_eq (w v : World) :
  current_temperature (water v) = current_temperature (water w) ->
  target_temperature (water v) = target_temperature (water w) ->
  temp_error v = temp_error w.
Proof. unfold temp_error. now intros -> ->. Qed.

(** A stopped flow stays stopped over an iteration, the reading with it. *)
Lemma water_tick_stopped (w : World) :
  flow_state (water w) = FlowState.STOPPED ->
  flow_state (water (main.water_tick w)) = FlowState.STOPPED
  /\ current_temperature (water (main.water_tick w))
     = current_temperature (water w).
Proof.
  intros Hs. destruct (water_tick_temperatures w) as (Ec & _ & _).
  rewrite Ec, (read_stopped w Hs). split; [|reflexivity].
  rewrite water_tick_after_read.
  pose (P := fun c : WaterController.t => flow_state c = FlowState.STOPPED).
  change (P (water (water_control._check_safety main.invoke_water
                      (when (fun w => FlowState.eqb (flow_state (water w))
                                                    FlowState.FLOWING)
                            water_control._adjust_temperature
                            (water_control._read_sensors main.invoke_water w))))).
  apply (wi_check_safety P).
  { intros c _. now destruct c. }
  apply (keeps_when P).
  - apply (wi_adjust_temperature P); subst P; tframe.
  - subst P. cbv beta. now rewrite (read_stopped w Hs).
Qed.

Lemma ticks_stopped (n : nat) (w : World) :
  flow_state (water w) = FlowState.STOPPED ->
  current_temperature (water (ticks n w)) = current_temperature (water w).
Proof.
  revert w. induction n as [|n IH]; intros w Hs; [reflexivity|].
  cbn [ticks]. destruct (water_tick_stopped w Hs) as [Hs' Ec].
  now rewrite IH, Ec.
Qed.

Lemma water_tick_inside_band (w : World) :
  Qabs (temp_error w) <= 1#10 ->
  current_temperature (water (main.water_tick w))
  = current_temperature (water w)
  /\ temp_error (main.water_tick w) = temp_error w.
Proof.
  intros Hb. destruct (water_tick_temperatures w) as (Ec & Et & _).
  rewrite (read_inside_band w Hb) in Ec.
  split; [exact Ec | now apply temp_error_eq].
Qed.

Lemma ticks_inside_band (n : nat) (w : World) :
  Qabs (temp_error w) <= 1#10 ->
  current_temperature (water (ticks n w)) = current_temperature (water w).
Proof.
  revert w. induction n as [|n IH]; intros w Hb; [reflexivity|].
  cbn [ticks]. destruct (water_tick_inside_band w Hb) as [Ec Ee].
  rewrite IH, Ec; [reflexivity|]. now rewrite Ee.
Qed.

(** A reading above the maximum makes the safety check stop the flow. *)
Lemma water_tick_over_max (w : World) :
  max_temperature (water w)
  < current_temperature (water (main.water_tick w)) ->
  flow_state (water (main.water_tick w)) = FlowState.STOPPED.
Proof.
  intros H. destruct (water_tick_temperatures w) as (Ec & _ & Em).
  rewrite water_tick_after_read in *.
  set (v := when _ water_control._adjust_temperature _) in *.
  assert (G : Qgt_bool (current_temperature (water v)) (max_temperature (water v))
              = true).
  { apply Qgt_bool_intro.
    assert (K : current_temperature
                  (water (water_control._check_safety main.invoke_water v))
                = current_temperature (water v)
                /\ max_temperature
                     (water (water_control._check_safety main.invoke_water v))
                   = max_temperature (water v)).
    { pose (P := fun c : WaterController.t =>
                   current_temperature c = current_temperature (water v)
                   /\ max_temperature c = max_temperature (water v)).
      change (P (water (water_control._check_safety main.invoke_water v))).
      apply (wi_check_safety P); subst P; try tframe.
      now split. }
    destruct K as [K1 K2]. rewrite <- K1, <- K2, Em. exact H. }
  unfold water_control._check_safety, seq.
  unfold when at 3. rewrite G.
  set (v1 := water_control.stop_flow main.invoke_water v).
  assert (S1 : flow_state (water v1) = FlowState.STOPPED).
  { subst v1. change (water_control.stop_flow main.invoke_water)
      with (do_stop call_stop_flow). apply do_stop_shut. }
  rewrite when_skip. revert S1.
  pose (P := fun c : WaterController.t => flow_state c = FlowState.STOPPED).
  change (P (water v1) ->
          P (water (when (fun w => Qgt_bool (pressure (water w)) 5)
                         (water_control.stop_flow main.invoke_water) v1))).
  apply (keeps_when P).
  apply (wi_stop_flow P). intros c _. now destruct c.
Qed.

(** With a consistent configuration an iteration of the loop is the sensor
    read and nothing more. *)
Lemma water_tick_is_read (cfg : Config) (now : Q) (w : World) :
  consistent cfg ->
  reachable cfg now w ->
  main.water_tick w = water_control._read_sensors main.invoke_water w.
Proof.
  intros C R.
  assert (E : main.water_tick w
              = water_control._check_safety main.invoke_water
                  (water_control._read_sensors main.invoke_water w)).
  { pose proof (nf_read_sensors w (reachable_never_flowing _ _ _ R)) as N.
    unfold main.water_tick, water_control._control_loop, seq, when.
    now rewrite (never_flowing_eqb _ N). }
  set (w1 := water_control._read_sensors main.invoke_water w) in *.
  assert (B1 : within_bounds (cfg_min_temperature cfg)
                 (cfg_max_temperature cfg) (water w1)
               /\ rates_in_range (water w1)).
  { destruct C as (C1 & C2 & C3 & C4). split.
    - apply (wi_read_sensors (within_bounds _ _)).
      + intros c Hs Hd (Hmin & Hmax & T1 & T2 & K1 & K2).
        destruct c. unfold within_bounds in *. cbn in *.
        repeat split; try assumption; lra.
      + apply (within_bounds_kept _ _ cfg now w); [lra| |exact R].
        unfold within_bounds. cbn. now repeat split.
    - apply (wi_read_sensors rates_in_range); [tframe|].
      now apply (rates_in_range_kept cfg now). }
  destruct B1 as ((_ & Hmax & _ & _ & _ & Hc) & (_ & _ & _ & _ & Pr)).
  assert (G : Qgt_bool (current_temperature (water w1))
                        (max_temperature (water w1)) = false)
    by (apply Qgt_bool_elim; now rewrite Hmax).
  rewrite E. unfold water_control._check_safety, seq. rewrite when_skip.
  unfold when. rewrite G, Pr. reflexivity.
Qed.

Lemma ticks_are_reads (cfg : Config) (now : Q) (n : nat) (w : World) :
  consistent cfg ->
  reachable cfg now w ->
  ticks n w = reads n w.
Proof.
  intros C. revert w. induction n as [|n IH]; intros w R; [reflexivity|].
  cbn [ticks reads]. rewrite <- (water_tick_is_read cfg now w C R).
  apply IH. apply (reach_step cfg now w WaterTick R).
Qed.

(** C8, as stated, fails: a session started at 20.05 degrees while the water
    is at 20.0 has a nonzero error, yet no number of ticks moves the
    measured temperature: the sequence is constant, not strictly monotonic,
    and gets no closer to the target. *)
Lemma small_error_never_corrected :
  let w := run [CmdStartShower (401#20) None]
               (main.initialize default_config 1000) in
  flow_state (water w) = FlowState.ADJUSTING
  /\ temp_error w == 1#20
  /\ (forall n, current_temperature (water (ticks n w))
                = current_temperature (water w))
  /\ ~ current_temperature (water w)
       < current_temperature (water (run [WaterTick] w)).
Proof.
  cbv zeta. split; [reflexivity|]. split; [vm_compute; reflexivity|]. split.
  - intros n. apply ticks_inside_band. vm_compute. discriminate.
  - vm_compute. intros H. discriminate H.
Qed.

(** C8, amended: an iteration of the control loop never changes the target.
    While the flow is not STOPPED and the error |target - current| exceeds
    the 0.1 degree dead band, an iteration moves the measured temperature
    strictly toward the target, rising when it was below and falling when it
    was above, and leaves it strictly on its side of the target (no
    overshoot).  Once the error is within 0.1, or once the flow is STOPPED,
    no number of iterations changes the measured temperature: the sequence
    is constant from then on, at a distance from the target that need not
    be zero.  An iteration that ends with the measured temperature above
    [max_temperature] ends with the flow STOPPED, and the temperature stays
    where it is whatever its distance from the target.  With a consistent
    configuration that does not happen: from every reachable state with the
    flow not STOPPED, finitely many iterations bring the error within
    0.1. *)
Theorem water_ticks_approach_target (cfg : Config) (now : Q) (w : World) :
  let w' := main.water_tick w in
  target_temperature (water w') = target_temperature (water w)
  /\ (flow_state (water w) <> FlowState.STOPPED ->
      1#10 < temp_error w ->
      current_temperature (water w) < current_temperature (water w')
      /\ current_temperature (water w') < target_temperature (water w))
  /\ (flow_state (water w) <> FlowState.STOPPED ->
      temp_error w < - (1#10) ->
      current_temperature (water w') < current_temperature (water w)
      /\ target_temperature (water w) < current_temperature (water w'))
  /\ (Qabs (temp_error w) <= 1#10
      \/ flow_state (water w) = FlowState.STOPPED ->
      forall n, current_temperature (water (ticks n w))
                = current_temperature (water w))
  /\ (max_temperature (water w) < current_temperature (water w') ->
      flow_state (water w') = FlowState.STOPPED
      /\ forall n, current_temperature (water (ticks n w'))
                   = current_temperature (water w'))
  /\ (consistent cfg -> reachable cfg now w ->
      flow_state (water w) <> FlowState.STOPPED ->
      exists n, Qabs (temp_error (ticks n w)) <= 1#10).
Proof.
  cbv zeta. destruct (water_tick_temperatures w) as (Ec & Et & _).
  split; [exact Et|]. split; [|split; [|split; [|split]]].
  - intros Hf Hb.
    assert (Hb' : 1#10 < Qabs (temp_error w))
      by (rewrite Qabs_pos by lra; exact Hb).
    destruct (read_outside_band w Hf Hb') as (_ & _ & Fc & _).
    rewrite Ec, Fc. unfold temp_error in *. split; lra.
  - intros Hf Hb.
    assert (Hb' : 1#10 < Qabs (temp_error w))
      by (rewrite Qabs_neg by lra; lra).
    destruct (read_outside_band w Hf Hb') as (_ & _ & Fc & _).
    rewrite Ec, Fc. unfold temp_error in *. split; lra.
  - intros [Hb|Hs] n; [now apply ticks_inside_band | now apply ticks_stopped].
  - intros H. pose proof (water_tick_over_max w H) as Hs.
    split; [exact Hs|]. intros n. now apply ticks_stopped.
  - intros C R Hf. destruct (reads_reach_band w Hf) as [n Hn].
    exists n. now rewrite (ticks_are_reads cfg now n w C R).
Qed.

Lemma water_ticks_approach_target_witness :
  let w := run [CmdStartShower 38 None] (main.initialize default_config 1000) in
  (current_temperature (water w)
   < current_temperature (water (main.water_tick w))
   /\ current_temperature (water (main.water_tick w))
      < target_temperature (water w))
  /\ exists n, Qabs (temp_error (ticks n w)) <= 1#10.
Proof.
  cbv zeta.
  pose proof (water_ticks_approach_target default_config 1000
                (run [CmdStartShower 38 None]
                     (main.initialize default_config 1000))) as H.
  cbv zeta in H. destruct H as (_ & Hup & _ & _ & _ & Hc).
  split.
  - apply Hup; [vm_compute; discriminate | vm_compute; reflexivity].
  - apply Hc.
    + unfold consistent. cbn. repeat split; discriminate.
    + cbn [run fold_left]. repeat apply reach_step. apply reach_init.
    + vm_compute. discriminate.
Defined.

End TickConvergence.

(** ** Invariants of the whole system over every transition *)

Section CoreView.

Lemma cs_upd_water f : same core (upd_water f).
Proof. intros []. reflexivity. Qed.

Lemma cs_emit e : same core (emit e).
Proof. intros []. reflexivity. Qed.

Lemma cs_fire_water slot e : same core (fire main.invoke_water slot e).
Proof.
  intros w. rewrite fire_invoke_water. destruct (slot w); [|reflexivity].
  apply cs_emit.
Qed.

Ltac cs := repeat first
  [ apply vs_skip | apply cs_emit | apply cs_upd_water | apply cs_fire_water
  | apply vs_when | apply vs_seq ].

Lemma cs_stop_flow : same core (water_control.stop_flow main.invoke_water).
Proof. unfold water_control.stop_flow, water_control._close_valves. cs. Qed.

Lemma cs_start_flow t : same core (water_control.start_flow main.invoke_water t).
Proof.
  unfold water_control.start_flow, water_control._open_valves.
  apply vs_seq; [|cs].
  intros w. destruct t; [apply cs_upd_water | reflexivity].
Qed.

Lemma cs_set_temperature t : same core (water_control.set_temperature t).
Proof.
  intros w. unfold water_control.set_temperature.
  destruct (Qgt_bool _ _); [|reflexivity].
  apply vs_seq; [apply cs_upd_water | apply vs_skip].
Qed.

Lemma cs_set_flow_rate r : same core (water_control.set_flow_rate r).
Proof. unfold water_control.set_flow_rate, water_control._adjust_flow_valves. cs. Qed.

Lemma cs_water_tick : same core main.water_tick.
Proof.
  unfold main.water_tick, water_control._control_loop, water_control._check_safety.
  apply vs_seq; [|apply vs_seq].
  - unfold water_control._read_sensors. apply vs_when. intros w.
    destruct (Qgt_bool _ _); [|reflexivity].
    apply vs_seq; [apply cs_upd_water | apply cs_fire_water].
  - apply vs_when. intros w. unfold water_control._adjust_temperature.
    destruct (Qgt_bool (Qabs _) _); [|reflexivity].
    apply vs_seq; [|apply vs_skip].
    destruct (Qgt_bool _ 0); apply cs_upd_water.
  - repeat first [apply cs_stop_flow | apply vs_skip | apply vs_when | apply vs_seq].
Qed.

End CoreView.

Section SystemInvariant.
Import SafetyMonitor.
Variable I : World -> Prop.

Hypothesis I_emit : forall e, preserves I (emit e).
Hypothesis I_water_tick : preserves I main.water_tick.
Hypothesis I_set_temperature :
  forall t, preserves I (water_control.set_temperature t).
Hypothesis I_set_flow_rate :
  forall r, preserves I (water_control.set_flow_rate r).

Hypothesis I_start_door_timer : preserves I safety_monitor.start_door_timer.
Hypothesis I_reset_door_timer : preserves I safety_monitor.reset_door_timer.
Hypothesis I_stop_shower : preserves I main.stop_shower_body.
Hypothesis I_start_shower : forall t a, preserves I (main.start_shower_body t a).
Hypothesis I_coordinator_flag :
  forall v, preserves I (upd_os (SmartShowerOS.set_emergency_stop v)).
Hypothesis I_latch : preserves I latch_emergency.
Hypothesis I_door_block : preserves I door_block.
Hypothesis I_leak_flag : preserves I (upd_safety (set_leak_detected true)).
Hypothesis I_danger :
  preserves I (upd_safety (set_safety_state SafetyState.DANGER)).
Hypothesis I_update : preserves I safety_monitor._update_safety_state.
Hypothesis I_timeout : forall i, preserves I (main.door_timer_fires i).
Hypothesis I_door_line : forall v, preserves I (upd_safety (set_door_sensor_active v)).
Hypothesis I_leak_line : forall v, preserves I (upd_safety (set_leak_sensor_active v)).
Hypothesis I_button_line :
  forall v, preserves I (upd_safety (set_emergency_button_pressed v)).
Hypothesis I_clock : forall dt, preserves I (advance_clock dt).
Hypothesis I_start_flow :
  forall t, preserves I (water_control.start_flow main.invoke_water t).
Hypothesis I_stop_flow : preserves I (water_control.stop_flow main.invoke_water).
Hypothesis I_start_resumes : preserves I main.start_shower_after_playback.
Hypothesis I_stop_resumes : preserves I main.stop_shower_after_playback.

Lemma si_invoke (h : SafetyHandler) : preserves I (main.invoke_safety h).
Proof.
  destruct h; cbn [main.invoke_safety]; unfold main.send_emergency_notification.
  - apply I_reset_door_timer.
  - apply I_start_door_timer.
  - apply pr_seq; [apply I_stop_shower | apply I_emit].
  - apply pr_seq; [apply I_coordinator_flag|].
    apply pr_seq; [apply I_stop_shower | apply I_emit].
Qed.

Lemma si_fire slot e : preserves I (fire main.invoke_safety slot e).
Proof.
  intros w H. unfold fire. destruct (slot w); [|exact H].
  apply si_invoke. revert H. apply I_emit.
Qed.

Lemma si_emergency_stop r : preserves I (main.safety_emergency_stop r).
Proof.
  intros w H.
  change (main.safety_emergency_stop r w)
    with (fire main.invoke_safety (fun w => on_emergency_stop (safety w))
            (fun _ => Ev_on_emergency_stop) (latch_emergency w)).
  now apply si_fire, I_latch.
Qed.

Lemma si_safety_tick : preserves I main.safety_tick.
Proof.
  intros w H. rewrite safety_tick_blocks.
  apply I_update.
  assert (D : preserves I safety_monitor.check_door_state).
  { intros v Hv. unfold safety_monitor.check_door_state.
    destruct (_ && _); [exact Hv|].
    destruct (_ && _); [now apply I_reset_door_timer | exact Hv]. }
  apply D.
  apply (pr_when I _
           (upd_safety (set_safety_state SafetyState.DANGER) ;;
            fire main.invoke_safety (fun w => on_safety_warning (safety w))
              (fun _ => Ev_on_safety_warning "Water leak detected"))).
  { apply pr_seq; [apply I_danger | apply si_fire]. }
  apply (pr_when I _
           (main.safety_emergency_stop "Maximum shower duration exceeded")).
  { apply si_emergency_stop. }
  apply (pr_when I _ (main.safety_emergency_stop "Emergency button pressed")).
  { apply si_emergency_stop. }
  apply (pr_when I _
           (upd_safety (set_leak_detected true) ;;
            fire main.invoke_safety (fun w => on_leak_detected (safety w))
              (fun _ => Ev_on_leak_detected))).
  { apply pr_seq; [apply I_leak_flag | apply si_fire]. }
  now apply I_door_block.
Qed.

Lemma si_step (s : Step) : preserves I (step s).
Proof.
  destruct s; cbn [step snd main.start_shower main.stop_shower].
  - apply I_water_tick.
  - apply si_safety_tick.
  - apply I_timeout.
  - apply I_start_shower.
  - apply I_stop_shower.
  - apply I_set_temperature.
  - apply I_set_flow_rate.
  - apply si_emergency_stop.
  - apply I_coordinator_flag.
  - apply I_door_line.
  - apply I_door_line.
  - apply I_leak_line.
  - apply I_leak_line.
  - apply I_button_line.
  - apply I_button_line.
  - apply I_clock.
  - apply pr_seq; [apply I_start_flow | apply I_emit].
  - apply I_start_resumes.
  - apply pr_seq; [apply I_stop_flow | apply I_emit].
  - apply I_stop_resumes.
Qed.

Lemma si_reachable (cfg : Config) (now : Q) (w : World) :
  I (main.initialize cfg now) -> reachable cfg now w -> I w.
Proof.
  intros H0. induction 1 as [|w s _ IH]; [exact H0|]. now apply si_step.
Qed.

End SystemInvariant.

(** ** The WARNING state *)

Section Warning.
Import WaterController SafetyMonitor.

#[local] Arguments Qplus : simpl never.
#[local] Arguments Qminus : simpl never.
#[local] Arguments Qle_bool : simpl never.
#[local] Arguments Qeq_bool : simpl never.

Ltac sframe :=
  first [ intros ? c0 ?; destruct c0; assumption
        | intros c0 ?; destruct c0; assumption ].

Lemma sound_same (w v : World) :
  safety v = safety w -> tasks v = tasks w -> sound w -> sound v.
Proof.
  intros Es Et. unfold sound, safety_monitor.door_timer_done.
  now rewrite Es, Et.
Qed.

Lemma sound_core (w v : World) : core v = core w -> sound w -> sound v.
Proof.
  unfold core. intros E. injection E as Es _ Et _. now apply sound_same.
Qed.

Lemma start_door_timer_not_done (w : World) :
  safety_monitor.door_timer_done (safety_monitor.start_door_timer w) = false.
Proof.
  open_world w.
  unfold safety_monitor.start_door_timer, safety_monitor.cancel_door_timer,
    safety_monitor.create_door_timeout_task, safety_monitor.door_timer_done, seq.
  cbn. destruct door_timer0; cbn; now rewrite nth_error_snoc.
Qed.

Lemma reset_door_timer_not_done (w : World) :
  safety_monitor.door_timer_done (safety_monitor.reset_door_timer w) = false.
Proof.
  unfold safety_monitor.reset_door_timer, seq. apply start_door_timer_not_done.
Qed.

Lemma sound_start_door_timer : preserves sound safety_monitor.start_door_timer.
Proof.
  intros w (W & S & _). split; [|split].
  - revert W. apply (ks_start_door_timer wired). sframe.
  - revert S. apply (ks_start_door_timer
                       (fun c => safety_state c <> SafetyState.WARNING)). sframe.
  - right. right. apply start_door_timer_not_done.
Qed.

Lemma sound_reset_door_timer : preserves sound safety_monitor.reset_door_timer.
Proof.
  intros w (W & S & _). split; [|split].
  - revert W. apply (ks_reset_door_timer wired). sframe.
  - revert S. apply (ks_reset_door_timer
                       (fun c => safety_state c <> SafetyState.WARNING)). sframe.
  - right. right. apply reset_door_timer_not_done.
Qed.

Lemma stop_shower_body_result (w : World) :
  door_timer (safety (main.stop_shower_body w)) = None
  /\ safety_state (safety (main.stop_shower_body w)) = SafetyState.SAFE
  /\ shower_start_time (safety (main.stop_shower_body w)) = None
  /\ SmartShowerOS.shower_active (os (main.stop_shower_body w)) = false.
Proof.
  open_world w.
  unfold main.stop_shower_body, water_control.stop_flow,
    water_control._close_valves, safety_monitor.stop_shower_session,
    safety_monitor.cancel_door_timer, main.audio_stop_playback, fire, seq.
  cbn. destruct on_flow_stop0 as [[]|], door_timer0; cbn; now repeat split.
Qed.

Lemma sound_stop_shower : preserves sound main.stop_shower_body.
Proof.
  intros w (W & _ & _).
  destruct (stop_shower_body_result w) as (Hd & Hs & _).
  split; [|split].
  - revert W. apply (ks_stop_shower_body wired); sframe.
  - rewrite Hs. discriminate.
  - right. right. unfold safety_monitor.door_timer_done. now rewrite Hd.
Qed.

Lemma start_shower_body_result (t : Q) (a : option string) (w : World) :
  safety_monitor.door_timer_done (main.start_shower_body t a w) = false
  /\ safety_state (safety (main.start_shower_body t a w)) = SafetyState.SAFE
  /\ shower_start_time (safety (main.start_shower_body t a w)) = Some (clock w)
  /\ SmartShowerOS.shower_active (os (main.start_shower_body t a w)) = true.
Proof.
  open_world w.
  unfold main.start_shower_body, water_control.start_flow,
    water_control._open_valves, safety_monitor.start_shower_session,
    safety_monitor.start_door_timer, safety_monitor.cancel_door_timer,
    safety_monitor.create_door_timeout_task, main.audio_start_playback,
    safety_monitor.door_timer_done, fire, seq.
  cbn.
  destruct on_flow_start0 as [[]|], a as [s|], door_timer0 as [i|]; cbn;
    try destruct (negb _); cbn; rewrite nth_error_snoc; now repeat split.
Qed.

Lemma sound_start_shower t a : preserves sound (main.start_shower_body t a).
Proof.
  intros w (W & _ & _).
  destruct (start_shower_body_result t a w) as (Hd & Hs & _).
  split; [|split].
  - revert W. apply (ks_start_shower_body wired); sframe.
  - rewrite Hs. discriminate.
  - right. right. exact Hd.
Qed.

Lemma stop_shower_after_playback_result (w : World) :
  door_timer (safety (main.stop_shower_after_playback w)) = None
  /\ safety_state (safety (main.stop_shower_after_playback w)) = SafetyState.SAFE
  /\ shower_start_time (safety (main.stop_shower_after_playback w)) = None
  /\ SmartShowerOS.shower_active (os (main.stop_shower_after_playback w)) = false
  /\ water (main.stop_shower_after_playback w) = water w
  /\ emergency_stop_active (safety (main.stop_shower_after_playback w))
     = emergency_stop_active (safety w).
Proof.
  open_world w.
  unfold main.stop_shower_after_playback, safety_monitor.stop_shower_session,
    safety_monitor.cancel_door_timer, seq.
  cbn. destruct door_timer0; cbn; now repeat split.
Qed.

Lemma start_shower_after_playback_result (w : World) :
  safety_monitor.door_timer_done (main.start_shower_after_playback w) = false
  /\ safety_state (safety (main.start_shower_after_playback w)) = SafetyState.SAFE
  /\ shower_start_time (safety (main.start_shower_after_playback w))
     = Some (clock w)
  /\ SmartShowerOS.shower_active (os (main.start_shower_after_playback w)) = true
  /\ water (main.start_shower_after_playback w) = water w.
Proof.
  open_world w.
  unfold main.start_shower_after_playback, safety_monitor.start_shower_session,
    safety_monitor.start_door_timer, safety_monitor.cancel_door_timer,
    safety_monitor.create_door_timeout_task, safety_monitor.door_timer_done, seq.
  cbn. destruct door_timer0 as [i|]; cbn; rewrite nth_error_snoc;
    now repeat split.
Qed.

Lemma sound_stop_resumes : preserves sound main.stop_shower_after_playback.
Proof.
  intros w (W & _ & _).
  destruct (stop_shower_after_playback_result w) as (Hd & Hs & _).
  split; [|split].
  - revert W. unfold main.stop_shower_after_playback.
    apply (ks_seq wired);
      [apply (ks_stop_shower_session wired); sframe | apply ks_same, ss_upd_os].
  - rewrite Hs. discriminate.
  - right. right. unfold safety_monitor.door_timer_done. now rewrite Hd.
Qed.

Lemma sound_start_resumes : preserves sound main.start_shower_after_playback.
Proof.
  intros w (W & _ & _).
  destruct (start_shower_after_playback_result w) as (Hd & Hs & _).
  split; [|split].
  - revert W. unfold main.start_shower_after_playback.
    apply (ks_seq wired);
      [apply (ks_start_shower_session wired); sframe | apply ks_same, ss_upd_os].
  - rewrite Hs. discriminate.
  - right. right. exact Hd.
Qed.

Lemma sound_latch : preserves sound latch_emergency.
Proof.
  intros w (W & _ & _). unfold latch_emergency, seq.
  destruct w as [? sa ? ? ? ?]; destruct sa. cbn in *.
  split; [exact W|]. split; [discriminate | now left].
Qed.

Lemma sound_field (f : SafetyMonitor.t -> SafetyMonitor.t) :
  (forall c, wired (f c) <-> wired c) ->
  (forall c, safety_state c <> SafetyState.WARNING ->
             safety_state (f c) <> SafetyState.WARNING) ->
  (forall c, emergency_stop_active (f c) = emergency_stop_active c) ->
  (forall c, door_state (f c) = door_state c) ->
  (forall c, door_timer (f c) = door_timer c) ->
  preserves sound (upd_safety f).
Proof.
  intros Hw Hs He Hd Ht w (W & S & D).
  destruct w as [? sa ? ? ? ?].
  unfold sound, safety_monitor.door_timer_done in *. cbn in *.
  rewrite He, Hd, Ht. split; [now apply Hw|]. split; [now apply Hs | exact D].
Qed.

Ltac sound_field_frame :=
  apply sound_field; intros c; destruct c; cbn; try tauto; try reflexivity;
  intros; discriminate.

Lemma door_block_result (w : World) :
  wired (safety w) ->
  let w2 := door_block w in
  wired (safety w2)
  /\ safety_state (safety w2) = safety_state (safety w)
  /\ emergency_stop_active (safety w2) = emergency_stop_active (safety w)
  /\ ((door_state (safety w2) = door_state (safety w)
       /\ safety_monitor.door_timer_done w2 = safety_monitor.door_timer_done w)
      \/ safety_monitor.door_timer_done w2 = false).
Proof.
  open_world w. unfold wired. cbn [safety on_door_open on_door_close
    on_leak_detected on_emergency_stop on_safety_warning].
  intros (-> & -> & -> & -> & ->).
  unfold door_block, safety_monitor.read_door_sensor,
    safety_monitor.trigger_door_events, main.invoke_safety,
    safety_monitor.reset_door_timer, safety_monitor.start_door_timer,
    safety_monitor.cancel_door_timer, safety_monitor.create_door_timeout_task,
    safety_monitor.door_timer_done, fire, seq.
  cbn.
  destruct door_sensor_active0, door_state0, door_timer0 as [i|]; cbn;
    rewrite ?nth_error_snoc;
    (split; [now repeat split|]); (split; [reflexivity|]);
    (split; [reflexivity|]);
    first [ right; reflexivity | left; split; reflexivity ].
Qed.

Lemma sound_door_block : preserves sound door_block.
Proof.
  intros w (W & S & D).
  destruct (door_block_result w W) as (W2 & S2 & E2 & H2).
  split; [exact W2|]. split; [now rewrite S2|].
  destruct H2 as [[Hd Ht]|Ht].
  - now rewrite E2, Hd, Ht.
  - now right; right.
Qed.

Lemma sound_set_state (s : SafetyState.t) :
  s <> SafetyState.WARNING ->
  preserves sound (upd_safety (set_safety_state s)).
Proof.
  intros Hs w (W & _ & D). destruct w as [? sa ? ? ? ?]; destruct sa.
  unfold sound, safety_monitor.door_timer_done in *. cbn in *.
  split; [exact W|]. split; [exact Hs | exact D].
Qed.

Lemma sound_update : preserves sound safety_monitor._update_safety_state.
Proof.
  intros w H. pose proof H as (W & S & D).
  unfold safety_monitor._update_safety_state.
  destruct (emergency_stop_active (safety w)) eqn:He;
    [apply sound_set_state; [discriminate | exact H]|].
  destruct (leak_detected (safety w)) eqn:Hl;
    [apply sound_set_state; [discriminate | exact H]|].
  destruct (SensorState.eqb (door_state (safety w)) SensorState.CLOSED
            && safety_monitor.session_active w) eqn:Hc;
    [|apply sound_set_state; [discriminate | exact H]].
  apply andb_true_iff in Hc. destruct Hc as [Hc _].
  assert (Hn : safety_monitor.door_timer_done w = false).
  { destruct D as [D|[D|D]]; [discriminate| |exact D].
    destruct (door_state (safety w)); cbn in Hc; try discriminate.
    now destruct D. }
  rewrite Hn. apply sound_set_state; [discriminate | exact H].
Qed.

Lemma sound_emergency_stop_any (r : string) (w : World) :
  wired (safety w) -> sound (main.safety_emergency_stop r w).
Proof.
  intros W. pose proof W as (_ & _ & _ & We & _).
  destruct (emergency_stop_call r w We) as (L & _ & _ & S & _).
  split; [|split].
  - revert W. apply (ks_emergency_stop wired); sframe.
  - rewrite S. discriminate.
  - now left.
Qed.

Lemma sound_timeout i : preserves sound (main.door_timer_fires i).
Proof.
  intros w (W & S & D).
  unfold main.door_timer_fires, safety_monitor.run_door_timeout, when.
  destruct (safety_monitor.due i w); [|exact (conj W (conj S D))].
  unfold seq, safety_monitor._door_timeout_handler, when.
  rewrite ss_upd_tasks.
  destruct (SensorState.eqb (door_state (safety w)) SensorState.CLOSED) eqn:Hc.
  - apply sound_emergency_stop_any. now rewrite ss_upd_tasks.
  - split; [now rewrite ss_upd_tasks|]. split; [now rewrite ss_upd_tasks|].
    right. left. rewrite ss_upd_tasks. intros E. rewrite E in Hc. discriminate.
Qed.

Lemma sound_step (s : Step) : preserves sound (step s).
Proof.
  apply si_step.
  - intros e w. apply sound_core, cs_emit.
  - intros w. apply sound_core, cs_water_tick.
  - intros t w. apply sound_core, cs_set_temperature.
  - intros r w. apply sound_core, cs_set_flow_rate.
  - apply sound_start_door_timer.
  - apply sound_reset_door_timer.
  - apply sound_stop_shower.
  - apply sound_start_shower.
  - intros v w. apply sound_same; now destruct w.
  - apply sound_latch.
  - apply sound_door_block.
  - sound_field_frame.
  - sound_field_frame.
  - apply sound_update.
  - apply sound_timeout.
  - intros v. sound_field_frame.
  - intros v. sound_field_frame.
  - intros v. sound_field_frame.
  - intros dt w H. destruct w as [? sa ? ? ? ?]. exact H.
  - intros t w. apply sound_core, cs_start_flow.
  - intros w. apply sound_core, cs_stop_flow.
  - apply sound_start_resumes.
  - apply sound_stop_resumes.
Qed.

Lemma sound_initialize (cfg : Config) (now : Q) : sound (main.initialize cfg now).
Proof.
  destruct cfg. split; [now repeat split|].
  split; [discriminate | right; right; reflexivity].
Qed.

Lemma reachable_sound (cfg : Config) (now : Q) (w : World) :
  reachable cfg now w -> sound w.
Proof.
  induction 1 as [|w s _ IH]; [apply sound_initialize | now apply sound_step].
Qed.

(** X7: the safety state WARNING is never entered.  [_update_safety_state]
    selects it when the door is closed during a session and the door timer
    the monitor holds is done, with no emergency latched.  In every state
    the system can reach that combination does not occur: every handle the
    monitor keeps is that of the task created last, a cancelled task is
    dropped or replaced in the same call, and a timer that runs to its end
    while the door is closed latches the emergency.  So a completed timer
    behind a closed door always comes with the latch, and the state chosen
    is EMERGENCY. *)
Theorem warning_is_unreachable (cfg : Config) (now : Q) (w : World) :
  reachable cfg now w ->
  safety_state (safety w) <> SafetyState.WARNING
  /\ (door_state (safety w) = SensorState.CLOSED ->
      safety_monitor.door_timer_done w = true ->
      latched (safety w)).
Proof.
  intros R. destruct (reachable_sound _ _ _ R) as (_ & S & D).
  split; [exact S|]. intros Hc Hd.
  destruct D as [D|[D|D]]; [exact D | contradiction | congruence].
Qed.

Lemma warning_is_unreachable_witness :
  let w := run [CmdStartShower 38 None; SimulateDoorClose; SafetyTick;
                Elapse 601; DoorTimerFires 1; SafetyTick]
               (main.initialize default_config 1000) in
  safety_state (safety w) <> SafetyState.WARNING.
Proof.
  cbv zeta.
  refine (proj1 (warning_is_unreachable default_config 1000 _ _)).
  cbn [run fold_left]. repeat apply reach_step. apply reach_init.
Defined.

End Warning.

(** ** The session: valve, coordinator flag and session start *)

Section SessionView.
Import WaterController SafetyMonitor.

#[local] Arguments Qplus : simpl never.
#[local] Arguments Qminus : simpl never.
#[local] Arguments Qle_bool : simpl never.
#[local] Arguments Qeq_bool : simpl never.

Lemma sv_emit e : same session_view (emit e).
Proof. intros []. reflexivity. Qed.

Lemma sv_upd_tasks f : same session_view (upd_tasks f).
Proof. intros []. reflexivity. Qed.

Lemma sv_advance_clock dt : same session_view (advance_clock dt).
Proof. intros []. reflexivity. Qed.

Lemma sv_coordinator_flag v :
  same session_view (upd_os (SmartShowerOS.set_emergency_stop v)).
Proof. intros [? ? [] ? ? ?]. reflexivity. Qed.

Lemma sv_upd_safety (f : SafetyMonitor.t -> SafetyMonitor.t) :
  (forall c, shower_start_time (f c) = shower_start_time c) ->
  same session_view (upd_safety f).
Proof. intros Hf [? sa ? ? ? ?]. unfold session_view. cbn. now rewrite Hf. Qed.

Lemma sv_upd_water (f : WaterController.t -> WaterController.t) :
  (forall c, valve_state (f c) = valve_state c) ->
  same session_view (upd_water f).
Proof. intros Hf [wa ? ? ? ? ?]. unfold session_view. cbn. now rewrite Hf. Qed.

Lemma sv_core_valve (m : M) :
  same core m -> (forall w, valve_state (water (m w)) = valve_state (water w)) ->
  same session_view m.
Proof.
  intros Hc Hv w. specialize (Hc w). unfold core in Hc.
  injection Hc as Hs Ho _ _. unfold session_view. now rewrite Hs, Ho, Hv.
Qed.

Lemma sv_cancel_door_timer : same session_view safety_monitor.cancel_door_timer.
Proof.
  intros w. unfold safety_monitor.cancel_door_timer.
  destruct (door_timer (safety w)); [apply sv_upd_tasks | reflexivity].
Qed.

Lemma sv_start_door_timer : same session_view safety_monitor.start_door_timer.
Proof.
  apply vs_seq; [apply sv_cancel_door_timer|].
  intros w. unfold safety_monitor.create_door_timeout_task.
  apply vs_seq; [apply sv_upd_tasks | apply sv_upd_safety; now intros []].
Qed.

Lemma sv_reset_door_timer : same session_view safety_monitor.reset_door_timer.
Proof. apply vs_seq; [apply sv_cancel_door_timer | apply sv_start_door_timer]. Qed.

Lemma sv_latch : same session_view latch_emergency.
Proof. apply vs_seq; apply sv_upd_safety; now intros []. Qed.

Lemma sv_update_safety_state :
  same session_view safety_monitor._update_safety_state.
Proof.
  intros w. unfold safety_monitor._update_safety_state.
  repeat match goal with
         | |- context [if ?b then _ else _] => destruct b
         end; apply sv_upd_safety; now intros [].
Qed.

Lemma sv_set_temperature t : same session_view (water_control.set_temperature t).
Proof.
  apply sv_core_valve; [apply cs_set_temperature|].
  intros w. rewrite set_temperature_water.
  destruct (Qgt_bool _ _); [|reflexivity]. now destruct (water w).
Qed.

Lemma sv_set_flow_rate r : same session_view (water_control.set_flow_rate r).
Proof.
  apply sv_core_valve; [apply cs_set_flow_rate|].
  intros w. rewrite set_flow_rate_water. now destruct (water w).
Qed.

Lemma stop_shower_body_closes (w : World) :
  shut (water (main.stop_shower_body w)).
Proof.
  open_world w.
  unfold main.stop_shower_body, water_control.stop_flow,
    water_control._close_valves, safety_monitor.stop_shower_session,
    safety_monitor.cancel_door_timer, main.audio_stop_playback, fire, seq.
  cbn. destruct on_flow_stop0 as [[]|], door_timer0; cbn; now repeat split.
Qed.

Lemma water_tick_keeps_closed :
  keeps (fun c => valve_state c = ValveState.CLOSED) main.water_tick.
Proof.
  apply wi_water_tick; intros; match goal with
    | c : WaterController.t |- _ => destruct c; assumption || reflexivity
    end.
Qed.

End SessionView.

Section ViewInvariant.
Import WaterController SafetyMonitor.
Variable I : World -> Prop.

Hypothesis I_view : forall w v, session_view v = session_view w -> I w -> I v.
Hypothesis I_stop_shower : preserves I main.stop_shower_body.
Hypothesis I_start_shower : forall t a, preserves I (main.start_shower_body t a).
Hypothesis I_water_tick : preserves I main.water_tick.
Hypothesis I_start_flow :
  forall t, preserves I (water_control.start_flow main.invoke_water t).
Hypothesis I_stop_flow : preserves I (water_control.stop_flow main.invoke_water).
Hypothesis I_start_resumes : preserves I main.start_shower_after_playback.
Hypothesis I_stop_resumes : preserves I main.stop_shower_after_playback.

Lemma vi_same (m : M) : same session_view m -> preserves I m.
Proof. intros Hm w H. exact (I_view w (m w) (Hm w) H). Qed.

Lemma vi_upd_safety (f : SafetyMonitor.t -> SafetyMonitor.t) :
  (forall c, shower_start_time (f c) = shower_start_time c) ->
  preserves I (upd_safety f).
Proof. intros Hf. now apply vi_same, sv_upd_safety. Qed.

Lemma vi_fire slot e : preserves I (fire main.invoke_safety slot e).
Proof.
  apply si_fire.
  - intros e0. apply vi_same, sv_emit.
  - apply vi_same, sv_start_door_timer.
  - apply vi_same, sv_reset_door_timer.
  - exact I_stop_shower.
  - intros v. apply vi_same, sv_coordinator_flag.
Qed.

Lemma vi_emergency_stop r : preserves I (main.safety_emergency_stop r).
Proof.
  intros w H.
  change (main.safety_emergency_stop r w)
    with (fire main.invoke_safety (fun w => on_emergency_stop (safety w))
            (fun _ => Ev_on_emergency_stop) (latch_emergency w)).
  apply vi_fire. revert H. apply vi_same, sv_latch.
Qed.

Lemma vi_door_block : preserves I door_block.
Proof.
  intros w H. unfold door_block, safety_monitor.trigger_door_events.
  assert (H1 : I (safety_monitor.read_door_sensor w)).
  { unfold safety_monitor.read_door_sensor. revert H.
    apply vi_upd_safety. now intros []. }
  destruct (negb _); [|exact H1].
  destruct (SensorState.eqb _ _).
  - unfold seq. apply vi_fire. revert H1. apply vi_upd_safety. now intros [].
  - now apply vi_fire.
Qed.

Lemma vi_door_timer_fires i : preserves I (main.door_timer_fires i).
Proof.
  unfold main.door_timer_fires, safety_monitor.run_door_timeout,
    safety_monitor._door_timeout_handler.
  apply pr_when, pr_seq; [apply vi_same, sv_upd_tasks|].
  apply pr_when, vi_emergency_stop.
Qed.

Lemma vi_step (s : Step) : preserves I (step s).
Proof.
  apply si_step.
  - intros e. apply vi_same, sv_emit.
  - exact I_water_tick.
  - intros t. apply vi_same, sv_set_temperature.
  - intros r. apply vi_same, sv_set_flow_rate.
  - apply vi_same, sv_start_door_timer.
  - apply vi_same, sv_reset_door_timer.
  - exact I_stop_shower.
  - exact I_start_shower.
  - intros v. apply vi_same, sv_coordinator_flag.
  - apply vi_same, sv_latch.
  - apply vi_door_block.
  - apply vi_upd_safety. now intros [].
  - apply vi_upd_safety. now intros [].
  - apply vi_same, sv_update_safety_state.
  - apply vi_door_timer_fires.
  - intros v. apply vi_upd_safety. now intros [].
  - intros v. apply vi_upd_safety. now intros [].
  - intros v. apply vi_upd_safety. now intros [].
  - intros dt. apply vi_same, sv_advance_clock.
  - exact I_start_flow.
  - exact I_stop_flow.
  - exact I_start_resumes.
  - exact I_stop_resumes.
Qed.

Lemma vi_reachable (cfg : Config) (now : Q) (w : World) :
  I (main.initialize cfg now) -> reachable cfg now w -> I w.
Proof.
  intros H0. induction 1 as [|w s _ IH]; [exact H0 | now apply vi_step].
Qed.

End ViewInvariant.

Section Session.
Import WaterController SafetyMonitor.

Lemma water_tick_core (w : World) :
  os (main.water_tick w) = os w /\ safety (main.water_tick w) = safety w.
Proof.
  pose proof (cs_water_tick w) as E. unfold core in E.
  injection E as Es Eo _ _. now split.
Qed.

Lemma session_agrees_step (s : Step) : preserves session_agrees (step s).
Proof.
  apply vi_step.
  - intros w v E. unfold session_view in E. injection E as _ Eo Es.
    unfold session_agrees. now rewrite Eo, Es.
  - intros w _. destruct (stop_shower_body_result w) as (_ & _ & Hs & Ho).
    unfold session_agrees. rewrite Hs, Ho. split; [discriminate | congruence].
  - intros t a w _.
    destruct (start_shower_body_result t a w) as (_ & _ & Hs & Ho).
    unfold session_agrees. rewrite Hs, Ho. split; [discriminate | reflexivity].
  - intros w H. destruct (water_tick_core w) as [Eo Es].
    unfold session_agrees. now rewrite Eo, Es.
  - intros t w H. pose proof (cs_start_flow t w) as E. unfold core in E.
    injection E as Es Eo _ _. unfold session_agrees. now rewrite Eo, Es.
  - intros w H. pose proof (cs_stop_flow w) as E. unfold core in E.
    injection E as Es Eo _ _. unfold session_agrees. now rewrite Eo, Es.
  - intros w _.
    destruct (start_shower_after_playback_result w) as (_ & _ & Hs & Ho & _).
    unfold session_agrees. rewrite Hs, Ho. split; [discriminate | reflexivity].
  - intros w _.
    destruct (stop_shower_after_playback_result w) as (_ & _ & Hs & Ho & _).
    unfold session_agrees. rewrite Hs, Ho. split; [discriminate | congruence].
Qed.

(** X8: the coordinator's [shower_active] flag and the monitor's session
    agree in every reachable state: the flag is set exactly when
    [shower_start_time] holds a start time.  [start_shower] sets both,
    [stop_shower] clears both, and every emergency path of the monitor goes
    through the coordinator's handler, which calls [stop_shower]; nothing
    else assigns either of them.  The two assignments follow each other
    after the last call into the audio manager, so this also holds while a
    [start_shower] or [stop_shower] is suspended in that call, and after a
    [start_shower] whose [start_playback] raised. *)
Theorem session_flag_agrees (cfg : Config) (now : Q) (w : World) :
  reachable cfg now w ->
  (SmartShowerOS.shower_active (os w) = true
   <-> shower_start_time (safety w) <> None).
Proof.
  induction 1 as [|w s _ IH].
  - destruct cfg. unfold main.initialize. cbn.
    split; [discriminate | congruence].
  - now apply session_agrees_step.
Qed.

Lemma session_flag_agrees_witness :
  let w := run [CmdStartShower 38 None; PressEmergencyButton; SafetyTick;
                CmdStartShower 40 None]
               (main.initialize default_config 1000) in
  SmartShowerOS.shower_active (os w) = true
  <-> shower_start_time (safety w) <> None.
Proof.
  cbv zeta.
  refine (session_flag_agrees default_config 1000 _ _).
  cbn [run fold_left]. repeat apply reach_step. apply reach_init.
Defined.

End Session.

(** ** Leaks *)

Section Leak.
Import WaterController SafetyMonitor.

#[local] Arguments Qplus : simpl never.
#[local] Arguments Qminus : simpl never.
#[local] Arguments Qle_bool : simpl never.
#[local] Arguments Qeq_bool : simpl never.

Ltac lframe :=
  first [ intros ? c0 ?; destruct c0; assumption
        | intros c0 ?; destruct c0; first [assumption | reflexivity] ].

Lemma leak_kept_step (s : Step) :
  keeps_safety (fun c => leak_detected c = true) (step s).
Proof. apply ks_step; try lframe. Qed.

Lemma leak_kept_run (l : list Step) (w : World) :
  leak_detected (safety w) = true -> leak_detected (safety (run l w)) = true.
Proof.
  revert w. induction l as [|s l IH]; intros w H; [exact H|].
  cbn [run fold_left]. apply IH. now apply leak_kept_step.
Qed.

Lemma update_safety_state_leak (w : World) :
  leak_detected (safety w) = true ->
  let v := safety_monitor._update_safety_state w in
  safety_state (safety v)
  = (if emergency_stop_active (safety v)
     then SafetyState.EMERGENCY else SafetyState.DANGER).
Proof.
  unfold safety_monitor._update_safety_state. intros Hl. rewrite Hl.
  destruct w as [? sa ? ? ? ?]; destruct sa. cbn in *.
  now destruct emergency_stop_active0.
Qed.

Lemma safety_tick_leak (w : World) :
  leak_detected (safety w) = true ->
  let v := main.safety_tick w in
  safety_state (safety v)
  = (if emergency_stop_active (safety v)
     then SafetyState.EMERGENCY else SafetyState.DANGER).
Proof.
  intros Hl. unfold main.safety_tick, safety_monitor._control_loop.
  change ((safety_monitor._read_sensors main.invoke_safety ;;
           safety_monitor._check_safety_conditions main.invoke_safety ;;
           safety_monitor._update_safety_state) w)
    with (safety_monitor._update_safety_state
            ((safety_monitor._read_sensors main.invoke_safety ;;
              safety_monitor._check_safety_conditions main.invoke_safety) w)).
  apply update_safety_state_leak.
  apply (ks_tick_before_update (fun c => leak_detected c = true));
    try lframe.
  exact Hl.
Qed.

Ltac use_wired :=
  unfold wired;
  cbn [safety on_door_open on_door_close on_leak_detected on_emergency_stop
       on_safety_warning];
  intros (-> & -> & -> & -> & ->).

Lemma door_block_frame (w : World) :
  wired (safety w) ->
  let v := door_block w in
  water v = water w /\ os v = os w /\ clock v = clock w
  /\ wired (safety v)
  /\ leak_detected (safety v) = leak_detected (safety w)
  /\ leak_sensor_active (safety v) = leak_sensor_active (safety w)
  /\ emergency_button_pressed (safety v) = emergency_button_pressed (safety w)
  /\ emergency_stop_active (safety v) = emergency_stop_active (safety w)
  /\ shower_start_time (safety v) = shower_start_time (safety w)
  /\ max_shower_duration (safety v) = max_shower_duration (safety w)
  /\ count is_leak_detected (trace v) = count is_leak_detected (trace w).
Proof.
  open_world w. use_wired.
  unfold door_block, safety_monitor.read_door_sensor,
    safety_monitor.trigger_door_events, main.invoke_safety,
    safety_monitor.reset_door_timer, safety_monitor.start_door_timer,
    safety_monitor.cancel_door_timer, safety_monitor.create_door_timeout_task,
    fire, seq, count, wired.
  cbn.
  destruct door_sensor_active0, door_state0, door_timer0 as [i|]; cbn;
    now repeat split.
Qed.


#[local] Notation "'tail_view'" :=
  (fun w : World =>
     (water w, os w, trace w, shower_start_time (safety w),
      leak_detected (safety w), emergency_stop_active (safety w))).

Lemma tv_upd_tasks f : same tail_view (upd_tasks f).
Proof. intros []. reflexivity. Qed.

Lemma tv_upd_safety (f : SafetyMonitor.t -> SafetyMonitor.t) :
  (forall c, shower_start_time (f c) = shower_start_time c) ->
  (forall c, leak_detected (f c) = leak_detected c) ->
  (forall c, emergency_stop_active (f c) = emergency_stop_active c) ->
  same tail_view (upd_safety f).
Proof. intros H1 H2 H3 [? sa ? ? ? ?]. cbn. now rewrite H1, H2, H3. Qed.

Lemma tv_cancel_door_timer : same tail_view safety_monitor.cancel_door_timer.
Proof.
  intros w. unfold safety_monitor.cancel_door_timer.
  destruct (door_timer (safety w)); [apply tv_upd_tasks | reflexivity].
Qed.

Lemma tv_start_door_timer : same tail_view safety_monitor.start_door_timer.
Proof.
  apply (vs_seq tail_view); [apply tv_cancel_door_timer|].
  intros w. unfold safety_monitor.create_door_timeout_task.
  apply (vs_seq tail_view); [apply tv_upd_tasks|].
  apply tv_upd_safety; now intros [].
Qed.

Lemma tv_reset_door_timer : same tail_view safety_monitor.reset_door_timer.
Proof.
  apply (vs_seq tail_view);
    [apply tv_cancel_door_timer | apply tv_start_door_timer].
Qed.

Lemma tv_check_door_state : same tail_view safety_monitor.check_door_state.
Proof.
  intros w. unfold safety_monitor.check_door_state.
  destruct (_ && _); [reflexivity|].
  destruct (_ && _); [apply tv_reset_door_timer | reflexivity].
Qed.

Lemma tv_update_safety_state :
  same tail_view safety_monitor._update_safety_state.
Proof.
  intros w. unfold safety_monitor._update_safety_state.
  assert (U : forall s, tail_view (upd_safety (set_safety_state s) w)
                        = tail_view w).
  { intros s. apply tv_upd_safety; now intros []. }
  remember (tail_view w) as R eqn:ER.
  repeat match goal with
         | |- context [if ?b then _ else _] => destruct b
         end; apply U.
Qed.

Lemma tv_check_for_leaks (w : World) :
  on_safety_warning (safety w) = None ->
  tail_view (safety_monitor.check_for_leaks main.invoke_safety w) = tail_view w.
Proof.
  intros H. unfold safety_monitor.check_for_leaks, when.
  remember (tail_view w) as R eqn:ER.
  destruct (leak_detected (safety w)); [|now symmetry].
  subst R.
  unfold seq, fire.
  assert (E : on_safety_warning
                (safety (upd_safety (set_safety_state SafetyState.DANGER) w))
              = None).
  { destruct w as [? sa ? ? ? ?]; destruct sa. exact H. }
  rewrite E. apply tv_upd_safety; now intros [].
Qed.

(** The checks and the state update of a tick on which the duration check
    does not fire. *)
Lemma tick_tail_frame (w : World) :
  wired (safety w) ->
  safety_monitor.duration_exceeded w = false ->
  let v := safety_monitor._update_safety_state
             (safety_monitor.check_door_state
                (safety_monitor.check_for_leaks main.invoke_safety
                   (safety_monitor.check_shower_duration main.invoke_safety w))) in
  water v = water w /\ os v = os w /\ trace v = trace w
  /\ shower_start_time (safety v) = shower_start_time (safety w)
  /\ leak_detected (safety v) = leak_detected (safety w)
  /\ emergency_stop_active (safety v) = emergency_stop_active (safety w).
Proof.
  intros (_ & _ & _ & _ & W) Hd v.
  assert (E : tail_view v = tail_view w).
  { subst v.
    assert (E0 : safety_monitor.check_shower_duration main.invoke_safety w = w).
    { unfold safety_monitor.check_shower_duration, when. now rewrite Hd. }
    rewrite E0.
    etransitivity; [apply tv_update_safety_state|].
    etransitivity; [apply tv_check_door_state|].
    now apply tv_check_for_leaks. }
  injection E as E1 E2 E3 E4 E5 E6. now repeat split.
Qed.

Lemma safety_tick_door_block (w : World) :
  main.safety_tick w
  = safety_monitor._update_safety_state
      (safety_monitor.check_door_state
         (safety_monitor.check_for_leaks main.invoke_safety
            (safety_monitor.check_shower_duration main.invoke_safety
               (safety_monitor.read_emergency_button main.invoke_safety
                  (safety_monitor.read_leak_sensor main.invoke_safety
                     (door_block w)))))).
Proof. reflexivity. Qed.

Lemma no_session_no_duration (w : World) :
  shower_start_time (safety w) = None ->
  safety_monitor.duration_exceeded w = false.
Proof. unfold safety_monitor.duration_exceeded. now intros ->. Qed.

(** X10: a detected leak is never cleared.  Once [leak_detected] is set,
    no command, tick, timer or sensor change resets it (the leak sensor
    line going quiet included), and every later tick of the safety loop
    ends in EMERGENCY if the emergency latch is set and in DANGER
    otherwise, never in SAFE. *)
Theorem leak_is_never_cleared (l : list Step) (w : World) :
  leak_detected (safety w) = true ->
  let v := main.safety_tick (run l w) in
  leak_detected (safety (run l w)) = true
  /\ leak_detected (safety v) = true
  /\ safety_state (safety v)
     = (if emergency_stop_active (safety v)
        then SafetyState.EMERGENCY else SafetyState.DANGER).
Proof.
  intros H v. pose proof (leak_kept_run l w H) as Hl.
  split; [exact Hl|]. split.
  - apply (leak_kept_step SafetyTick). exact Hl.
  - now apply safety_tick_leak.
Qed.

Lemma leak_is_never_cleared_witness :
  let w := run [CmdStartShower 38 None; SimulateLeak; SafetyTick]
               (main.initialize default_config 1000) in
  leak_detected
    (safety (run [ClearLeakSensor; SafetyTick; CmdStopShower;
                  CmdStartShower 38 None; SafetyTick] w)) = true.
Proof.
  cbv zeta.
  refine (proj1 (leak_is_never_cleared _ _ _)).
  vm_compute. reflexivity.
Defined.

(** [stop_shower] as far as its call of [stop_playback]: the water is
    shut, and nothing but the water controller and the trace has changed. *)
Lemma stop_shower_until_playback_effects (w : World) :
  let v := main.stop_shower_until_playback w in
  shut (water v)
  /\ safety v = safety w /\ os v = os w /\ tasks v = tasks w
  /\ clock v = clock w
  /\ count is_leak_detected (trace v) = count is_leak_detected (trace w)
  /\ emergency_count v = emergency_count w.
Proof.
  open_world w.
  unfold main.stop_shower_until_playback, water_control.stop_flow,
    water_control._close_valves, main.audio_stop_playback, fire, seq,
    emergency_count, count, shut.
  cbn. destruct on_flow_stop0 as [[]|]; cbn; now repeat split.
Qed.

(** The leak block when the leak is new, cut where [stop_shower] awaits the
    audio manager. *)
Lemma read_leak_sensor_halves (w : World) :
  wired (safety w) ->
  leak_sensor_active (safety w) = true ->
  leak_detected (safety w) = false ->
  safety_monitor.read_leak_sensor main.invoke_safety w
  = main.send_emergency_notification "Water leak detected!"
      (main.stop_shower_after_playback
         (main.stop_shower_until_playback
            (emit Ev_on_leak_detected
               (upd_safety (set_leak_detected true) w)))).
Proof.
  open_world w. use_wired.
  cbn [safety leak_sensor_active leak_detected]. intros -> ->.
  reflexivity.
Qed.

(** X11: the tick that first sees the leak sensor active shuts the water
    before it yields.  With the coordinator's handlers installed, a tick of
    the safety loop that finds the leak line active and no leak recorded yet
    reads the door, sets [leak_detected], fires [on_leak_detected] once and
    runs [stop_shower] as far as the call of [stop_playback]; when it is
    suspended there for the first time, both supply valves are shut, the
    valve is CLOSED and the flow STOPPED at rate 0.  The rest of the tick
    (closing the session, the notification, the button, the checks and the
    state update) runs after that suspension; run without anything in
    between, the two parts are the tick.  Whatever runs in between, the
    leak stays recorded. *)
Theorem new_leak_shuts_the_water_at_once (w : World) :
  wired (safety w) ->
  leak_sensor_active (safety w) = true ->
  leak_detected (safety w) = false ->
  let w1 := main.stop_shower_until_playback
              (emit Ev_on_leak_detected
                 (upd_safety (set_leak_detected true) (door_block w))) in
  main.safety_tick w
  = safety_monitor._update_safety_state
      (safety_monitor.check_door_state
         (safety_monitor.check_for_leaks main.invoke_safety
            (safety_monitor.check_shower_duration main.invoke_safety
               (safety_monitor.read_emergency_button main.invoke_safety
                  (main.send_emergency_notification "Water leak detected!"
                     (main.stop_shower_after_playback w1))))))
  /\ shut (water w1)
  /\ leak_detected (safety w1) = true
  /\ count is_leak_detected (trace w1) = S (count is_leak_detected (trace w))
  /\ forall l, leak_detected (safety (run l w1)) = true.
Proof.
  intros W Ha Hl w1.
  destruct (door_block_frame w W)
    as (_ & _ & _ & W2 & L2 & A2 & _ & _ & _ & _ & C2).
  rewrite Hl in L2. rewrite Ha in A2.
  pose proof (stop_shower_until_playback_effects
                (emit Ev_on_leak_detected
                   (upd_safety (set_leak_detected true) (door_block w)))) as E.
  cbv zeta in E. fold w1 in E. destruct E as (Sh & Es & _ & _ & _ & Ec & _).
  assert (L1 : leak_detected (safety w1) = true).
  { rewrite Es. destruct (door_block w) as [? sa ? ? ? ?]; destruct sa.
    reflexivity. }
  split; [|split; [exact Sh|split; [exact L1|split]]].
  - rewrite safety_tick_door_block.
    now rewrite (read_leak_sensor_halves (door_block w) W2 A2 L2).
  - rewrite Ec, <- C2. destruct (door_block w). reflexivity.
  - intros l. now apply leak_kept_run.
Qed.

Lemma new_leak_shuts_the_water_at_once_witness :
  let w := run [CmdStartShower 38 None; SafetyTick; SimulateLeak]
               (main.initialize default_config 1000) in
  valve_state (water w) = ValveState.OPEN
  /\ shut (water (main.stop_shower_until_playback
                    (emit Ev_on_leak_detected
                       (upd_safety (set_leak_detected true) (door_block w))))).
Proof.
  cbv zeta. split; [vm_compute; reflexivity|].
  refine (proj1 (proj2 (new_leak_shuts_the_water_at_once _ _ _ _)));
    vm_compute; now repeat split.
Defined.

(** X12: a leak that is already recorded does not stop a later shower.
    The leak handler runs only on the tick that first sets [leak_detected];
    on every later tick with the flag set, no button pressed and the
    session within its maximum duration, the safety loop leaves the water
    controller and the coordinator exactly as they were (so a shower
    started after the leak keeps running), fires no further
    [on_leak_detected], and ends in DANGER unless the emergency latch is
    set. *)
Theorem known_leak_does_not_stop_the_shower (w : World) :
  wired (safety w) ->
  leak_detected (safety w) = true ->
  emergency_button_pressed (safety w) = false ->
  safety_monitor.duration_exceeded w = false ->
  let v := main.safety_tick w in
  water v = water w
  /\ os v = os w
  /\ shower_start_time (safety v) = shower_start_time (safety w)
  /\ count is_leak_detected (trace v) = count is_leak_detected (trace w)
  /\ (emergency_stop_active (safety w) = false ->
      safety_state (safety v) = SafetyState.DANGER).
Proof.
  intros W Hl Hb Hd v.
  pose proof (safety_tick_leak w Hl) as S. cbv zeta in S. fold v in S.
  subst v. revert S. rewrite safety_tick_door_block.
  destruct (door_block_frame w W)
    as (Ew & Eo & Ec & W2 & L2 & _ & B2 & E2 & S2 & M2 & C2).
  set (w2 := door_block w) in *.
  rewrite Hl in L2. rewrite Hb in B2.
  assert (E3 : safety_monitor.read_leak_sensor main.invoke_safety w2 = w2).
  { unfold safety_monitor.read_leak_sensor, when. rewrite L2.
    now rewrite andb_false_r. }
  assert (E4 : safety_monitor.read_emergency_button main.invoke_safety w2 = w2).
  { unfold safety_monitor.read_emergency_button, when. now rewrite B2. }
  assert (D2 : safety_monitor.duration_exceeded w2 = false).
  { unfold safety_monitor.duration_exceeded in *. now rewrite S2, Ec, M2. }
  rewrite E3, E4.
  destruct (tick_tail_frame w2 W2 D2) as (Tw & To & Tt & Ts & _ & Te).
  intros S. rewrite Tw, To, Tt, Ts, Ew, Eo, S2, C2.
  repeat split. intros He. rewrite S, Te, E2, He. reflexivity.
Qed.

Lemma known_leak_does_not_stop_the_shower_witness :
  let w := run [CmdStartShower 38 None; SimulateLeak; SafetyTick;
                CmdStartShower 38 None]
               (main.initialize default_config 1000) in
  valve_state (water w) = ValveState.OPEN
  /\ water (main.safety_tick w) = water w.
Proof.
  cbv zeta. split; [vm_compute; reflexivity|].
  refine (proj1 (known_leak_does_not_stop_the_shower _ _ _ _ _));
    vm_compute; now repeat split.
Defined.

End Leak.

(** ** Stopping cancels the door timer *)

Section TimerCancel.
Import SafetyMonitor.

Lemma no_pending_not_due (i : nat) (w : World) :
  no_pending w -> safety_monitor.due i w = false.
Proof.
  intros N. unfold safety_monitor.due.
  destruct (nth_error (tasks w) i) as [k|] eqn:Hk; [|reflexivity].
  destruct (Task.state k) eqn:Hs.
  - destruct (N i). now exists k.
  - unfold Task.done. now rewrite Hs.
  - unfold Task.done. now rewrite Hs.
Qed.

Lemma no_pending_no_fire (i : nat) (w : World) :
  no_pending w -> main.door_timer_fires i w = w.
Proof.
  intros N. unfold main.door_timer_fires, safety_monitor.run_door_timeout, when.
  now rewrite no_pending_not_due.
Qed.

Lemma tasks_upd_os f (w : World) : tasks (upd_os f w) = tasks w.
Proof. destruct w. reflexivity. Qed.


Lemma stop_shower_session_no_pending (w : World) :
  timer_inv w -> no_pending (safety_monitor.stop_shower_session w).
Proof.
  intros I. unfold safety_monitor.stop_shower_session, seq.
  eapply no_pending_tasks; [apply tasks_upd_safety|].
  eapply no_pending_tasks; [apply tasks_upd_safety|].
  destruct (door_timer (safety w)) eqn:Hd.
  - eapply no_pending_tasks; [apply tasks_upd_safety|].
    now apply cancel_no_pending.
  - intros i Hp. specialize (I i Hp). congruence.
Qed.



Lemma no_pending_elapse (dt : Q) (w : World) :
  no_pending w -> no_pending (advance_clock dt w).
Proof. apply no_pending_tasks. now destruct w. Qed.



End TimerCancel.

(** ** An emergency stop shuts the water *)

Section EmergencyShuts.
Import WaterController SafetyMonitor.

Lemma emergency_stop_halves (r : string) (w : World) :
  on_emergency_stop (safety w) = Some _on_emergency_stop ->
  main.safety_emergency_stop r w
  = main.send_emergency_notification "Emergency stop activated!"
      (main.stop_shower_after_playback
         (main.stop_shower_until_playback
            (upd_os (SmartShowerOS.set_emergency_stop true)
               (emit Ev_on_emergency_stop (latch_emergency w))))).
Proof.
  open_world w. cbn [safety on_emergency_stop]. intros ->. reflexivity.
Qed.

(** X14: an emergency stop of the monitor shuts the water before it yields.
    With the coordinator's handler installed, a call of the monitor's
    [emergency_stop] sets the latch, fires [on_emergency_stop] once, sets
    the coordinator's flag and runs [stop_shower] as far as the call of
    [stop_playback]; when it is suspended there for the first time, both
    supply valves are shut, the valve is CLOSED and the flow STOPPED at rate
    0.  What follows that suspension closes the session, clears the
    coordinator's [shower_active], drops the door timer and sends the
    notification, and touches neither the water controller nor the latch;
    run without anything in between, the two parts are the call.  Whatever
    runs in between, the latch stays set. *)
Theorem emergency_stop_shuts_the_water (r : string) (w : World) :
  on_emergency_stop (safety w) = Some _on_emergency_stop ->
  let w1 := main.stop_shower_until_playback
              (upd_os (SmartShowerOS.set_emergency_stop true)
                 (emit Ev_on_emergency_stop (latch_emergency w))) in
  let rest := fun x => main.send_emergency_notification
                         "Emergency stop activated!"
                         (main.stop_shower_after_playback x) in
  main.safety_emergency_stop r w = rest w1
  /\ shut (water w1)
  /\ latched (safety w1)
  /\ SmartShowerOS.emergency_stop (os w1) = true
  /\ emergency_count w1 = S (emergency_count w)
  /\ (forall l, latched (safety (run l w1)))
  /\ (forall x,
        water (rest x) = water x
        /\ emergency_stop_active (safety (rest x))
           = emergency_stop_active (safety x)
        /\ shower_start_time (safety (rest x)) = None
        /\ door_timer (safety (rest x)) = None
        /\ SmartShowerOS.shower_active (os (rest x)) = false).
Proof.
  intros Hs w1 rest.
  pose proof (stop_shower_until_playback_effects
                (upd_os (SmartShowerOS.set_emergency_stop true)
                   (emit Ev_on_emergency_stop (latch_emergency w)))) as E.
  cbv zeta in E. fold w1 in E.
  destruct E as (Sh & Es & Eo & _ & _ & _ & Ec).
  assert (L1 : latched (safety w1)).
  { rewrite Es. unfold latched, latch_emergency, seq.
    destruct w as [? sa ? ? ? ?]; destruct sa. reflexivity. }
  split; [now apply emergency_stop_halves|].
  split; [exact Sh|]. split; [exact L1|]. split; [|split; [|split]].
  - rewrite Eo. destruct w as [? ? o ? ? ?]; destruct o. reflexivity.
  - rewrite Ec. unfold latch_emergency, seq.
    rewrite ec_upd_os, ec_emit_emergency. now rewrite !ec_upd_safety.
  - intros l. now apply latched_run.
  - intros x. subst rest. cbv beta.
    destruct (stop_shower_after_playback_result x)
      as (Hd & _ & Ht & Ho & Hw & He).
    unfold main.send_emergency_notification.
    destruct (main.stop_shower_after_playback x). cbn in *.
    now repeat split.
Qed.

Lemma emergency_stop_shuts_the_water_witness :
  let w := run [CmdStartShower 38 None; SafetyTick]
               (main.initialize default_config 1000) in
  valve_state (water w) = ValveState.OPEN
  /\ shut (water (main.stop_shower_until_playback
                    (upd_os (SmartShowerOS.set_emergency_stop true)
                       (emit Ev_on_emergency_stop (latch_emergency w))))).
Proof.
  cbv zeta. split; [vm_compute; reflexivity|].
  refine (proj1 (proj2 (emergency_stop_shuts_the_water "Emergency stop" _ _)));
    vm_compute; reflexivity.
Defined.

End EmergencyShuts.

(** ** Settings addressed by dotted keys *)

Section Settings.
Import config_manager.

Lemma split_dot_nonempty (key : string) : split_dot key <> [].
Proof.
  destruct key as [|c r]; cbn; [discriminate|].
  destruct (Ascii.eqb c _); [discriminate|].
  destruct (split_dot r); discriminate.
Qed.

Lemma split_dot_path (key : string) :
  split_dot key
  = removelast (split_dot key) ++ [List.last (split_dot key) EmptyString].
Proof. apply app_removelast_last, split_dot_nonempty. Qed.

Lemma dict_get_set_same (k : string) (v : Value) (d : list (string * Value)) :
  dict_get k (dict_set k v d) = Some v.
Proof.
  induction d as [|[k0 v0] r IH]; cbn.
  - now rewrite String.eqb_refl.
  - destruct (String.eqb k0 k) eqn:E; cbn; rewrite E; [reflexivity | exact IH].
Qed.

Lemma dict_get_set_other (k k' : string) (v : Value) (d : list (string * Value)) :
  String.eqb k k' = false ->
  dict_get k' (dict_set k v d) = dict_get k' d.
Proof.
  intros N. induction d as [|[k0 v0] r IH]; cbn.
  - now rewrite N.
  - destruct (String.eqb k0 k) eqn:E; cbn.
    + apply String.eqb_eq in E. subst k0. now rewrite N.
    + now rewrite IH.
Qed.

Lemma walk_set_in (ks : list string) (l : string) (v c c' : Value) :
  set_in ks l v c = Some c' -> walk (ks ++ [l]) c' = Some v.
Proof.
  revert c c'. induction ks as [|k r IH]; intros c c' H;
    destruct c; try discriminate; cbn in H.
  - injection H as <-. cbn. now rewrite dict_get_set_same.
  - destruct (set_in r l v _) as [c0|] eqn:E; [|discriminate].
    injection H as <-. cbn. rewrite dict_get_set_same. now apply IH in E.
Qed.

Lemma diverge_nonempty (p q : list string) : diverge p q = true -> q <> [].
Proof. destruct p, q; cbn; congruence. Qed.

Lemma walk_empty_dict (q : list string) : q <> [] -> walk q (VDict []) = None.
Proof. destruct q; [congruence | reflexivity]. Qed.

Lemma walk_set_in_other (ks : list string) (l : string) (v c c' : Value)
    (q : list string) :
  set_in ks l v c = Some c' ->
  diverge (ks ++ [l]) q = true ->
  walk q c' = walk q c.
Proof.
  revert c c' q. induction ks as [|k r IH]; intros c c' q H D;
    destruct c; try discriminate; cbn in H.
  - injection H as <-. destruct q as [|b y]; [discriminate|]. cbn in D |- *.
    destruct (String.eqb l b) eqn:E.
    + now destruct y.
    + now rewrite dict_get_set_other.
  - destruct (set_in r l v _) as [c0|] eqn:E; [|discriminate].
    injection H as <-. destruct q as [|b y]; [discriminate|]. cbn in D |- *.
    destruct (String.eqb k b) eqn:Ek.
    + apply String.eqb_eq in Ek. subst b. rewrite dict_get_set_same.
      rewrite (IH _ _ _ E D).
      destruct (dict_get k d); [reflexivity|].
      apply walk_empty_dict. now apply diverge_nonempty in D.
    + now rewrite dict_get_set_other.
Qed.

Lemma set_in_empty (ks : list string) (l : string) (v : Value) :
  set_in ks l v (VDict []) <> None.
Proof.
  induction ks as [|k r IH]; cbn; [discriminate|].
  destruct (set_in r l v (VDict [])); [discriminate | exact IH].
Qed.

Lemma set_in_none (ks : list string) (l : string) (v c : Value) :
  set_in ks l v c = None
  <-> exists n x, (n <= List.length ks)%nat
                  /\ walk (firstn n ks) c = Some x /\ is_dict x = false.
Proof.
  revert c. induction ks as [|k r IH]; intros c.
  - split.
    + intros H. exists 0%nat, c. destruct c; try discriminate; now repeat split.
    + intros (n & x & Hn & Hw & Hx). destruct n; [|cbn in Hn; lia].
      cbn in Hw. injection Hw as ->. now destruct x.
  - split.
    + intros H. destruct c;
        try (exists 0%nat; eexists; cbn; split; [lia | split; reflexivity]).
      cbn in H.
      destruct (dict_get k d) as [ch|] eqn:Hk.
      * destruct (set_in r l v ch) eqn:E; [discriminate|].
        apply IH in E. destruct E as (n & x & Hn & Hw & Hx).
        exists (S n), x. cbn. rewrite Hk.
        split; [lia | split; [exact Hw | exact Hx]].
      * destruct (set_in r l v (VDict [])) eqn:E; [discriminate|].
        now apply set_in_empty in E.
    + intros (n & x & Hn & Hw & Hx). destruct c; try reflexivity.
      destruct n as [|m]; cbn in Hw.
      * injection Hw as <-. discriminate.
      * cbn. destruct (dict_get k d) as [ch|] eqn:Hk; [|discriminate].
        assert (E : set_in r l v ch = None).
        { apply IH. exists m, x. cbn in Hn.
          split; [lia | split; [exact Hw | exact Hx]]. }
        now rewrite E.
Qed.

Lemma walk_prefix_leaf (n : nat) (keys : list string) (c x : Value) :
  (n < List.length keys)%nat ->
  walk (firstn n keys) c = Some x -> is_dict x = false ->
  walk keys c = None.
Proof.
  revert keys c. induction n as [|m IH]; intros keys c Hn Hw Hx.
  - cbn in Hw. injection Hw as ->.
    destruct keys; [cbn in Hn; lia|]. now destruct x.
  - destruct keys as [|k r]; [cbn in Hn; lia|]. cbn in Hw |- *.
    destruct c; try discriminate.
    destruct (dict_get k d); [|reflexivity].
    apply (IH r v); [cbn in Hn; lia | exact Hw | exact Hx].
Qed.

(** X15: a setting that was set is read back.  When [set(key, value)]
    returns, [get(key, default)] on the new settings returns [value],
    whatever the default, for every key: one with a single segment, one
    whose intermediate dictionaries had to be created, one with empty
    segments. *)
Theorem get_after_set (key : string) (value default settings settings' : Value) :
  set key value settings = Some settings' ->
  get key default settings' = value.
Proof.
  unfold set, get. intros H. apply walk_set_in in H.
  rewrite <- split_dot_path in H. now rewrite H.
Qed.

Lemma get_after_set_witness :
  get "safety.door_timeout" VNone
      (VDict [("safety"%string, VDict [("door_timeout"%string, VInt 300)])])
  = VInt 300.
Proof.
  apply (get_after_set "safety.door_timeout" (VInt 300) VNone (VDict [])).
  vm_compute. reflexivity.
Defined.

(** X16: [set] leaves the other settings alone.  When [set(key, value)]
    returns, [get] answers as before for every key whose dotted path parts
    ways with that of [key] (neither path is a prefix of the other), also
    where [set] had to create dictionaries on the way: a setting that was
    missing is still missing, and the caller's default still applies.
    (Settings are a tree: no dictionary is shared between two places.) *)
Theorem set_keeps_other_keys (key key2 : string)
    (value default settings settings' : Value) :
  set key value settings = Some settings' ->
  diverge (split_dot key) (split_dot key2) = true ->
  get key2 default settings' = get key2 default settings.
Proof.
  unfold set, get. intros H D. rewrite (split_dot_path key) in D.
  now rewrite (walk_set_in_other _ _ _ _ _ _ H D).
Qed.

Lemma set_keeps_other_keys_witness :
  get "safety.door_timeout" VNone
      (VDict [("safety"%string,
               VDict [("door_timeout"%string, VInt 600);
                      ("max_shower_duration"%string, VInt 900)])])
  = get "safety.door_timeout" VNone
        (VDict [("safety"%string, VDict [("door_timeout"%string, VInt 600)])]).
Proof.
  apply (set_keeps_other_keys "safety.max_shower_duration"
           "safety.door_timeout" (VInt 900)); vm_compute; reflexivity.
Defined.

(** X17: [set] raises exactly below a leaf.  [set(key, value)] raises
    (a [TypeError], leaving the settings as they were) if and only if some
    proper prefix of the dotted key leads to an existing value that is not
    a dictionary, the settings object itself included; a missing section is
    created instead.  For such a key [get] returns the caller's default. *)
Theorem set_raises_below_a_leaf (key : string) (value default settings : Value) :
  (set key value settings = None <-> below_leaf key settings)
  /\ (below_leaf key settings -> get key default settings = default).
Proof.
  assert (L : List.length (split_dot key)
              = S (List.length (removelast (split_dot key)))).
  { rewrite (split_dot_path key) at 1. rewrite length_app. cbn. lia. }
  assert (F : forall n, (n <= List.length (removelast (split_dot key)))%nat ->
                firstn n (split_dot key)
                = firstn n (removelast (split_dot key))).
  { intros n Hn. rewrite (split_dot_path key) at 1.
    rewrite firstn_app. replace (n - _)%nat with 0%nat by lia.
    cbn. apply app_nil_r. }
  split; [split|].
  - intros H. apply set_in_none in H. destruct H as (n & x & Hn & Hw & Hx).
    exists n, x. rewrite L, F by exact Hn.
    split; [lia | split; [exact Hw | exact Hx]].
  - intros (n & x & Hn & Hw & Hx). apply set_in_none. exists n, x.
    rewrite L in Hn. rewrite F in Hw by lia.
    split; [lia | split; [exact Hw | exact Hx]].
  - intros (n & x & Hn & Hw & Hx). unfold get.
    now rewrite (walk_prefix_leaf n _ _ x Hn Hw Hx).
Qed.

Lemma set_raises_below_a_leaf_witness :
  set "system.name.first" (VStr "shower")
      (VDict [("system"%string, VDict [("name"%string, VStr "showerOS")])])
  = None.
Proof.
  apply (proj1 (set_raises_below_a_leaf "system.name.first" (VStr "shower") VNone
                  (VDict [("system"%string,
                           VDict [("name"%string, VStr "showerOS")])]))).
  exists 2%nat, (VStr "showerOS").
  split; [vm_compute; lia | split; vm_compute; reflexivity].
Defined.

End Settings.

(** ** A start served while a stop is suspended *)

Section Interleaving.
Import WaterController SafetyMonitor.

(** X9: a [start_shower] served while [stop_shower] awaits the audio
    manager leaves the water running outside a session.  From any reachable
    state, let [stop_shower] run as far as its call of [stop_playback], let
    a [start_shower] run to its end during that suspension, and let
    [stop_shower] resume.  The state reached has the valve OPEN and the flow
    ADJUSTING, while the coordinator's shower is inactive, the monitor has
    no session and holds no door timer, and no door-timeout task is
    pending: the duration check cannot fire, and however much time passes
    no door-timeout task wakes up, until a door edge or a new session
    creates one. *)
Theorem start_during_stop_leaves_water_on (cfg : Config) (now : Q) (w : World)
    (t : Q) (a : option string) :
  reachable cfg now w ->
  let v := run [StopShowerAwaitsPlayback; CmdStartShower t a; StopShowerResumes]
               w in
  reachable cfg now v
  /\ valve_state (water v) = ValveState.OPEN
  /\ flow_state (water v) = FlowState.ADJUSTING
  /\ SmartShowerOS.shower_active (os v) = false
  /\ shower_start_time (safety v) = None
  /\ door_timer (safety v) = None
  /\ no_pending v
  /\ safety_monitor.duration_exceeded v = false
  /\ forall dt i, step (DoorTimerFires i) (step (Elapse dt) v)
                  = step (Elapse dt) v.
Proof.
  intros R v.
  set (x := run [StopShowerAwaitsPlayback; CmdStartShower t a] w).
  assert (Rx : reachable cfg now x).
  { subst x. cbn [run fold_left]. now repeat apply reach_step. }
  assert (Ev : v = main.stop_shower_after_playback x) by reflexivity.
  assert (Rv : reachable cfg now v).
  { rewrite Ev. apply (reach_step cfg now x StopShowerResumes Rx). }
  destruct (stop_shower_after_playback_result x) as (Hd & _ & Ht & Ho & Hw & _).
  rewrite <- Ev in Hd, Ht, Ho, Hw.
  assert (Wx : valve_state (water x) = ValveState.OPEN
               /\ flow_state (water x) = FlowState.ADJUSTING).
  { subst x. cbn [run fold_left step snd main.start_shower].
    set (y := main.stop_shower_until_playback w).
    destruct (start_shower_body_halves t a y) as (u & -> & Hu & _).
    destruct (start_shower_after_playback_result u) as (_ & _ & _ & _ & Eu).
    rewrite Eu, Hu.
    destruct (start_flow_effects t y) as (_ & F2 & F3 & _).
    now split. }
  destruct Wx as [V1 V2].
  assert (N : no_pending v).
  { rewrite Ev. unfold main.stop_shower_after_playback, seq.
    eapply no_pending_tasks; [apply tasks_upd_os|].
    apply stop_shower_session_no_pending.
    now apply (reachable_timer_inv cfg now). }
  split; [exact Rv|]. rewrite Hw.
  split; [exact V1|]. split; [exact V2|]. split; [exact Ho|].
  split; [exact Ht|]. split; [exact Hd|]. split; [exact N|].
  split; [now apply no_session_no_duration|].
  intros dt i. cbn [step]. apply no_pending_no_fire.
  now apply no_pending_elapse.
Qed.

Lemma start_during_stop_leaves_water_on_witness :
  let w := run [CmdStartShower 38 None; SafetyTick]
               (main.initialize default_config 1000) in
  let v := run [StopShowerAwaitsPlayback; CmdStartShower 40 None;
                StopShowerResumes] w in
  valve_state (water v) = ValveState.OPEN
  /\ SmartShowerOS.shower_active (os v) = false.
Proof.
  cbv zeta.
  assert (R : reachable default_config 1000
                (run [CmdStartShower 38 None; SafetyTick]
                     (main.initialize default_config 1000))).
  { cbn [run fold_left]. repeat apply reach_step. apply reach_init. }
  pose proof (start_during_stop_leaves_water_on default_config 1000 _ 40 None R)
    as H.
  cbv zeta in H. destruct H as (_ & H1 & _ & H2 & _).
  split; [exact H1 | exact H2].
Defined.

End Interleaving.
